(** * The client project of the GraphQL language server

    A shallow embedding of [src/language-server/project/client.ts]
    (class [GraphQLClientProject]) and the properties of its schema
    composer, fragment/operation registry, dependency closure resolver,
    service-document projector, validation pass and decoration pass.

    JavaScript objects created with [Object.create(null)] are modelled as
    insertion-ordered association lists ([JsObject]), [Set<string>] as
    [gset string], [Map<string, _>] as [gmap string _], thrown errors as an
    explicit completion type, and the fields the class mutates as explicit
    state. The functions of the [graphql] package and of sibling modules
    that the class only calls are section variables. *)

From Stdlib Require Import Ascii QArith Qcanon.
From stdpp Require Import base option list gmap sets strings.
From Equations Require Import Equations.

#[local] Set Warnings "-clear-no-such-hyp".

Local Open Scope string_scope.
Local Open Scope list_scope.
Local Open Scope nat_scope.

(** ** Objects used as dictionaries *)

(** [Object.create(null)]: no prototype, string keys, own properties kept in
    insertion order (GraphQL names are never array indices, so [for..in] and
    [Object.values] enumerate in insertion order). Assigning to an existing
    key keeps the key's position. *)
Module JsObject.

Definition t (A : Type) : Type := list (string * A).

Definition create {A : Type} : t A := [].

Fixpoint put {A : Type} (o : t A) (key : string) (value : A) : t A :=
  match o with
  | [] => [(key, value)]
  | (k, v) :: o' =>
      if decide (k = key) then (k, value) :: o' else (k, v) :: put o' key value
  end.

Fixpoint get {A : Type} (o : t A) (key : string) : option A :=
  match o with
  | [] => None
  | (k, v) :: o' => if decide (k = key) then Some v else get o' key
  end.

Definition keys {A : Type} (o : t A) : list string := map fst o.

Definition values {A : Type} (o : t A) : list A := map snd o.

End JsObject.

(** ** The AST of the [graphql] package, as far as the class reads it *)

Record Source := { source_name : string }.

Record Location := {
  loc_start : nat;
  loc_end : nat;
  loc_source : Source;
}.

Inductive OperationTypeNode := QUERY | MUTATION | SUBSCRIPTION.

Record DirectiveNode := {
  directive_loc : option Location;
  directive_name : string;
}.

(** A field without a selection set has [selections = []]: the parser never
    produces an empty selection set. Arguments and variables hold no
    selection and are left out. *)
#[warnings="-register-all"] Inductive SelectionNode :=
| Field (loc : option Location) (alias : option string) (name : string)
    (directives : list DirectiveNode) (selections : list SelectionNode)
| FragmentSpread (loc : option Location) (name : string)
    (directives : list DirectiveNode)
| InlineFragment (loc : option Location) (typeCondition : option string)
    (directives : list DirectiveNode) (selections : list SelectionNode).

Record OperationDefinitionNode := {
  operation_loc : option Location;
  operation : OperationTypeNode;
  operation_name : option string;
  operation_directives : list DirectiveNode;
  operation_selectionSet : list SelectionNode;
}.

Record FragmentDefinitionNode := {
  fragment_loc : option Location;
  fragment_name : string;
  fragment_typeCondition : string;
  fragment_directives : list DirectiveNode;
  fragment_selectionSet : list SelectionNode;
}.

Record DirectiveDefinitionNode := {
  directiveDefinition_loc : option Location;
  directiveDefinition_name : string;
  directiveDefinition_locations : list string;
}.

Record ObjectTypeExtensionNode := {
  objectTypeExtension_loc : option Location;
  objectTypeExtension_name : string;
  objectTypeExtension_fields : option (list string);
}.

(** [parent] of [getOperationFieldsFromFieldDefinition]: the definition of an
    object type, read at [name.value]. *)
Record ObjectTypeDefinitionNode := {
  objectTypeDefinition_name : string;
}.

(** [kind] is the discriminant of [DefinitionNode]; the type-system
    definitions the class does not inspect are kept by kind and name. *)
Inductive DefinitionNode :=
| OperationDefinition (node : OperationDefinitionNode)
| FragmentDefinition (node : FragmentDefinitionNode)
| DirectiveDefinition (node : DirectiveDefinitionNode)
| ObjectTypeExtension (node : ObjectTypeExtensionNode)
| TypeSystemDefinition (kind : string) (name : string).

Inductive ExecutableDefinitionNode :=
| ExecutableOperation (node : OperationDefinitionNode)
| ExecutableFragment (node : FragmentDefinitionNode).

Record DocumentNode := { definitions : list DefinitionNode }.

(** [GraphQLDocument] of [../document]: only [ast] is read here; it is
    absent when the document failed to parse. *)
Record GraphQLDocument := { ast : option DocumentNode }.

(** ** Errors *)

Record GraphQLError := {
  error_message : string;
  error_nodes : list DefinitionNode;
  error_source : option Source;
}.

Definition definition_loc (d : DefinitionNode) : option Location :=
  match d with
  | OperationDefinition o => operation_loc o
  | FragmentDefinition f => fragment_loc f
  | DirectiveDefinition n => directiveDefinition_loc n
  | ObjectTypeExtension n => objectTypeExtension_loc n
  | TypeSystemDefinition _ _ => None
  end.

(** [new GraphQLError(message, nodes)]: the source defaults to the source of
    the first node's location. *)
Definition newGraphQLError (message : string) (nodes : list DefinitionNode)
  : GraphQLError :=
  {| error_message := message;
     error_nodes := nodes;
     error_source := loc_source <$> (head nodes ≫= definition_loc) |}.

(** What a [try] block can catch: a [GraphQLError] or any other value. *)
Inductive Exception :=
| ThrownGraphQLError (error : GraphQLError)
| ThrownOther (description : string).

(** Result of evaluating code that may throw. *)
Inductive Completion (A : Type) : Type :=
| Normal (value : A)
| Throw (error : Exception).
Arguments Normal {A} value.
Arguments Throw {A} error.

#[global] Instance Completion_ret : MRet Completion := @Normal.

#[global] Instance Completion_bind : MBind Completion := fun A B k c =>
  match c with
  | Normal a => k a
  | Throw e => Throw e
  end.

(** ** Fragment/operation registry (getters [fragments], [operations]) *)

Definition addFragmentDefinition
  (fragments : JsObject.t FragmentDefinitionNode) (definition : DefinitionNode)
  : JsObject.t FragmentDefinitionNode :=
  match definition with
  | FragmentDefinition f => JsObject.put fragments (fragment_name f) f
  | _ => fragments
  end.

Definition addFragmentsOfDocument
  (fragments : JsObject.t FragmentDefinitionNode) (document : GraphQLDocument)
  : JsObject.t FragmentDefinitionNode :=
  match ast document with
  | None => fragments
  | Some a => foldl addFragmentDefinition fragments (definitions a)
  end.

Definition fragments (documents : list GraphQLDocument)
  : JsObject.t FragmentDefinitionNode :=
  foldl addFragmentsOfDocument JsObject.create documents.

Definition anonymousOperationMessage : string :=
  "Apollo does not support anonymous operations".

Fixpoint addOperationDefinitions
  (operations : JsObject.t OperationDefinitionNode)
  (defs : list DefinitionNode)
  : Completion (JsObject.t OperationDefinitionNode) :=
  match defs with
  | [] => Normal operations
  | definition :: rest =>
      match definition with
      | OperationDefinition o =>
          match operation_name o with
          | None =>
              Throw (ThrownGraphQLError
                       (newGraphQLError anonymousOperationMessage [definition]))
          | Some name =>
              addOperationDefinitions (JsObject.put operations name o) rest
          end
      | _ => addOperationDefinitions operations rest
      end
  end.

Fixpoint addOperationsOfDocuments
  (operations : JsObject.t OperationDefinitionNode)
  (documents : list GraphQLDocument)
  : Completion (JsObject.t OperationDefinitionNode) :=
  match documents with
  | [] => Normal operations
  | document :: rest =>
      match ast document with
      | None => addOperationsOfDocuments operations rest
      | Some a =>
          operations' ← addOperationDefinitions operations (definitions a);
          addOperationsOfDocuments operations' rest
      end
  end.

Definition operations (documents : list GraphQLDocument)
  : Completion (JsObject.t OperationDefinitionNode) :=
  addOperationsOfDocuments JsObject.create documents.

(** ** Dependency closure resolver ([getOperationWithFragments]) *)

(** The names of the [FragmentSpread] nodes in the order in which [visit]
    enters them: depth first, in document order. Spreads only occur in
    selection sets. *)
Fixpoint fragmentSpreadsOfSelection (selection : SelectionNode) : list string :=
  match selection with
  | Field _ _ _ _ selections =>
      flat_map fragmentSpreadsOfSelection selections
  | FragmentSpread _ name _ => [name]
  | InlineFragment _ _ _ selections =>
      flat_map fragmentSpreadsOfSelection selections
  end.

Definition selectionSetOf (definition : ExecutableDefinitionNode)
  : list SelectionNode :=
  match definition with
  | ExecutableOperation o => operation_selectionSet o
  | ExecutableFragment f => fragment_selectionSet f
  end.

Definition fragmentSpreads (definition : ExecutableDefinitionNode)
  : list string :=
  flat_map fragmentSpreadsOfSelection (selectionSetOf definition).

(** The three variables the [while] loop and its visitor update. *)
Record SearchState := {
  defintionsToSearch : list ExecutableDefinitionNode;
  allDefinitions : list ExecutableDefinitionNode;
  seenFragmentNames : gset string;
}.

(** The [FragmentSpread] visitor of the loop body. *)
Definition visitFragmentSpread
  (fragments : JsObject.t FragmentDefinitionNode)
  (st : SearchState) (fragmentName : string) : SearchState :=
  match JsObject.get fragments fragmentName with
  | Some fragment =>
      if decide (fragmentName ∈ seenFragmentNames st) then st
      else
        {| defintionsToSearch :=
             defintionsToSearch st ++ [ExecutableFragment fragment];
           allDefinitions := allDefinitions st ++ [ExecutableFragment fragment];
           seenFragmentNames := {[fragmentName]} ∪ seenFragmentNames st |}
  | None => st
  end.

(** What bounds the number of iterations left: the definitions still queued
    plus the registered fragment names not seen yet. *)
Definition searchMeasure (fragments : JsObject.t FragmentDefinitionNode)
  (queue : list ExecutableDefinitionNode) (seen : gset string) : nat :=
  length queue + size (list_to_set (JsObject.keys fragments) ∖ seen : gset string).

(** [while ((currentDefinition = defintionsToSearch.shift())) visit(...)].
    The loop is a total function: every iteration lowers [searchMeasure]. *)
Equations? searchDefinitions
  (fragments : JsObject.t FragmentDefinitionNode)
  (queue : list ExecutableDefinitionNode)
  (all : list ExecutableDefinitionNode)
  (seen : gset string)
  : list ExecutableDefinitionNode
  by wf (searchMeasure fragments queue seen) lt :=
  searchDefinitions fragments [] all seen := all;
  searchDefinitions fragments (currentDefinition :: rest) all seen :=
    let st := foldl (visitFragmentSpread fragments)
                {| defintionsToSearch := rest;
                   allDefinitions := all;
                   seenFragmentNames := seen |}
                (fragmentSpreads currentDefinition) in
    searchDefinitions fragments
      (defintionsToSearch st) (allDefinitions st) (seenFragmentNames st).
Proof.
  subst st.
  match goal with |- searchMeasure ?f _ _ < _ => rename f into o end.
  cut (∀ names st0,
         searchMeasure o
           (defintionsToSearch (foldl (visitFragmentSpread o) st0 names))
           (seenFragmentNames (foldl (visitFragmentSpread o) st0 names))
         ≤ searchMeasure o (defintionsToSearch st0) (seenFragmentNames st0)).
  { intros Hle. eapply Nat.le_lt_trans; [apply Hle|].
    unfold searchMeasure; simpl; lia. }
  clear.
  induction names as [|n names IH]; intros st0; simpl; [lia|].
  etrans; [apply IH|].
  unfold visitFragmentSpread.
  destruct (JsObject.get o n) as [fragment|] eqn:Hget; [|lia].
  destruct (decide (n ∈ seenFragmentNames st0)) as [Hin|Hnotin]; [lia|].
  unfold searchMeasure. simpl. rewrite length_app. simpl.
  assert (Hkey : n ∈ (list_to_set (JsObject.keys o) : gset string)).
  { apply elem_of_list_to_set. clear -Hget.
    induction o as [|[k v] o IHo]; simpl in *; [done|].
    destruct (decide (k = n)); [subst; left | right; auto]. }
  assert (Heq :
    (list_to_set (JsObject.keys o) ∖ seenFragmentNames st0 : gset string)
    = {[n]} ∪ (list_to_set (JsObject.keys o) ∖ ({[n]} ∪ seenFragmentNames st0))).
  { apply set_eq. intros x. destruct (decide (x = n)) as [->|]; set_solver. }
  pose proof (size_union (C:=gset string) {[n]}
                (list_to_set (JsObject.keys o)
                   ∖ ({[n]} ∪ seenFragmentNames st0))) as Hsz.
  rewrite size_singleton in Hsz. rewrite Heq, Hsz by set_solver.
  lia.
Qed.

Definition getOperationWithFragments (documents : list GraphQLDocument)
  (operationDefinition : OperationDefinitionNode)
  : list ExecutableDefinitionNode :=
  let fragments := fragments documents in
  searchDefinitions fragments
    [ExecutableOperation operationDefinition]
    [ExecutableOperation operationDefinition]
    ∅.

(** ** Spreads of a fragment ([fragmentSpreadsForFragment]) *)

Record FragmentSpreadNode := {
  spread_loc : option Location;
  spread_name : string;
  spread_directives : list DirectiveNode;
}.

(** The [FragmentSpread] nodes of a selection in the order in which [visit]
    enters them. *)
Fixpoint fragmentSpreadNodesOfSelection (selection : SelectionNode)
  : list FragmentSpreadNode :=
  match selection with
  | Field _ _ _ _ selections =>
      flat_map fragmentSpreadNodesOfSelection selections
  | FragmentSpread loc name directives =>
      [{| spread_loc := loc; spread_name := name;
          spread_directives := directives |}]
  | InlineFragment _ _ _ selections =>
      flat_map fragmentSpreadNodesOfSelection selections
  end.

(** Only executable definitions hold selections. *)
Definition fragmentSpreadNodesOfDefinition (definition : DefinitionNode)
  : list FragmentSpreadNode :=
  match definition with
  | OperationDefinition o =>
      flat_map fragmentSpreadNodesOfSelection (operation_selectionSet o)
  | FragmentDefinition f =>
      flat_map fragmentSpreadNodesOfSelection (fragment_selectionSet f)
  | _ => []
  end.

(** The [FragmentSpread] visitor of [fragmentSpreadsForFragment]. *)
Definition pushSpreadNamed (fragmentName : string)
  (fragmentSpreads : list FragmentSpreadNode) (node : FragmentSpreadNode)
  : list FragmentSpreadNode :=
  if decide (spread_name node = fragmentName) then fragmentSpreads ++ [node]
  else fragmentSpreads.

Definition fragmentSpreadsForFragment (documents : list GraphQLDocument)
  (fragmentName : string) : list FragmentSpreadNode :=
  foldl
    (λ fragmentSpreads document,
       match ast document with
       | None => fragmentSpreads
       | Some a =>
           foldl (pushSpreadNamed fragmentName) fragmentSpreads
             (flat_map fragmentSpreadNodesOfDefinition (definitions a))
       end)
    [] documents.

(** ** Strings *)

(** [String.prototype.includes]: [searchString] occurs somewhere in [s]. It
    is also what an alternative of a regular expression without anchor
    tests. *)
Fixpoint stringIncludes (s searchString : string) : bool :=
  String.prefix searchString s
  || match s with
     | EmptyString => false
     | String _ rest => stringIncludes rest searchString
     end.

(** ** Files of a project (constructor) *)

(** [filterConfigAndEnvFiles] of the constructor; [configURI] is
    [config.configURI.fsPath] when the configuration has a [configURI]. *)
Definition filterConfigAndEnvFiles (configURI : option string) (path : string)
  : bool :=
  negb (stringIncludes path "apollo.config"
        || stringIncludes path ".env"
        || match configURI with
           | Some fsPath => bool_decide (path = fsPath)
           | None => false
           end).

(** Whether the constructor warns of a project without files, given the
    result of [this.allIncludedFiles()]. *)
Definition warnsOfNoFiles (configURI : option string)
  (allIncludedFiles : list string) : bool :=
  bool_decide
    (length (filter (λ path, filterConfigAndEnvFiles configURI path)
               allIncludedFiles) = 0).

(** ** Project statistics ([getProjectStats]) *)

(** [filterTypes]: the test of [/^__|Boolean|ID|Int|String|Float/], negated.
    Only the first alternative is anchored. *)
Definition filterTypes (type : string) : bool :=
  negb (String.prefix "__" type
        || stringIncludes type "Boolean"
        || stringIncludes type "ID"
        || stringIncludes type "Int"
        || stringIncludes type "String"
        || stringIncludes type "Float").

Record TypeStats := {
  types_service : Z;
  types_client : Z;
  types_total : Z;
}.

Record ProjectStats := {
  stats_type : string;
  stats_serviceId : option string;
  stats_types : TypeStats;
  stats_tag : string;
  stats_loaded : bool;
  stats_lastFetch : option Z;
}.

(** ** Configuration ([ClientConfig] of [../config], the fields read here) *)

(** [client.service]: a graph name, or an object with a [url] (remote
    endpoint) or with a [localSchemaFile]. *)
Inductive ClientServiceConfig :=
| ServiceName (name : string)
| RemoteServiceConfig (url : string)
| LocalServiceConfig (localSchemaFile : string).

Record ClientConfig := {
  graph : option string;
  variant : string;
  client_service : option ClientServiceConfig;
  service_endpoint_url : option string;
  clientOnlyDirectives : option (list string);
  clientSchemaDirectives : option (list string);
  addTypename : bool;
}.

(** ** Decorations ([EngineDecoration] of [src/messages]) *)

Inductive EngineDecoration (Range : Type) :=
| TextDecoration (document : string) (message : string) (range : Range)
| RunGlyphDecoration (document : string) (range : Range)
    (hoverMessage : string).
Arguments TextDecoration {Range} document message range.
Arguments RunGlyphDecoration {Range} document range hoverMessage.

(** [ClientSchemaInfo] of [../utilities/graphql]. *)
Record ClientSchemaInfo := { localFields : option (list string) }.

Definition newline : string := String "010"%char EmptyString.

Section ClientProject.

(** *** The [graphql] package *)

(** [GraphQLSchema], with [schema.getDirectives().map(d => d.name)]. *)
Variable GraphQLSchema : Type.
Variable getDirectiveNames : GraphQLSchema → list string.

(** [extendSchema(schema, documentAST)]: a new schema, or a thrown error. *)
Variable extendSchema : GraphQLSchema → DocumentNode → Completion GraphQLSchema.

(** [schema.getType(name)] read at its [clientSchema] property ([None] when
    the schema has no such type), and the assignment [type.clientSchema = info]
    on the type object of that name. *)
Variable getTypeClientSchema :
  GraphQLSchema → string → option (option ClientSchemaInfo).
Variable setTypeClientSchema :
  GraphQLSchema → string → ClientSchemaInfo → GraphQLSchema.

(** [separateOperations(documentAST)]: one document per operation name. *)
Variable separateOperations : DocumentNode → JsObject.t DocumentNode.

(** What [TypeInfo] looks up in the schema while [visitWithTypeInfo] walks a
    document: the root object type of an operation, whether a named type is a
    composite type, and the named type of a field of a parent type when that
    named type is composite. *)
Variable rootTypeName : GraphQLSchema → OperationTypeNode → option string.
Variable isCompositeTypeName : GraphQLSchema → string → bool.
Variable fieldCompositeTypeName : GraphQLSchema → string → string → option string.

(** [print(ast)]. *)
Variable print : ExecutableDefinitionNode → string.

(** *** Other packages *)

(** [LZString.compressToEncodedURIComponent], [JSON.stringify({ document })],
    [stringifyUrl({ url, query })] of [query-string] and [join] of [path]. *)
Variable compressToEncodedURIComponent : string → string.
Variable stringifyDocumentObject : string → string.
Variable stringifyUrl : string → list (string * option string) → string.
Variable join : string → string → string.

(** *** Sibling modules of the repository *)

(** [apolloClientSchemaDocument.ast] of [./defaultClientSchema]: the parsed
    standard client-directive library, absent if it did not parse. *)
Variable apolloAst : option DocumentNode.

(** [removeDirectives], [removeDirectiveAnnotatedFields] and
    [withTypenameFieldAddedWhereNeeded] of [../utilities/graphql]. The name
    lists are passed as configured ([as string[]]), so possibly undefined:
    the first two helpers are declared for an array of names, and a call
    returns a document or throws (as on a list that is not there). *)
Variable removeDirectives :
  DocumentNode → option (list string) → Completion DocumentNode.
Variable removeDirectiveAnnotatedFields :
  DocumentNode → option (list string) → Completion DocumentNode.
Variable withTypenameFieldAddedWhereNeeded : DocumentNode → DocumentNode.

(** [Diagnostic] and [Range] of [vscode-languageserver], [ValidationRule],
    and [diagnosticsFromError(error, DiagnosticSeverity.Error, "Validation")],
    [collectExecutableDefinitionDiagnositics] of [../diagnostics]. *)
Variable Diagnostic : Type.
Variable Range : Type.
Variable ValidationRule : Type.
Variable diagnosticsFromError : GraphQLError → list Diagnostic.
Variable collectExecutableDefinitionDiagnositics :
  option GraphQLSchema → GraphQLDocument →
  JsObject.t FragmentDefinitionNode → option (list ValidationRule) →
  list Diagnostic.

(** [rangeForASTNode(node)] of [../utilities/source] reads [node.loc];
    [formatMS(ms, 0)] of [../format]. *)
Variable rangeForASTNode : option Location → Range.
Variable formatMS : Qc → nat → string.

(** Modelled from the spec: the class [DiagnosticSet] of [../diagnostics] is
    not part of the sources. Spec, data model: a mapping from source URI to
    an ordered sequence of diagnostics, append-only during one validation
    pass. [entries()] enumerates the URIs in the order they were first
    added. *)
Definition DiagnosticSet : Type := list (string * list Diagnostic).

Definition newDiagnosticSet : DiagnosticSet := [].

Fixpoint addDiagnostics (set : DiagnosticSet) (uri : string)
  (diagnostics : list Diagnostic) : DiagnosticSet :=
  match set with
  | [] => [(uri, diagnostics)]
  | (u, existing) :: set' =>
      if decide (u = uri) then (u, existing ++ diagnostics) :: set'
      else (u, existing) :: addDiagnostics set' uri diagnostics
  end.

Definition entries (set : DiagnosticSet) : list (string * list Diagnostic) :=
  set.

(** *** The state of a [GraphQLClientProject] *)

(** The fields of the class and of its base class [GraphQLProject] that the
    methods below read or assign. [onDiagnostics] and [onDecorations] tell
    whether a handler is registered; a latency of [None] is [null]; finite
    numbers are rationals. *)
Record GraphQLClientProject := {
  config : ClientConfig;
  serviceSchema : option GraphQLSchema;
  schema : option GraphQLSchema;
  documentsByFile : list (string * list GraphQLDocument);
  typeSystemDefinitionsAndExtensions : list DefinitionNode;
  fieldLatenciesMS : option (gmap string (gmap string (option Qc)));
  frontendUrlRoot : option string;
  validationRules : option (list ValidationRule);
  diagnosticSet : option DiagnosticSet;
  onDiagnostics : bool;
  onDecorations : bool;
}.

(** Modelled from the spec: the getter [documents] of the base class is not
    part of the sources. Spec, external interfaces: [documentsByFile] maps a
    URI to an ordered sequence of documents and [allDocuments] is the ordered
    sequence of the same. *)
Definition documents (project : GraphQLClientProject) : list GraphQLDocument :=
  flat_map snd (documentsByFile project).

(** What the methods do to the outside. *)
Inductive Effect :=
| DiagnosticsCallback (uri : string) (diagnostics : list Diagnostic)
| DecorationsCallback (decorations : list (EngineDecoration Range))
| ConsoleError (error : Exception).

(** ** Schema composer ([missingApolloClientDirectives], [clientSchema]) *)

(** Modelled from the spec: [isDirectiveDefinitionNode] of
    [../utilities/graphql] is not part of the sources. It is used as a type
    guard ([node is DirectiveDefinitionNode], the callers read [def.name] of
    what passes), and the spec's injection rule speaks of the directive names
    explicitly declared in the client extension document: it accepts the
    directive definitions. *)
Definition isDirectiveDefinitionNode (node : DefinitionNode) : bool :=
  match node with
  | DirectiveDefinition _ => true
  | _ => false
  end.

(** [def.name.value] on a node that passed the guard. *)
Definition directiveDefinitionNameValue (node : DefinitionNode) : list string :=
  match node with
  | DirectiveDefinition d => [directiveDefinition_name d]
  | _ => []
  end.

(** [defs.filter(isDirectiveDefinitionNode).map((def) => def.name.value)]. *)
Definition directiveNames (defs : list DefinitionNode) : list string :=
  flat_map directiveDefinitionNameValue (filter isDirectiveDefinitionNode defs).

(** [apolloDirectives.includes(existingDirective)]. *)
Definition includes (names : list string) (name : string) : bool :=
  bool_decide (name ∈ names).

Definition missingApolloClientDirectives (project : GraphQLClientProject)
  : list DefinitionNode :=
  let serviceDirectives :=
    match serviceSchema project with
    | Some serviceSchema => getDirectiveNames serviceSchema
    | None => []
    end in
  let clientDirectives :=
    directiveNames (typeSystemDefinitionsAndExtensions project) in
  let existingDirectives := serviceDirectives ++ clientDirectives in
  match apolloAst with
  | None => []
  | Some apolloAst =>
      let apolloDirectives := directiveNames (definitions apolloAst) in
      if existsb (includes apolloDirectives) existingDirectives then []
      else definitions apolloAst
  end.

Definition clientSchema (project : GraphQLClientProject) : DocumentNode :=
  {| definitions :=
       typeSystemDefinitionsAndExtensions project
       ++ missingApolloClientDirectives project |}.

(** ** Service-document projector *)

Definition mergedOperationsAndFragments (project : GraphQLClientProject)
  : Completion (JsObject.t DocumentNode) :=
  let fragments := fragments (documents project) in
  operations ← operations (documents project);
  mret (separateOperations
          {| definitions :=
               (FragmentDefinition <$> JsObject.values fragments)
               ++ (OperationDefinition <$> JsObject.values operations) |}).

(** [!names || !names.length]. *)
Definition notConfigured (names : option (list string)) : bool :=
  match names with
  | None => true
  | Some names => bool_decide (length names = 0)
  end.

(** [Boolean(definition)]: an AST node is an object, hence truthy. *)
Definition toBoolean (definition : DefinitionNode) : bool := true.

(** What the body of the [for..in] loop computes from
    [current[operationName]], or what a helper throws: [removeDirectives] is
    called first, [removeDirectiveAnnotatedFields] on its result. *)
Definition serviceOnlyDocument (config : ClientConfig) (document : DocumentNode)
  : Completion DocumentNode :=
  withoutDirectives ← removeDirectives document (clientOnlyDirectives config);
  serviceOnly ←
    removeDirectiveAnnotatedFields withoutDirectives
      (clientSchemaDirectives config);
  mret (if addTypename config
        then withTypenameFieldAddedWhereNeeded serviceOnly
        else serviceOnly).

(** One iteration of the [for..in] loop; an enumerated key is always an own
    property, so the lookup cannot miss. *)
Definition filterOperation (config : ClientConfig)
  (current : JsObject.t DocumentNode)
  (filtered : JsObject.t DocumentNode) (operationName : string)
  : Completion (JsObject.t DocumentNode) :=
  match JsObject.get current operationName with
  | Some document =>
      serviceOnly ← serviceOnlyDocument config document;
      mret (if bool_decide
                 (length (filter toBoolean (definitions serviceOnly)) ≠ 0)
            then JsObject.put filtered operationName serviceOnly
            else filtered)
  | None => mret filtered
  end.

(** The [for..in] loop over the keys of [current]: what a helper throws
    leaves the loop and the getter. *)
Fixpoint filterOperations (config : ClientConfig)
  (current : JsObject.t DocumentNode)
  (filtered : JsObject.t DocumentNode) (operationNames : list string)
  : Completion (JsObject.t DocumentNode) :=
  match operationNames with
  | [] => mret filtered
  | operationName :: operationNames =>
      filtered ← filterOperation config current filtered operationName;
      filterOperations config current filtered operationNames
  end.

Definition mergedOperationsAndFragmentsForService
  (project : GraphQLClientProject) : Completion (JsObject.t DocumentNode) :=
  current ← mergedOperationsAndFragments project;
  if notConfigured (clientOnlyDirectives (config project))
     && notConfigured (clientSchemaDirectives (config project))
  then mret current
  else
    filterOperations (config project) current JsObject.create
      (JsObject.keys current).

(** ** Decoration generator ([generateDecorations]) *)

(** [engineStatMS && engineStatMS > 1] on a number. *)
Definition exceedsThreshold (engineStatMS : Qc) : bool :=
  bool_decide (engineStatMS ≠ 0%Qc) && bool_decide (1 < engineStatMS)%Qc.

(** The [enter] callback on a node of kind ["Field"], with the value of
    [typeInfo.getParentType()] (its name, when there is a parent type). A
    field that fails the first test falls through to the [else if], which a
    field never passes. *)
Definition enterField (project : GraphQLClientProject) (uri : string)
  (parentType : option string) (loc : option Location) (name : string)
  : list (EngineDecoration Range) :=
  match parentType, fieldLatenciesMS project with
  | Some parentName, Some fieldLatenciesMS =>
      let parentEngineStatMS := fieldLatenciesMS !! parentName in
      let engineStatMS :=
        match parentEngineStatMS with
        | Some parentEngineStatMS => parentEngineStatMS !! name
        | None => None
        end in
      match engineStatMS with
      | Some (Some engineStatMS) =>
          if exceedsThreshold engineStatMS
          then [TextDecoration uri ("~" ++ formatMS engineStatMS 0)
                  (rangeForASTNode loc)]
          else []
      | _ => []
      end
  | _, _ => []
  end.

(** The walk of [visitWithTypeInfo] below a selection set whose parent type
    is [parentType]: the decorations pushed while entering the nodes of a
    selection, in the order of the visit. *)
Fixpoint enterSelection (typeInfoSchema : GraphQLSchema)
  (project : GraphQLClientProject) (uri : string)
  (parentType : option string) (selection : SelectionNode)
  : list (EngineDecoration Range) :=
  match selection with
  | Field loc _ name _ selections =>
      enterField project uri parentType loc name
      ++ flat_map
           (enterSelection typeInfoSchema project uri
              (parentType ≫= λ parentName,
                 fieldCompositeTypeName typeInfoSchema parentName name))
           selections
  | FragmentSpread _ _ _ => []
  | InlineFragment _ typeCondition _ selections =>
      flat_map
        (enterSelection typeInfoSchema project uri
           (match typeCondition with
            | Some typeName =>
                if isCompositeTypeName typeInfoSchema typeName
                then Some typeName else None
            | None => parentType
            end))
        selections
  end.

(** The [enter] callback on a node of kind ["OperationDefinition"]. *)
Definition enterOperationDefinition (project : GraphQLClientProject)
  (uri : string) (node : OperationDefinitionNode) : EngineDecoration Range :=
  let operationWithFragments :=
    getOperationWithFragments (documents project) node in
  let document :=
    String.concat (newline ++ newline) (print <$> operationWithFragments) in
  let explorerURLState :=
    compressToEncodedURIComponent (stringifyDocumentObject document) in
  let frontendUrlRoot :=
    default "https://studio.apollographql.com" (frontendUrlRoot project) in
  let variant := variant (config project) in
  let graphId := graph (config project) in
  let endpoint :=
    match client_service (config project) with
    | Some (RemoteServiceConfig url) => Some url
    | _ => service_endpoint_url (config project)
    end in
  let sandboxPath :=
    stringifyUrl "/sandbox/explorer"
      [("endpoint", endpoint);
       ("explorerURLState", Some explorerURLState);
       ("referrer", Some "vscode")] in
  let runInExplorerPath :=
    match graphId with
    | Some graphId =>
        if decide (graphId = "") then sandboxPath
        else
          stringifyUrl ("/graph/" ++ graphId ++ "/explorer")
            [("variant", Some variant);
             ("explorerURLState", Some explorerURLState);
             ("referrer", Some "vscode")]
    | None => sandboxPath
    end in
  let runInExplorerLink := join frontendUrlRoot runInExplorerPath in
  RunGlyphDecoration uri (rangeForASTNode (operation_loc node))
    ("[Run in Studio](" ++ runInExplorerLink ++ ")").

(** The walk over one definition of a document. *)
Definition enterDefinition (typeInfoSchema : GraphQLSchema)
  (project : GraphQLClientProject) (uri : string) (definition : DefinitionNode)
  : list (EngineDecoration Range) :=
  match definition with
  | OperationDefinition node =>
      enterOperationDefinition project uri node
      :: flat_map
           (enterSelection typeInfoSchema project uri
              (rootTypeName typeInfoSchema (operation node)))
           (operation_selectionSet node)
  | FragmentDefinition node =>
      flat_map
        (enterSelection typeInfoSchema project uri
           (if isCompositeTypeName typeInfoSchema (fragment_typeCondition node)
            then Some (fragment_typeCondition node) else None))
        (fragment_selectionSet node)
  | _ => []
  end.

Definition decorationsOfDocument (typeInfoSchema : GraphQLSchema)
  (project : GraphQLClientProject) (uri : string)
  (queryDocument : GraphQLDocument) : list (EngineDecoration Range) :=
  match ast queryDocument with
  | Some ast => flat_map (enterDefinition typeInfoSchema project uri)
                  (definitions ast)
  | None => []
  end.

Definition decorationsOfFile (typeInfoSchema : GraphQLSchema)
  (project : GraphQLClientProject)
  (file : string * list GraphQLDocument) : list (EngineDecoration Range) :=
  flat_map (decorationsOfDocument typeInfoSchema project file.1) file.2.

Definition generateDecorations (project : GraphQLClientProject) : list Effect :=
  if negb (onDecorations project) then []
  else
    match schema project with
    | None => []
    | Some typeInfoSchema =>
        [DecorationsCallback
           (flat_map (decorationsOfFile typeInfoSchema project)
              (documentsByFile project))]
    end.

(** ** Validation pass ([addClientMetadataToSchemaNodes], [validate]) *)

(** [this.schema = schema] and [this.diagnosticSet = diagnosticSet]. *)
Definition assignSchema (project : GraphQLClientProject)
  (newSchema : option GraphQLSchema) : GraphQLClientProject :=
  {| config := config project;
     serviceSchema := serviceSchema project;
     schema := newSchema;
     documentsByFile := documentsByFile project;
     typeSystemDefinitionsAndExtensions :=
       typeSystemDefinitionsAndExtensions project;
     fieldLatenciesMS := fieldLatenciesMS project;
     frontendUrlRoot := frontendUrlRoot project;
     validationRules := validationRules project;
     diagnosticSet := diagnosticSet project;
     onDiagnostics := onDiagnostics project;
     onDecorations := onDecorations project |}.

Definition assignDiagnosticSet (project : GraphQLClientProject)
  (newDiagnosticSet : option DiagnosticSet) : GraphQLClientProject :=
  {| config := config project;
     serviceSchema := serviceSchema project;
     schema := schema project;
     documentsByFile := documentsByFile project;
     typeSystemDefinitionsAndExtensions :=
       typeSystemDefinitionsAndExtensions project;
     fieldLatenciesMS := fieldLatenciesMS project;
     frontendUrlRoot := frontendUrlRoot project;
     validationRules := validationRules project;
     diagnosticSet := newDiagnosticSet;
     onDiagnostics := onDiagnostics project;
     onDecorations := onDecorations project |}.

(** The [ObjectTypeExtension] visitor: it updates the type object in place. *)
Definition visitObjectTypeExtension (composed : GraphQLSchema)
  (definition : DefinitionNode) : GraphQLSchema :=
  match definition with
  | ObjectTypeExtension node =>
      match objectTypeExtension_fields node,
            getTypeClientSchema composed (objectTypeExtension_name node) with
      | Some fields, Some typeClientSchema =>
          let localInfo := default {| localFields := None |} typeClientSchema in
          setTypeClientSchema composed (objectTypeExtension_name node)
            {| localFields :=
                 Some (default [] (localFields localInfo) ++ fields) |}
      | _, _ => composed
      end
  | _ => composed
  end.

Definition addClientMetadataToSchemaNodes (project : GraphQLClientProject)
  : GraphQLClientProject :=
  match schema project, serviceSchema project with
  | Some composed, Some _ =>
      assignSchema project
        (Some (foldl visitObjectTypeExtension composed
                 (definitions (clientSchema project))))
  | _, _ => project
  end.

(** [error.source && error.source.name], when truthy. *)
Definition errorUri (error : GraphQLError) : option string :=
  match error_source error with
  | Some source =>
      if decide (source_name source = "") then None
      else Some (source_name source)
  | None => None
  end.

(** The [try { ... } catch (error) { ... }] statement of [validate]. *)
Definition composeOrFallBack (project : GraphQLClientProject)
  (service : GraphQLSchema) (diagnostics : DiagnosticSet)
  : GraphQLClientProject * DiagnosticSet * list Effect :=
  match extendSchema service (clientSchema project) with
  | Normal composed =>
      (addClientMetadataToSchemaNodes (assignSchema project (Some composed)),
       diagnostics, [])
  | Throw (ThrownGraphQLError error) =>
      (assignSchema project (Some service),
       match errorUri error with
       | Some uri => addDiagnostics diagnostics uri (diagnosticsFromError error)
       | None => diagnostics
       end,
       [])
  | Throw error =>
      (assignSchema project (Some service), diagnostics, [ConsoleError error])
  end.

(** The loops over [this.documentsByFile]. *)
Definition validateFile (project : GraphQLClientProject)
  (fragments : JsObject.t FragmentDefinitionNode)
  (diagnostics : DiagnosticSet) (file : string * list GraphQLDocument)
  : DiagnosticSet :=
  foldl
    (λ diagnostics document,
       addDiagnostics diagnostics file.1
         (collectExecutableDefinitionDiagnositics (schema project) document
            fragments (validationRules project)))
    diagnostics file.2.

Definition validateDocuments (project : GraphQLClientProject)
  (fragments : JsObject.t FragmentDefinitionNode)
  (diagnostics : DiagnosticSet) : DiagnosticSet :=
  foldl (validateFile project fragments) diagnostics (documentsByFile project).

Definition diagnosticsCallbacks (diagnostics : DiagnosticSet) : list Effect :=
  (λ entry, DiagnosticsCallback entry.1 entry.2) <$> entries diagnostics.

Definition validate (project : GraphQLClientProject)
  : GraphQLClientProject * list Effect :=
  if negb (onDiagnostics project) then (project, [])
  else
    match serviceSchema project with
    | None => (project, [])
    | Some service =>
        let '(composed, diagnostics, logged) :=
          composeOrFallBack project service newDiagnosticSet in
        let fragments := fragments (documents composed) in
        let diagnostics := validateDocuments composed fragments diagnostics in
        let validated := assignDiagnosticSet composed (Some diagnostics) in
        (validated,
         logged ++ diagnosticsCallbacks diagnostics
           ++ generateDecorations validated)
    end.

(** ** Project statistics ([getProjectStats]) *)

Section ProjectStatistics.

(** [Object.keys(schema.getTypeMap())]. *)
Variable getTypeMapKeys : GraphQLSchema → list string.

(** [serviceID] is what the constructor assigned, [config.graph];
    [lastLoadDate] is a field of the base class. *)
Definition getProjectStats (project : GraphQLClientProject)
  (lastLoadDate : option Z) : ProjectStats :=
  let serviceTypes :=
    match serviceSchema project with
    | Some serviceSchema =>
        Z.of_nat
          (length (filter (λ type, filterTypes type)
                     (getTypeMapKeys serviceSchema)))
    | None => 0%Z
    end in
  let totalTypes :=
    match schema project with
    | Some schema =>
        Z.of_nat
          (length (filter (λ type, filterTypes type) (getTypeMapKeys schema)))
    | None => 0%Z
    end in
  {| stats_type := "client";
     stats_serviceId := graph (config project);
     stats_types :=
       {| types_service := serviceTypes;
          types_client := (totalTypes - serviceTypes)%Z;
          types_total := totalTypes |};
     stats_tag := variant (config project);
     stats_loaded :=
       match schema project with
       | Some _ => true
       | None => bool_decide (is_Some (serviceSchema project))
       end;
     stats_lastFetch := lastLoadDate |}.

End ProjectStatistics.

(** ** Loading the service schema ([loadServiceSchema]) *)

Section ServiceSchema.

(** [schema.getQueryType()] and whether the type has an [astNode];
    [printSchema]; [buildSchema(new Source(body, name))], which throws on a
    source it cannot build a schema from; [encodeURIComponent]. *)
Variable GraphQLObjectType : Type.
Variable getQueryType : GraphQLSchema → option GraphQLObjectType.
Variable hasAstNode : GraphQLObjectType → bool.
Variable printSchema : GraphQLSchema → string.
Variable buildSchema : string → string → Completion GraphQLSchema.
Variable encodeURIComponent : string → string.

(** [this.schemaProvider.resolveSchema({ tag, force })], awaited: the schema
    the promise resolves to, or what it is rejected with. *)
Variable resolveSchema : string → bool → Completion GraphQLSchema.

Definition schemaHasASTNodes (schema : GraphQLSchema) : bool :=
  match getQueryType schema with
  | Some queryType => hasAstNode queryType
  | None => false
  end.

Definition augmentSchemaWithGeneratedSDLIfNeeded (schema : GraphQLSchema)
  : Completion GraphQLSchema :=
  if schemaHasASTNodes schema then Normal schema
  else
    let sdl := printSchema schema in
    buildSchema sdl
      ("graphql-schema:/schema.graphql?" ++ encodeURIComponent sdl).

Definition assignServiceSchema (project : GraphQLClientProject)
  (newSchema : option GraphQLSchema) : GraphQLClientProject :=
  {| config := config project;
     serviceSchema := newSchema;
     schema := schema project;
     documentsByFile := documentsByFile project;
     typeSystemDefinitionsAndExtensions :=
       typeSystemDefinitionsAndExtensions project;
     fieldLatenciesMS := fieldLatenciesMS project;
     frontendUrlRoot := frontendUrlRoot project;
     validationRules := validationRules project;
     diagnosticSet := diagnosticSet project;
     onDiagnostics := onDiagnostics project;
     onDecorations := onDecorations project |}.

(** Modelled from the spec: the type [SchemaTag] is not part of the sources.
    Spec, external interfaces: [variant] is a schema tag, so a tag is a
    string. [tag || this.config.variant] takes the variant for an absent or
    empty tag. *)
Definition tagOrVariant (project : GraphQLClientProject) (tag : option string)
  : string :=
  match tag with
  | Some tag => if decide (tag = "") then variant (config project) else tag
  | None => variant (config project)
  end.

(** The asynchronous function that [loadServiceSchema] hands to the loading
    handler: the state it leaves, and what its promise is rejected with, if
    it is. *)
Definition loadServiceSchema (project : GraphQLClientProject)
  (tag : option string) : GraphQLClientProject * option Exception :=
  match resolveSchema (tagOrVariant project tag) true with
  | Throw error => (project, Some error)
  | Normal resolved =>
      match augmentSchemaWithGeneratedSDLIfNeeded resolved with
      | Throw error => (project, Some error)
      | Normal service =>
          let project := assignServiceSchema project (Some service) in
          match extendSchema service (clientSchema project) with
          | Throw error => (project, Some error)
          | Normal composed => (assignSchema project (Some composed), None)
          end
      end
  end.

End ServiceSchema.

(** ** Engine data ([loadEngineData]) *)

(** Modelled from the spec: the engine client of the base class is not part
    of the sources. Spec, external interfaces:
    [loadSchemaTagsAndFieldLatencies(serviceId)] gives the schema tags and
    the field latencies, [loadFrontendUrlRoot()] the frontend URL root. Here
    the two requests are awaited: what each resolves to, or what it is
    rejected with. *)
Record EngineClient := {
  loadSchemaTagsAndFieldLatencies :
    string →
    Completion (list string * gmap string (gmap string (option Qc)));
  loadFrontendUrlRoot : Completion (option string);
}.

(** What [loadEngineData] does to the outside: the [_onSchemaTags] handler
    called with [[serviceID, schemaTags]], or an effect of the methods
    above. *)
Inductive EngineEffect :=
| SchemaTagsCallback (serviceID : string) (schemaTags : list string)
| ProjectEffect (effect : Effect).

Definition assignFieldLatenciesMS (project : GraphQLClientProject)
  (newLatencies : option (gmap string (gmap string (option Qc))))
  : GraphQLClientProject :=
  {| config := config project;
     serviceSchema := serviceSchema project;
     schema := schema project;
     documentsByFile := documentsByFile project;
     typeSystemDefinitionsAndExtensions :=
       typeSystemDefinitionsAndExtensions project;
     fieldLatenciesMS := newLatencies;
     frontendUrlRoot := frontendUrlRoot project;
     validationRules := validationRules project;
     diagnosticSet := diagnosticSet project;
     onDiagnostics := onDiagnostics project;
     onDecorations := onDecorations project |}.

Definition assignFrontendUrlRoot (project : GraphQLClientProject)
  (newRoot : option string) : GraphQLClientProject :=
  {| config := config project;
     serviceSchema := serviceSchema project;
     schema := schema project;
     documentsByFile := documentsByFile project;
     typeSystemDefinitionsAndExtensions :=
       typeSystemDefinitionsAndExtensions project;
     fieldLatenciesMS := fieldLatenciesMS project;
     frontendUrlRoot := newRoot;
     validationRules := validationRules project;
     diagnosticSet := diagnosticSet project;
     onDiagnostics := onDiagnostics project;
     onDecorations := onDecorations project |}.

(** The statements of the [try] block before the request for the frontend
    URL root: the project and the calls of the schema tags handler, or what
    was thrown. [serviceID] is [config.graph]. *)
Definition loadLatencies (project : GraphQLClientProject)
  (engineClient : EngineClient) (onSchemaTags : bool)
  : Completion (GraphQLClientProject * list EngineEffect) :=
  match graph (config project) with
  | Some serviceID =>
      if decide (serviceID = "") then Normal (project, [])
      else
        match loadSchemaTagsAndFieldLatencies engineClient serviceID with
        | Throw error => Throw error
        | Normal (schemaTags, fieldLatenciesMS) =>
            Normal
              (assignFieldLatenciesMS project (Some fieldLatenciesMS),
               if onSchemaTags
               then [SchemaTagsCallback serviceID schemaTags] else [])
        end
  | None => Normal (project, [])
  end.

(** [loadEngineData], with the asynchronous function it hands to the loading
    handler: the project, the field [lastLoadDate] of the base class and the
    effects. [onSchemaTags] tells whether a handler is registered, [now] is
    [+new Date()]. *)
Definition loadEngineData (project : GraphQLClientProject)
  (engineClient : option EngineClient) (onSchemaTags : bool)
  (lastLoadDate : option Z) (now : Z)
  : GraphQLClientProject * option Z * list EngineEffect :=
  match engineClient with
  | None => (project, lastLoadDate, [])
  | Some engineClient =>
      match loadLatencies project engineClient onSchemaTags with
      | Throw error =>
          (project, lastLoadDate, [ProjectEffect (ConsoleError error)])
      | Normal (project, notified) =>
          match loadFrontendUrlRoot engineClient with
          | Throw error =>
              (project, lastLoadDate,
               notified ++ [ProjectEffect (ConsoleError error)])
          | Normal frontendUrlRoot =>
              let project := assignFrontendUrlRoot project frontendUrlRoot in
              (project, Some now,
               notified ++ (ProjectEffect <$> generateDecorations project))
          end
      end
  end.

(** ** Fields of a field definition ([getOperationFieldsFromFieldDefinition]) *)

(** The [Field] callback, with the value of [typeInfo.getParentType()] (its
    name, when there is a parent type). *)
Definition visitField (fieldName : string) (parent : ObjectTypeDefinitionNode)
  (parentType : option string) (node : SelectionNode) : list SelectionNode :=
  match node with
  | Field _ _ name _ _ =>
      if decide (name ≠ fieldName) then []
      else
        match parentType with
        | Some parentName =>
            if decide (parentName = objectTypeDefinition_name parent)
            then [node] else []
        | None => []
        end
  | _ => []
  end.

(** The walk of [visitWithTypeInfo] below a selection set whose parent type
    is [parentType]: the fields pushed, in the order of the visit. *)
Fixpoint operationFieldsOfSelection (typeInfoSchema : GraphQLSchema)
  (fieldName : string) (parent : ObjectTypeDefinitionNode)
  (parentType : option string) (selection : SelectionNode)
  : list SelectionNode :=
  match selection with
  | Field _ _ name _ selections =>
      visitField fieldName parent parentType selection
      ++ flat_map
           (operationFieldsOfSelection typeInfoSchema fieldName parent
              (parentType ≫= λ parentName,
                 fieldCompositeTypeName typeInfoSchema parentName name))
           selections
  | FragmentSpread _ _ _ => []
  | InlineFragment _ typeCondition _ selections =>
      flat_map
        (operationFieldsOfSelection typeInfoSchema fieldName parent
           (match typeCondition with
            | Some typeName =>
                if isCompositeTypeName typeInfoSchema typeName
                then Some typeName else None
            | None => parentType
            end))
        selections
  end.

Definition operationFieldsOfDefinition (typeInfoSchema : GraphQLSchema)
  (fieldName : string) (parent : ObjectTypeDefinitionNode)
  (definition : DefinitionNode) : list SelectionNode :=
  match definition with
  | OperationDefinition node =>
      flat_map
        (operationFieldsOfSelection typeInfoSchema fieldName parent
           (rootTypeName typeInfoSchema (operation node)))
        (operation_selectionSet node)
  | FragmentDefinition node =>
      flat_map
        (operationFieldsOfSelection typeInfoSchema fieldName parent
           (if isCompositeTypeName typeInfoSchema (fragment_typeCondition node)
            then Some (fragment_typeCondition node) else None))
        (fragment_selectionSet node)
  | _ => []
  end.

Definition getOperationFieldsFromFieldDefinition
  (project : GraphQLClientProject) (fieldName : string)
  (parent : option ObjectTypeDefinitionNode) : list SelectionNode :=
  match schema project, parent with
  | Some typeInfoSchema, Some parent =>
      flat_map
        (λ document,
           match ast document with
           | Some ast =>
               flat_map
                 (operationFieldsOfDefinition typeInfoSchema fieldName parent)
                 (definitions ast)
           | None => []
           end)
        (documents project)
  | _, _ => []
  end.

(** ** Vocabulary of the properties *)

(** The definitions of a snapshot in the order in which the registry getters
    scan them: document by document, skipping documents without an AST. *)
Definition scannedDefinitions (documents : list GraphQLDocument)
  : list DefinitionNode :=
  flat_map (λ document,
              match ast document with
              | Some a => definitions a
              | None => []
              end) documents.

Definition asFragmentDefinition (definition : DefinitionNode)
  : option FragmentDefinitionNode :=
  match definition with
  | FragmentDefinition f => Some f
  | _ => None
  end.

Definition asOperationDefinition (definition : DefinitionNode)
  : option OperationDefinitionNode :=
  match definition with
  | OperationDefinition o => Some o
  | _ => None
  end.

Definition scannedFragments (documents : list GraphQLDocument)
  : list FragmentDefinitionNode :=
  omap asFragmentDefinition (scannedDefinitions documents).

Definition scannedOperations (documents : list GraphQLDocument)
  : list OperationDefinitionNode :=
  omap asOperationDefinition (scannedDefinitions documents).

(** The fragments, resp. operations, of a snapshot registered under a name,
    and its anonymous operations, in scan order. *)
Definition fragmentsNamed (name : string) (documents : list GraphQLDocument)
  : list FragmentDefinitionNode :=
  filter (λ f, fragment_name f = name) (scannedFragments documents).

Definition operationsNamed (name : string) (documents : list GraphQLDocument)
  : list OperationDefinitionNode :=
  filter (λ o, operation_name o = Some name) (scannedOperations documents).

Definition anonymousOperations (documents : list GraphQLDocument)
  : list OperationDefinitionNode :=
  filter (λ o, operation_name o = None) (scannedOperations documents).

(** The error the [operations] getter throws for an anonymous operation. *)
Definition anonymousOperationError (o : OperationDefinitionNode) : Exception :=
  ThrownGraphQLError
    (newGraphQLError anonymousOperationMessage [OperationDefinition o]).

(** A snapshot with the non-fragment definitions of every document removed. *)
Definition onlyFragmentDefinitions (document : GraphQLDocument)
  : GraphQLDocument :=
  {| ast := (λ a, {| definitions :=
                       filter (λ d, is_Some (asFragmentDefinition d))
                         (definitions a) |}) <$> ast document |}.

(** The names of a list in the order of their first occurrence, leaving out
    the names in [seen]. *)
Fixpoint firstOccurrences (seen : gset string) (names : list string)
  : list string :=
  match names with
  | [] => []
  | name :: names =>
      if decide (name ∈ seen) then firstOccurrences seen names
      else name :: firstOccurrences ({[name]} ∪ seen) names
  end.

(** The fragments registered under a list of keys. *)
Definition registeredFragments (fragments : JsObject.t FragmentDefinitionNode)
  (keys : list string) : list ExecutableDefinitionNode :=
  ExecutableFragment <$> omap (JsObject.get fragments) keys.

(** Every key of the list is the name of a spread of a definition that comes
    before it in [root :: registeredFragments fragments keys]. *)
Definition discoveredInOrder (fragments : JsObject.t FragmentDefinitionNode)
  (root : ExecutableDefinitionNode) (keys : list string) : Prop :=
  ∀ i key, keys !! i = Some key →
    ∃ definition,
      definition ∈ root :: registeredFragments fragments (take i keys)
      ∧ key ∈ fragmentSpreads definition.

(** The directive names the composer compares with the standard library. *)
Definition existingDirectives (project : GraphQLClientProject) : list string :=
  match serviceSchema project with
  | Some serviceSchema => getDirectiveNames serviceSchema
  | None => []
  end
  ++ directiveNames (typeSystemDefinitionsAndExtensions project).

(** The definitions of the standard client-directive library document. *)
Definition standardLibrary : list DefinitionNode :=
  match apolloAst with
  | Some a => definitions a
  | None => []
  end.

(** The diagnostics a set holds for a URI. *)
Fixpoint diagnosticsOf (set : DiagnosticSet) (uri : string) : list Diagnostic :=
  match set with
  | [] => []
  | (u, diagnostics) :: set' =>
      if decide (u = uri) then diagnostics else diagnosticsOf set' uri
  end.

(** The field nodes [visitWithTypeInfo] enters below a selection set, each
    with the parent type [TypeInfo] reports at that moment. *)
Record FieldVisit := {
  visit_parentType : option string;
  visit_loc : option Location;
  visit_name : string;
}.

Fixpoint fieldVisitsOfSelection (typeInfoSchema : GraphQLSchema)
  (parentType : option string) (selection : SelectionNode) : list FieldVisit :=
  match selection with
  | Field loc _ name _ selections =>
      {| visit_parentType := parentType; visit_loc := loc; visit_name := name |}
      :: flat_map
           (fieldVisitsOfSelection typeInfoSchema
              (parentType ≫= λ parentName,
                 fieldCompositeTypeName typeInfoSchema parentName name))
           selections
  | FragmentSpread _ _ _ => []
  | InlineFragment _ typeCondition _ selections =>
      flat_map
        (fieldVisitsOfSelection typeInfoSchema
           (match typeCondition with
            | Some typeName =>
                if isCompositeTypeName typeInfoSchema typeName
                then Some typeName else None
            | None => parentType
            end))
        selections
  end.

Definition fieldVisitsOfDefinition (typeInfoSchema : GraphQLSchema)
  (definition : DefinitionNode) : list FieldVisit :=
  match definition with
  | OperationDefinition node =>
      flat_map
        (fieldVisitsOfSelection typeInfoSchema
           (rootTypeName typeInfoSchema (operation node)))
        (operation_selectionSet node)
  | FragmentDefinition node =>
      flat_map
        (fieldVisitsOfSelection typeInfoSchema
           (if isCompositeTypeName typeInfoSchema (fragment_typeCondition node)
            then Some (fragment_typeCondition node) else None))
        (fragment_selectionSet node)
  | _ => []
  end.

Definition fieldVisitsOfDocument (typeInfoSchema : GraphQLSchema)
  (document : GraphQLDocument) : list FieldVisit :=
  match ast document with
  | Some a => flat_map (fieldVisitsOfDefinition typeInfoSchema) (definitions a)
  | None => []
  end.

(** The field visits of a decoration pass, each with the URI of its file, in
    the order of the pass. *)
Definition fieldVisits (typeInfoSchema : GraphQLSchema)
  (project : GraphQLClientProject) : list (string * FieldVisit) :=
  flat_map
    (λ file,
       (λ v, (file.1, v))
       <$> flat_map (fieldVisitsOfDocument typeInfoSchema) file.2)
    (documentsByFile project).

(** The selections of the text, each with the parent type in force where
    it is written: the type the schema gives the enclosing field or type
    condition, if it is a composite type. *)
Fixpoint typedSelectionsInText (typeInfoSchema : GraphQLSchema)
  (parentType : option string) (selection : SelectionNode)
  : list (option string * SelectionNode) :=
  (parentType, selection)
  :: match selection with
     | Field _ _ name _ selections =>
         flat_map
           (typedSelectionsInText typeInfoSchema
              (parentType ≫= λ parentName,
                 fieldCompositeTypeName typeInfoSchema parentName name))
           selections
     | FragmentSpread _ _ _ => []
     | InlineFragment _ typeCondition _ selections =>
         flat_map
           (typedSelectionsInText typeInfoSchema
              (match typeCondition with
               | Some typeName =>
                   if isCompositeTypeName typeInfoSchema typeName
                   then Some typeName else None
               | None => parentType
               end))
           selections
     end.

Definition typedSelectionsOfDefinition (typeInfoSchema : GraphQLSchema)
  (definition : DefinitionNode) : list (option string * SelectionNode) :=
  match definition with
  | OperationDefinition node =>
      flat_map
        (typedSelectionsInText typeInfoSchema
           (rootTypeName typeInfoSchema (operation node)))
        (operation_selectionSet node)
  | FragmentDefinition node =>
      flat_map
        (typedSelectionsInText typeInfoSchema
           (if isCompositeTypeName typeInfoSchema (fragment_typeCondition node)
            then Some (fragment_typeCondition node) else None))
        (fragment_selectionSet node)
  | _ => []
  end.

Definition typedSelectionsOfDocument (typeInfoSchema : GraphQLSchema)
  (document : GraphQLDocument) : list (option string * SelectionNode) :=
  match ast document with
  | Some a =>
      flat_map (typedSelectionsOfDefinition typeInfoSchema) (definitions a)
  | None => []
  end.

(** The name of a selection that is a field. *)
Definition fieldNameOf (selection : SelectionNode) : option string :=
  match selection with
  | Field _ _ name _ _ => Some name
  | _ => None
  end.

(** The visit of a selection that is a field. *)
Definition visitOf (typed : option string * SelectionNode)
  : option FieldVisit :=
  match typed.2 with
  | Field loc _ name _ _ =>
      Some {| visit_parentType := typed.1; visit_loc := loc;
              visit_name := name |}
  | _ => None
  end.

(** The latency sample recorded for a field of a parent type. *)
Definition latencySample (project : GraphQLClientProject)
  (parentName fieldName : string) : option Qc :=
  stats ← fieldLatenciesMS project;
  parentStats ← stats !! parentName;
  mjoin (parentStats !! fieldName).

Definition isTextDecoration (decoration : EngineDecoration Range) : bool :=
  match decoration with
  | TextDecoration _ _ _ => true
  | RunGlyphDecoration _ _ _ => false
  end.

(** The URI a diagnostics callback is invoked with. *)
Definition callbackUri (effect : Effect) : option string :=
  match effect with
  | DiagnosticsCallback uri _ => Some uri
  | _ => None
  end.

(** The field lists of the extensions of an object type among the
    definitions of a document, in the order of the document; an extension
    without a field list has none. *)
Definition extensionFields (typeName : string)
  (definitions : list DefinitionNode) : list (list string) :=
  flat_map
    (λ definition,
       match definition with
       | ObjectTypeExtension node =>
           if decide (objectTypeExtension_name node = typeName)
           then option_list (objectTypeExtension_fields node)
           else []
       | _ => []
       end)
    definitions.

(** The local fields recorded in the client metadata of a type. *)
Definition localFieldsOf (info : option ClientSchemaInfo) : list string :=
  default [] (info ≫= localFields).

(** A fragment of the registry is reachable from a definition when a chain
    of spreads of registered names leads from the definition to it. *)
Inductive reachable (fragments : JsObject.t FragmentDefinitionNode)
  (root : ExecutableDefinitionNode) : FragmentDefinitionNode → Prop :=
| reachable_spread (f : FragmentDefinitionNode) :
    fragment_name f ∈ fragmentSpreads root →
    JsObject.get fragments (fragment_name f) = Some f →
    reachable fragments root f
| reachable_step (g f : FragmentDefinitionNode) :
    reachable fragments root g →
    fragment_name f ∈ fragmentSpreads (ExecutableFragment g) →
    JsObject.get fragments (fragment_name f) = Some f →
    reachable fragments root f.

(** The selections of the text: a selection, followed by the selections
    below it in the order in which they are written. *)
Fixpoint selectionsInText (selection : SelectionNode) : list SelectionNode :=
  selection
  :: match selection with
     | Field _ _ _ _ selections => flat_map selectionsInText selections
     | FragmentSpread _ _ _ => []
     | InlineFragment _ _ _ selections => flat_map selectionsInText selections
     end.

(** A selection that is a fragment spread. *)
Definition spreadOf (selection : SelectionNode) : option FragmentSpreadNode :=
  match selection with
  | FragmentSpread loc name directives =>
      Some {| spread_loc := loc; spread_name := name;
              spread_directives := directives |}
  | _ => None
  end.

(** The fragment spreads written in a definition, at any depth, in the order
    of the text; and their names. *)
Definition spreadsInText (definition : ExecutableDefinitionNode)
  : list FragmentSpreadNode :=
  omap spreadOf (flat_map selectionsInText (selectionSetOf definition)).

Definition spreadNamesInText (definition : ExecutableDefinitionNode)
  : list string :=
  spread_name <$> spreadsInText definition.

(** A definition of a document that is an operation or a fragment. *)
Definition executableOf (definition : DefinitionNode)
  : option ExecutableDefinitionNode :=
  match definition with
  | OperationDefinition o => Some (ExecutableOperation o)
  | FragmentDefinition f => Some (ExecutableFragment f)
  | _ => None
  end.

(** The names spread by a definition of a document. *)
Definition spreadNamesOfDefinition (definition : DefinitionNode) : list string :=
  match definition with
  | OperationDefinition o => fragmentSpreads (ExecutableOperation o)
  | FragmentDefinition f => fragmentSpreads (ExecutableFragment f)
  | _ => []
  end.

(** * Properties *)

(** [set_solver] and [naive_solver] take every hypothesis that is an arrow
    for an implication; the functions the section assumes are none. *)
Ltac clear_functions :=
  repeat match goal with
         | f : ?T |- _ =>
             lazymatch type of T with
             | Prop => fail
             | _ => lazymatch T with _ → _ => clear f end
             end
         end.

(** ** Objects *)

Lemma get_put_eq {A : Type} (o : JsObject.t A) (key : string) (value : A) :
  JsObject.get (JsObject.put o key value) key = Some value.
Proof.
  induction o as [|[k v] o IH]; simpl.
  - by rewrite decide_True.
  - destruct (decide (k = key)) as [->|Hne]; simpl.
    + by rewrite decide_True.
    + by rewrite decide_False.
Qed.

Lemma get_put_ne {A : Type} (o : JsObject.t A) (key key' : string) (value : A) :
  key ≠ key' →
  JsObject.get (JsObject.put o key value) key' = JsObject.get o key'.
Proof.
  intros Hne. induction o as [|[k v] o IH]; simpl.
  - by rewrite decide_False.
  - destruct (decide (k = key)) as [->|Hk]; simpl.
    + by rewrite !decide_False.
    + destruct (decide (k = key')); [done|apply IH].
Qed.

Lemma get_Some_keys {A : Type} (o : JsObject.t A) (key : string) (value : A) :
  JsObject.get o key = Some value → key ∈ JsObject.keys o.
Proof.
  induction o as [|[k v] o IH]; simpl; [done|].
  destruct (decide (k = key)) as [->|Hk]; intros Hget.
  - left.
  - right. by apply IH.
Qed.

(** ** C1: the standard client directives are injected all or nothing *)

Lemma directiveNames_elem_of (defs : list DefinitionNode) (name : string) :
  name ∈ directiveNames defs ↔
  ∃ d, DirectiveDefinition d ∈ defs ∧ directiveDefinition_name d = name.
Proof.
  unfold directiveNames. rewrite list_elem_of_In, in_flat_map. split.
  - intros (def & Hin & Hname). apply list_elem_of_In in Hin, Hname.
    apply list_elem_of_filter in Hin as [_ Hin].
    destruct def as [op|f|d|ext|k n]; simpl in Hname; try by apply elem_of_nil in Hname.
    apply list_elem_of_singleton in Hname. by exists d.
  - intros (d & Hin & Hname). exists (DirectiveDefinition d).
    rewrite <- !list_elem_of_In. split.
    + by apply list_elem_of_filter.
    + simpl. rewrite Hname. left.
Qed.

Lemma overlap_true (library existing : list string) :
  existsb (includes library) existing = true ↔
  ∃ name, name ∈ existing ∧ name ∈ library.
Proof.
  rewrite existsb_exists. unfold includes. split.
  - intros (name & Hin & Hinc). exists name.
    by rewrite list_elem_of_In, <- (bool_decide_eq_true (name ∈ library)).
  - intros (name & Hin & Hlib). exists name.
    by rewrite <- list_elem_of_In, (bool_decide_eq_true (name ∈ library)).
Qed.

(** C1. For every project state (service schema [S], client extension
    definitions [C]): if a directive name of the service schema or a
    directive name declared in the client extension is also the name of a
    directive of the standard library, [missingApolloClientDirectives] is
    empty and the client schema document is the client extension alone; if
    no name is shared, it is the list of all definitions of the standard
    library document, unchanged, and the client schema document is the
    client extension followed by them. *)
Theorem missingApolloClientDirectives_all_or_nothing
    (project : GraphQLClientProject) :
  ((∃ name, name ∈ existingDirectives project
            ∧ name ∈ directiveNames standardLibrary) →
     missingApolloClientDirectives project = []
     ∧ definitions (clientSchema project)
       = typeSystemDefinitionsAndExtensions project)
  ∧ ((∀ name, name ∈ existingDirectives project →
              name ∉ directiveNames standardLibrary) →
     missingApolloClientDirectives project = standardLibrary
     ∧ definitions (clientSchema project)
       = typeSystemDefinitionsAndExtensions project ++ standardLibrary).
Proof.
  unfold clientSchema, missingApolloClientDirectives, standardLibrary,
    existingDirectives. simpl.
  destruct apolloAst as [library|].
  - destruct (existsb _ _) eqn:Hoverlap.
    + split; [by rewrite app_nil_r|].
      intros Hnone. apply overlap_true in Hoverlap as (name & Hin & Hlib).
      by destruct (Hnone name).
    + split; [|done].
      intros Hsome%overlap_true. congruence.
  - split; intros _; by rewrite app_nil_r.
Qed.

(** ** C4: without configured directive lists the projection is the identity *)

(** C4. When [clientOnlyDirectives] and [clientSchemaDirectives] are each
    undefined or empty, [mergedOperationsAndFragmentsForService] returns what
    [mergedOperationsAndFragments] returns, unchanged: no helper is applied
    to any document (and if the merged map cannot be built, the same error
    is thrown). *)
Theorem projection_identity (project : GraphQLClientProject) :
  (clientOnlyDirectives (config project) = None
   ∨ clientOnlyDirectives (config project) = Some []) →
  (clientSchemaDirectives (config project) = None
   ∨ clientSchemaDirectives (config project) = Some []) →
  mergedOperationsAndFragmentsForService project
  = mergedOperationsAndFragments project.
Proof.
  intros Honly Hschema. unfold mergedOperationsAndFragmentsForService.
  assert (notConfigured (clientOnlyDirectives (config project)) = true) as ->
    by (by destruct Honly as [-> | ->]).
  assert (notConfigured (clientSchemaDirectives (config project)) = true) as ->
    by (by destruct Hschema as [-> | ->]).
  simpl. by destruct (mergedOperationsAndFragments project).
Qed.

(** ** C5: an operation emptied by the filters is left out *)

(** The loop returns when the helpers return on every document it meets;
    it leaves the entries under other keys alone, and decides the entry
    under each of its keys by the emptiness test. *)
Lemma filterOperations_returns (config : ClientConfig)
    (current : JsObject.t DocumentNode) (names : list string) :
  ∀ filtered,
    (∀ name document,
       name ∈ names → JsObject.get current name = Some document →
       ∃ serviceOnly, serviceOnlyDocument config document = Normal serviceOnly) →
    ∃ result,
      filterOperations config current filtered names = Normal result
      ∧ (∀ name, name ∉ names →
           JsObject.get result name = JsObject.get filtered name)
      ∧ (∀ name, name ∈ names → JsObject.get current name = None →
           JsObject.get result name = JsObject.get filtered name)
      ∧ (∀ name document serviceOnly,
           name ∈ names → JsObject.get current name = Some document →
           serviceOnlyDocument config document = Normal serviceOnly →
           JsObject.get result name
           = if decide (filter toBoolean (definitions serviceOnly) ≠ [])
             then Some serviceOnly else JsObject.get filtered name).
Proof.
  clear_functions.
  induction names as [|n names IH]; intros filtered Hreturn.
  { exists filtered. split; [done|]. split; [done|].
    split; [by intros ? ?%elem_of_nil|by intros ??? ?%elem_of_nil]. }
  assert (Hstep : ∃ next,
    filterOperation config current filtered n = Normal next
    ∧ (∀ name, name ≠ n → JsObject.get next name = JsObject.get filtered name)
    ∧ (JsObject.get current n = None →
       JsObject.get next n = JsObject.get filtered n)
    ∧ (∀ document serviceOnly,
         JsObject.get current n = Some document →
         serviceOnlyDocument config document = Normal serviceOnly →
         JsObject.get next n
         = if decide (filter toBoolean (definitions serviceOnly) ≠ [])
           then Some serviceOnly else JsObject.get filtered n)).
  { unfold filterOperation.
    destruct (JsObject.get current n) as [document|] eqn:Hdoc.
    2:{ exists filtered. split; [done|]. split; [done|]. split; done. }
    destruct (Hreturn n document) as [serviceOnly Hservice]; [by left|done|].
    rewrite Hservice. simpl. eexists. split; [done|].
    split; [|split; [done|]].
    - intros name Hne. case_bool_decide; [|done]. by rewrite get_put_ne.
    - intros document' serviceOnly' [= <-] Hservice'.
      rewrite Hservice in Hservice'. injection Hservice' as <-.
      case_bool_decide as Hlength; case_decide as Hfull.
      + by rewrite get_put_eq.
      + exfalso. apply Hlength, length_zero_iff_nil.
        first [exact Hfull|by apply dec_stable].
      + exfalso. apply Hfull, length_zero_iff_nil.
        first [exact Hlength|by apply dec_stable].
      + done. }
  destruct Hstep as (next & Hnext & Hother & Hmissing & Hdecided).
  destruct (IH next) as (result & Hresult & Hout & Hnone & Hin).
  { intros name document Hname. apply Hreturn. by right. }
  assert (Hcons : filterOperations config current filtered (n :: names)
                  = filterOperations config current next names)
    by (simpl; by rewrite Hnext).
  exists result. rewrite Hcons. split; [exact Hresult|].
  split; [|split].
  - intros name Hname. rewrite Hout by (intros ?; apply Hname; by right).
    apply Hother. intros ->. apply Hname. by left.
  - intros name Hname Hdoc.
    destruct (decide (name ∈ names)) as [Hlater|Hlater].
    + rewrite (Hnone name Hlater Hdoc).
      destruct (decide (name = n)) as [->|Hne]; [by apply Hmissing|].
      by apply Hother.
    + rewrite (Hout name Hlater).
      apply elem_of_cons in Hname as [->|?]; [by apply Hmissing|done].
  - intros name document serviceOnly Hname Hdoc Hservice.
    destruct (decide (name ∈ names)) as [Hlater|Hlater].
    + rewrite (Hin name document serviceOnly Hlater Hdoc Hservice).
      case_decide; [done|].
      destruct (decide (name = n)) as [->|Hne].
      * rewrite (Hdecided document serviceOnly Hdoc Hservice).
        by case_decide.
      * by apply Hother.
    + rewrite (Hout name Hlater).
      apply elem_of_cons in Hname as [->|?]; [|done].
      apply (Hdecided document serviceOnly Hdoc Hservice).
Qed.

(** A loop that returned met no helper that threw. *)
Lemma filterOperations_returned (config : ClientConfig)
    (current : JsObject.t DocumentNode) (names : list string) :
  ∀ filtered result,
    filterOperations config current filtered names = Normal result →
    ∀ name document,
      name ∈ names → JsObject.get current name = Some document →
      ∃ serviceOnly, serviceOnlyDocument config document = Normal serviceOnly.
Proof.
  clear_functions.
  induction names as [|n names IH]; intros filtered result Hresult name document.
  { by intros ?%elem_of_nil. }
  simpl in Hresult.
  destruct (filterOperation config current filtered n) as [next|error]
    eqn:Hnext; [|done].
  simpl in Hresult. intros [->|Hlater]%elem_of_cons Hdoc.
  - unfold filterOperation in Hnext. rewrite Hdoc in Hnext.
    destruct (serviceOnlyDocument config document) as [serviceOnly|];
      [by eexists|done].
  - by apply (IH next result Hresult name document).
Qed.

(** The loop throws what a helper throws on the first document on which one
    does. *)
Lemma filterOperations_throws (config : ClientConfig)
    (current : JsObject.t DocumentNode) (before after : list string)
    (name : string) (document : DocumentNode) (error : Exception) :
  ∀ filtered,
    (∀ earlier other,
       earlier ∈ before → JsObject.get current earlier = Some other →
       ∃ serviceOnly, serviceOnlyDocument config other = Normal serviceOnly) →
    JsObject.get current name = Some document →
    serviceOnlyDocument config document = Throw error →
    filterOperations config current filtered (before ++ name :: after)
    = Throw error.
Proof.
  clear_functions.
  induction before as [|n before IH]; intros filtered Hreturn Hdoc Hthrow.
  { simpl. unfold filterOperation. by rewrite Hdoc, Hthrow. }
  simpl. unfold filterOperation at 1.
  destruct (JsObject.get current n) as [other|] eqn:Hother; simpl.
  - destruct (Hreturn n other) as [serviceOnly ->]; [by left|done|]. simpl.
    apply IH; [|done|done]. intros earlier o Hearlier. apply Hreturn.
    by right.
  - apply IH; [|done|done]. intros earlier o Hearlier. apply Hreturn.
    by right.
Qed.

Lemma filter_path (project : GraphQLClientProject) :
  ((∃ name names, clientOnlyDirectives (config project) = Some (name :: names))
   ∨ (∃ name names,
        clientSchemaDirectives (config project) = Some (name :: names))) →
  notConfigured (clientOnlyDirectives (config project))
  && notConfigured (clientSchemaDirectives (config project)) = false.
Proof.
  intros [(n & ns & ->) | (n & ns & ->)]; simpl; [done|apply andb_false_r].
Qed.


(** ** The diagnostic set *)

Lemma diagnosticsOf_add (set : DiagnosticSet) (uri uri' : string)
    (diagnostics : list Diagnostic) :
  diagnosticsOf (addDiagnostics set uri diagnostics) uri'
  = diagnosticsOf set uri'
    ++ (if decide (uri = uri') then diagnostics else []).
Proof.
  induction set as [|[u existing] set IH]; simpl.
  - by destruct (decide (uri = uri')).
  - destruct (decide (u = uri)) as [->|Hu]; simpl.
    + destruct (decide (uri = uri')); [done|by rewrite app_nil_r].
    + destruct (decide (u = uri')) as [->|Hu']; [|apply IH].
      by rewrite decide_False, app_nil_r by congruence.
Qed.

Lemma keys_add (set : DiagnosticSet) (uri uri' : string)
    (diagnostics : list Diagnostic) :
  uri' ∈ (addDiagnostics set uri diagnostics).*1 ↔ uri' = uri ∨ uri' ∈ set.*1.
Proof.
  clear_functions.
  induction set as [|[u existing] set IH]; simpl.
  - set_solver.
  - destruct (decide (u = uri)) as [->|Hu]; simpl; set_solver.
Qed.

Lemma NoDup_add (set : DiagnosticSet) (uri : string)
    (diagnostics : list Diagnostic) :
  NoDup set.*1 → NoDup (addDiagnostics set uri diagnostics).*1.
Proof.
  clear_functions.
  induction set as [|[u existing] set IH]; simpl; intros Hnodup.
  - repeat constructor. set_solver.
  - apply NoDup_cons in Hnodup as [Hu Hnodup].
    destruct (decide (u = uri)) as [->|Hne]; simpl.
    + by constructor.
    + constructor; [|by apply IH]. rewrite keys_add. set_solver.
Qed.

Lemma diagnosticsOf_entry (set : DiagnosticSet) (uri : string) :
  uri ∈ set.*1 → (uri, diagnosticsOf set uri) ∈ set.
Proof.
  clear_functions.
  induction set as [|[u existing] set IH]; simpl; [set_solver|].
  intros Hin. destruct (decide (u = uri)) as [->|Hne]; [left|].
  right. apply IH. set_solver.
Qed.

Section ValidateDocuments.

Variable project : GraphQLClientProject.
Variable registry : JsObject.t FragmentDefinitionNode.

(** The diagnostics the documents of a file contribute. *)
Let diagnosticsOfFile (file : string * list GraphQLDocument) : list Diagnostic :=
  flat_map
    (λ document,
       collectExecutableDefinitionDiagnositics (schema project) document
         registry (validationRules project))
    file.2.

Lemma validateFile_diagnosticsOf (file : string * list GraphQLDocument)
    (set : DiagnosticSet) (uri : string) :
  diagnosticsOf (validateFile project registry set file) uri
  = diagnosticsOf set uri
    ++ (if decide (file.1 = uri) then diagnosticsOfFile file else []).
Proof.
  unfold validateFile, diagnosticsOfFile. destruct file as [u docs]. simpl.
  revert set. induction docs as [|doc docs IH]; intros set; simpl.
  - by destruct (decide (u = uri)); rewrite app_nil_r.
  - rewrite IH, diagnosticsOf_add, <- app_assoc.
    by destruct (decide (u = uri)).
Qed.

Lemma validateFile_keys (file : string * list GraphQLDocument)
    (set : DiagnosticSet) (uri : string) :
  uri ∈ (validateFile project registry set file).*1
  ↔ uri ∈ set.*1 ∨ (file.1 = uri ∧ file.2 ≠ []).
Proof.
  clear_functions.
  unfold validateFile. destruct file as [u docs]. simpl.
  revert set. induction docs as [|doc docs IH]; intros set; simpl.
  - naive_solver.
  - rewrite IH, keys_add. destruct docs; naive_solver.
Qed.

Lemma validateFile_NoDup (file : string * list GraphQLDocument)
    (set : DiagnosticSet) :
  NoDup set.*1 → NoDup (validateFile project registry set file).*1.
Proof.
  unfold validateFile. destruct file as [u docs]. simpl.
  revert set. induction docs as [|doc docs IH]; intros set Hnodup; [done|].
  simpl. apply IH. by apply NoDup_add.
Qed.

Lemma validateDocuments_diagnosticsOf
    (files : list (string * list GraphQLDocument))
    (set : DiagnosticSet) (uri : string) :
  diagnosticsOf (foldl (validateFile project registry) set files) uri
  = diagnosticsOf set uri
    ++ flat_map
         (λ file, if decide (file.1 = uri) then diagnosticsOfFile file else [])
         files.
Proof.
  revert set. induction files as [|file files IH]; intros set; simpl.
  - by rewrite app_nil_r.
  - by rewrite IH, validateFile_diagnosticsOf, <- app_assoc.
Qed.

Lemma validateDocuments_keys (files : list (string * list GraphQLDocument))
    (set : DiagnosticSet) (uri : string) :
  uri ∈ (foldl (validateFile project registry) set files).*1
  ↔ uri ∈ set.*1 ∨ ∃ file, file ∈ files ∧ file.1 = uri ∧ file.2 ≠ [].
Proof.
  clear_functions.
  revert set. induction files as [|file files IH]; intros set; simpl.
  - set_solver.
  - rewrite IH, validateFile_keys. set_solver.
Qed.

Lemma validateDocuments_NoDup (files : list (string * list GraphQLDocument))
    (set : DiagnosticSet) :
  NoDup set.*1 → NoDup (foldl (validateFile project registry) set files).*1.
Proof.
  revert set. induction files as [|file files IH]; intros set Hnodup; [done|].
  simpl. apply IH. by apply validateFile_NoDup.
Qed.

End ValidateDocuments.

(** ** C7: a composition error does not abort the validation pass *)

Lemma errorUri_spec (error : GraphQLError) (uri : string) :
  errorUri error = Some uri
  ↔ ∃ source,
      error_source error = Some source
      ∧ source_name source = uri ∧ uri ≠ "".
Proof.
  clear_functions. unfold errorUri.
  destruct (error_source error) as [source|]; [|naive_solver].
  destruct (decide (source_name source = "")); naive_solver.
Qed.

(** C7. Let a handler for diagnostics be registered and a service schema be
    loaded, and let [extendSchema] throw on the client schema document,
    whatever it throws. Then [validate] completes: the project's schema is
    the service schema itself; when what was thrown is a [GraphQLError]
    that has a source with a non-empty name, its diagnostics are filed under
    that name, and otherwise no diagnostic is filed for it (a thrown value
    that is no [GraphQLError] is logged to the console instead); every
    document of every file is still validated, against the service schema
    and the fragment registry, its diagnostics filed after the error's under
    the URI of its file; and the diagnostics callback is emitted once for
    each URI on file, before the decorations are generated. *)
Theorem validate_recovers_from_composition_error
    (project : GraphQLClientProject) (service : GraphQLSchema)
    (error : Exception) :
  onDiagnostics project = true →
  serviceSchema project = Some service →
  extendSchema service (clientSchema project) = Throw error →
  let filed (uri : string) : list Diagnostic :=
    match error with
    | ThrownGraphQLError graphQLError =>
        match error_source graphQLError with
        | Some source =>
            if decide (source_name source = uri ∧ uri ≠ "")
            then diagnosticsFromError graphQLError else []
        | None => []
        end
    | ThrownOther _ => []
    end in
  let logged : list Effect :=
    match error with
    | ThrownGraphQLError _ => []
    | ThrownOther _ => [ConsoleError error]
    end in
  ∃ diagnostics,
    schema (validate project).1 = Some service
    ∧ diagnosticSet (validate project).1 = Some diagnostics
    ∧ (validate project).2
      = logged ++ diagnosticsCallbacks diagnostics
        ++ generateDecorations (validate project).1
    ∧ NoDup diagnostics.*1
    ∧ (∀ uri,
         diagnosticsOf diagnostics uri
         = filed uri
           ++ flat_map
                (λ file,
                   if decide (file.1 = uri)
                   then flat_map
                          (λ document,
                             collectExecutableDefinitionDiagnositics
                               (Some service) document
                               (fragments (documents project))
                               (validationRules project))
                          file.2
                   else [])
                (documentsByFile project))
    ∧ (∀ uri,
         uri ∈ diagnostics.*1
         ↔ (∃ graphQLError source,
              error = ThrownGraphQLError graphQLError
              ∧ error_source graphQLError = Some source
              ∧ source_name source = uri ∧ uri ≠ "")
           ∨ ∃ file, file ∈ documentsByFile project
                     ∧ file.1 = uri ∧ file.2 ≠ [])
    ∧ (∀ uri,
         uri ∈ diagnostics.*1 →
         DiagnosticsCallback uri (diagnosticsOf diagnostics uri)
         ∈ (validate project).2).
Proof.
  intros Hhandler Hservice Hthrow filed logged.
  set (initial := match error with
                  | ThrownGraphQLError graphQLError =>
                      match errorUri graphQLError with
                      | Some uri =>
                          addDiagnostics newDiagnosticSet uri
                            (diagnosticsFromError graphQLError)
                      | None => newDiagnosticSet
                      end
                  | ThrownOther _ => newDiagnosticSet
                  end).
  set (composed := assignSchema project (Some service)).
  set (registry := fragments (documents composed)).
  set (stored := validateDocuments composed registry initial).
  assert (Hrun : validate project
                 = (assignDiagnosticSet composed (Some stored),
                    logged ++ diagnosticsCallbacks stored
                    ++ generateDecorations
                         (assignDiagnosticSet composed (Some stored)))).
  { unfold validate, composeOrFallBack.
    rewrite Hhandler, Hservice, Hthrow.
    by destruct error as [graphQLError|description]. }
  assert (Hinitial_of : ∀ uri, diagnosticsOf initial uri = filed uri).
  { intros uri. unfold initial, filed.
    destruct error as [graphQLError|description]; [|done].
    destruct (errorUri graphQLError) as [u|] eqn:Huri.
    - apply errorUri_spec in Huri as (source & -> & <- & Hname). simpl.
      destruct (decide (source_name source = uri)) as [<-|Hne].
      + by rewrite decide_True by done.
      + by rewrite decide_False by (by intros [? _]).
    - destruct (error_source graphQLError) as [source|] eqn:Hsource; [|done].
      rewrite decide_False; [done|]. intros [Hname Hnonempty].
      assert (Hsome : errorUri graphQLError = Some uri)
        by (apply errorUri_spec; by exists source).
      congruence. }
  assert (Hinitial_keys : ∀ uri,
    uri ∈ initial.*1
    ↔ ∃ graphQLError source,
        error = ThrownGraphQLError graphQLError
        ∧ error_source graphQLError = Some source
        ∧ source_name source = uri ∧ uri ≠ "").
  { intros uri. unfold initial.
    destruct error as [graphQLError|description].
    2:{ split; [by intros ?%elem_of_nil|]. by intros (? & ? & ? & _). }
    transitivity (errorUri graphQLError = Some uri).
    - destruct (errorUri graphQLError) as [u|]; simpl.
      + rewrite list_elem_of_singleton. clear. naive_solver.
      + split; [by intros ?%elem_of_nil|done].
    - rewrite errorUri_spec. split.
      + intros (source & ? & ? & ?). by exists graphQLError, source.
      + intros (e & source & [= <-] & ? & ? & ?). by exists source. }
  assert (Hinitial_NoDup : NoDup initial.*1).
  { unfold initial. destruct error as [graphQLError|description];
      [|constructor].
    destruct (errorUri graphQLError); simpl; [|constructor].
    repeat constructor. by intros ?%elem_of_nil. }
  exists stored. rewrite Hrun. simpl.
  split; [done|]. split; [done|]. split; [done|].
  split; [by apply validateDocuments_NoDup|].
  split; [|split].
  - intros uri. unfold stored, validateDocuments.
    by rewrite validateDocuments_diagnosticsOf, Hinitial_of.
  - intros uri. unfold stored, validateDocuments.
    by rewrite validateDocuments_keys, Hinitial_keys.
  - intros uri Huri. apply elem_of_app. right. apply elem_of_app. left.
    unfold diagnosticsCallbacks, entries. apply list_elem_of_fmap.
    exists (uri, diagnosticsOf stored uri).
    split; [done|]. by apply diagnosticsOf_entry.
Qed.

(** ** C9: latency hints *)

Lemma SelectionNode_nested_ind (P : SelectionNode → Prop) :
  (∀ loc alias name directives selections,
     Forall P selections → P (Field loc alias name directives selections)) →
  (∀ loc name directives, P (FragmentSpread loc name directives)) →
  (∀ loc typeCondition directives selections,
     Forall P selections →
     P (InlineFragment loc typeCondition directives selections)) →
  ∀ selection, P selection.
Proof.
  intros HField HSpread HInline. fix IH 1.
  intros [loc alias name directives selections
         |loc name directives
         |loc typeCondition directives selections].
  - apply HField. induction selections as [|s l IHl]; constructor; auto.
  - apply HSpread.
  - apply HInline. induction selections as [|s l IHl]; constructor; auto.
Qed.

Lemma filter_flat_map {A B : Type} (P : B → Prop) `{!∀ x, Decision (P x)}
    (f : A → list B) (l : list A) :
  filter P (flat_map f l) = flat_map (λ x, filter P (f x)) l.
Proof.
  induction l as [|x l IH]; [done|]. simpl. by rewrite filter_app, IH.
Qed.

Lemma flat_map_ext_Forall {A B : Type} (f g : A → list B) (l : list A) :
  Forall (λ x, f x = g x) l → flat_map f l = flat_map g l.
Proof. induction 1 as [|x l Hx _ IH]; [done|]. simpl. by rewrite Hx, IH. Qed.

Lemma flat_map_flat_map {A B C : Type} (f : A → list B) (g : B → list C)
    (l : list A) :
  flat_map g (flat_map f l) = flat_map (λ x, flat_map g (f x)) l.
Proof.
  induction l as [|x l IH]; [done|]. simpl. by rewrite flat_map_app, IH.
Qed.

Lemma exceedsThreshold_true (ms : Qc) :
  exceedsThreshold ms = true ↔ (1 < ms)%Qc.
Proof.
  unfold exceedsThreshold. rewrite andb_true_iff, !bool_decide_eq_true.
  split; [by intros [_ ?]|]. intros Hlt. split; [|done].
  intros ->. by vm_compute in Hlt.
Qed.

(** What entering one field pushes. *)
Lemma enterField_spec (project : GraphQLClientProject) (uri : string)
    (parentType : option string) (loc : option Location) (name : string) :
  enterField project uri parentType loc name
  = match parentType ≫= λ parentName, latencySample project parentName name with
    | Some ms =>
        if decide (1 < ms)%Qc
        then [TextDecoration uri ("~" ++ formatMS ms 0) (rangeForASTNode loc)]
        else []
    | None => []
    end.
Proof.
  unfold enterField, latencySample.
  destruct parentType as [parentName|]; simpl; [|done].
  destruct (fieldLatenciesMS project) as [stats|]; simpl; [|done].
  destruct (stats !! parentName) as [parentStats|]; simpl; [|done].
  destruct (parentStats !! name) as [[ms|]|]; simpl; try done.
  destruct (exceedsThreshold ms) eqn:Hms.
  - apply exceedsThreshold_true in Hms. by rewrite decide_True.
  - rewrite decide_False; [done|]. intros Hlt%exceedsThreshold_true. congruence.
Qed.

Lemma enterField_text (project : GraphQLClientProject) (uri : string)
    (parentType : option string) (loc : option Location) (name : string) :
  filter isTextDecoration (enterField project uri parentType loc name)
  = enterField project uri parentType loc name.
Proof.
  rewrite enterField_spec. destruct (_ ≫= _) as [ms|]; [|done].
  by destruct (decide _).
Qed.

Lemma enterSelection_text (typeInfoSchema : GraphQLSchema)
    (project : GraphQLClientProject) (uri : string)
    (selection : SelectionNode) :
  ∀ parentType,
    filter isTextDecoration
      (enterSelection typeInfoSchema project uri parentType selection)
    = flat_map
        (λ v, enterField project uri
                (visit_parentType v) (visit_loc v) (visit_name v))
        (fieldVisitsOfSelection typeInfoSchema parentType selection).
Proof.
  induction selection
    as [loc alias name directives selections IH
       |loc name directives
       |loc typeCondition directives selections IH]
    using SelectionNode_nested_ind; intros parentType; simpl.
  - rewrite filter_app, enterField_text. f_equal.
    rewrite filter_flat_map, flat_map_flat_map.
    apply flat_map_ext_Forall. eapply Forall_impl; [exact IH|].
    intros s Hs. apply Hs.
  - done.
  - rewrite filter_flat_map, flat_map_flat_map.
    apply flat_map_ext_Forall. eapply Forall_impl; [exact IH|].
    intros s Hs. apply Hs.
Qed.

Lemma enterSelections_text (typeInfoSchema : GraphQLSchema)
    (project : GraphQLClientProject) (uri : string)
    (parentType : option string) (selections : list SelectionNode) :
  filter isTextDecoration
    (flat_map (enterSelection typeInfoSchema project uri parentType) selections)
  = flat_map
      (λ v, enterField project uri
              (visit_parentType v) (visit_loc v) (visit_name v))
      (flat_map (fieldVisitsOfSelection typeInfoSchema parentType) selections).
Proof.
  rewrite filter_flat_map, flat_map_flat_map.
  apply flat_map_ext_Forall, Forall_forall. intros s _.
  apply enterSelection_text.
Qed.

Lemma enterDefinition_text (typeInfoSchema : GraphQLSchema)
    (project : GraphQLClientProject) (uri : string)
    (definition : DefinitionNode) :
  filter isTextDecoration
    (enterDefinition typeInfoSchema project uri definition)
  = flat_map
      (λ v, enterField project uri
              (visit_parentType v) (visit_loc v) (visit_name v))
      (fieldVisitsOfDefinition typeInfoSchema definition).
Proof.
  destruct definition as [op|f|dd|ext|k n]; simpl; try done.
  - rewrite filter_cons, decide_False by (by intros []).
    apply enterSelections_text.
  - apply enterSelections_text.
Qed.

Lemma decorationsOfDocument_text (typeInfoSchema : GraphQLSchema)
    (project : GraphQLClientProject) (uri : string)
    (document : GraphQLDocument) :
  filter isTextDecoration
    (decorationsOfDocument typeInfoSchema project uri document)
  = flat_map
      (λ v, enterField project uri
              (visit_parentType v) (visit_loc v) (visit_name v))
      (fieldVisitsOfDocument typeInfoSchema document).
Proof.
  unfold decorationsOfDocument, fieldVisitsOfDocument.
  destruct (ast document) as [a|]; [|done].
  rewrite filter_flat_map, flat_map_flat_map.
  apply flat_map_ext_Forall, Forall_forall. intros d _.
  apply enterDefinition_text.
Qed.

Lemma flat_map_fmap {A B C : Type} (f : A → B) (g : B → list C) (l : list A) :
  flat_map g (f <$> l) = flat_map (λ x, g (f x)) l.
Proof. induction l as [|x l IH]; [done|]. csimpl. by rewrite IH. Qed.

(** C9. Entering a field selection pushes a text decoration exactly when
    type tracking reports a parent type for the field and the latency
    statistics hold a sample for that parent type and the field's name that
    is greater than 1; the decoration is then the single one carrying the
    file's URI, the formatted sample and the range of the field node. In any
    other case (no parent type, no statistics, no sample, a [null] sample or
    a sample of at most 1) entering the field pushes nothing and raises
    nothing. The text decorations of a whole pass are those pushed for the
    fields the walk enters, in the order of the walk. *)
Theorem latency_hint_decorations (project : GraphQLClientProject) :
  (∀ uri parentType loc name decoration,
     decoration ∈ enterField project uri parentType loc name
     ↔ ∃ parentName ms,
         parentType = Some parentName
         ∧ latencySample project parentName name = Some ms
         ∧ (1 < ms)%Qc
         ∧ decoration
           = TextDecoration uri ("~" ++ formatMS ms 0) (rangeForASTNode loc))
  ∧ (∀ uri parentType loc name,
       length (enterField project uri parentType loc name) ≤ 1)
  ∧ (∀ typeInfoSchema,
       onDecorations project = true →
       schema project = Some typeInfoSchema →
       ∃ decorations,
         generateDecorations project = [DecorationsCallback decorations]
         ∧ filter isTextDecoration decorations
           = flat_map
               (λ v, enterField project v.1
                       (visit_parentType v.2) (visit_loc v.2) (visit_name v.2))
               (fieldVisits typeInfoSchema project)).
Proof.
  split; [|split].
  - intros uri parentType loc name decoration. rewrite enterField_spec.
    destruct parentType as [parentName|]; simpl.
    + destruct (latencySample project parentName name) as [ms|] eqn:Hsample.
      * destruct (decide (1 < ms)%Qc) as [Hlt|Hle].
        -- rewrite list_elem_of_singleton. split.
           ++ intros ->. by exists parentName, ms.
           ++ intros (p & ms' & [= <-] & Hms & _ & ->).
              rewrite Hsample in Hms. by injection Hms as <-.
        -- split; [by intros ?%elem_of_nil|].
           intros (p & ms' & [= <-] & Hms & Hlt & _).
           rewrite Hsample in Hms. by injection Hms as <-.
      * split; [by intros ?%elem_of_nil|].
        intros (p & ms' & [= <-] & Hms & _). congruence.
    + split; [by intros ?%elem_of_nil|]. by intros (p & ms & ? & _).
  - intros uri parentType loc name. rewrite enterField_spec.
    destruct (_ ≫= _) as [ms|]; simpl; [|lia].
    destruct (decide _); simpl; lia.
  - intros typeInfoSchema Hhandler Hschema. unfold generateDecorations.
    rewrite Hhandler, Hschema. simpl. eexists. split; [done|].
    unfold fieldVisits. rewrite filter_flat_map, flat_map_flat_map.
    apply flat_map_ext_Forall, Forall_forall. intros [uri docs] _.
    unfold decorationsOfFile. cbn [fst snd].
    rewrite filter_flat_map, flat_map_fmap, flat_map_flat_map. cbn [fst snd].
    apply flat_map_ext_Forall, Forall_forall. intros doc _.
    apply decorationsOfDocument_text.
Qed.

(** ** Further properties of the validation pass *)

(** *** Client metadata *)

Section ClientMetadata.

(** The type objects of a schema behave as objects with a [clientSchema]
    property: an assignment is read back from the type it was made on, and
    leaves the other types as they were. *)
Hypothesis get_set_eq :
  ∀ composed typeName info,
    is_Some (getTypeClientSchema composed typeName) →
    getTypeClientSchema (setTypeClientSchema composed typeName info) typeName
    = Some (Some info).
Hypothesis get_set_ne :
  ∀ composed typeName typeName' info,
    typeName ≠ typeName' →
    getTypeClientSchema (setTypeClientSchema composed typeName info) typeName'
    = getTypeClientSchema composed typeName'.

Lemma visitObjectTypeExtensions_spec (definitions : list DefinitionNode)
    (typeName : string) :
  ∀ composed,
    getTypeClientSchema
      (foldl visitObjectTypeExtension composed definitions) typeName
    = match getTypeClientSchema composed typeName with
      | None => None
      | Some info =>
          match extensionFields typeName definitions with
          | [] => Some info
          | fieldLists =>
              Some (Some {| localFields :=
                              Some (localFieldsOf info ++ concat fieldLists) |})
          end
      end.
Proof.
  induction definitions as [|definition definitions IH]; intros composed.
  { simpl. by destruct (getTypeClientSchema composed typeName). }
  simpl foldl. rewrite IH. clear IH.
  destruct definition as [op|f|dd|node|k n]; simpl;
    try by destruct (getTypeClientSchema composed typeName).
  destruct (objectTypeExtension_fields node) as [fields|] eqn:Hfields; simpl.
  - destruct (getTypeClientSchema composed (objectTypeExtension_name node))
      as [info|] eqn:Hget.
    + destruct (decide (objectTypeExtension_name node = typeName))
        as [<-|Hne]; simpl.
      * rewrite get_set_eq, Hget by (by rewrite Hget).
        assert (Hlocal : default [] (localFields
                           (default {| localFields := None |} info))
                         = localFieldsOf info) by (by destruct info).
        rewrite Hlocal.
        destruct (extensionFields _ definitions) as [|l ls] eqn:Hrest;
          simpl; [by rewrite app_nil_r|].
        unfold localFieldsOf. simpl. by rewrite <- app_assoc.
      * by rewrite get_set_ne.
    + destruct (decide (objectTypeExtension_name node = typeName))
        as [<-|Hne]; simpl; [by rewrite Hget|done].
  - by destruct (decide (objectTypeExtension_name node = typeName)).
Qed.

(** X13. [addClientMetadataToSchemaNodes] records, on every type of the
    composed schema that object type extensions of the client schema
    document extend with fields, the fields of all these extensions, in the
    order of the document, after the local fields the type already had; a
    type that no such extension names keeps its metadata, and an extension
    of a type the schema does not have is skipped. The pass touches nothing
    but the schema, and does nothing without a schema or a service schema. *)
Theorem addClientMetadataToSchemaNodes_spec (project : GraphQLClientProject) :
  match schema project, serviceSchema project with
  | Some composed, Some _ =>
      ∃ annotated,
        addClientMetadataToSchemaNodes project
        = assignSchema project (Some annotated)
        ∧ ∀ typeName,
            getTypeClientSchema annotated typeName
            = match getTypeClientSchema composed typeName with
              | None => None
              | Some info =>
                  match extensionFields typeName
                          (definitions (clientSchema project)) with
                  | [] => Some info
                  | fieldLists =>
                      Some (Some {| localFields :=
                                      Some (localFieldsOf info
                                            ++ concat fieldLists) |})
                  end
              end
  | _, _ => addClientMetadataToSchemaNodes project = project
  end.
Proof.
  unfold addClientMetadataToSchemaNodes.
  destruct (schema project) as [composed|]; [|done].
  destruct (serviceSchema project) as [service|]; [|done].
  eexists. split; [done|]. intros typeName.
  apply visitObjectTypeExtensions_spec.
Qed.

(** X14. The metadata pass accumulates: run again on its own result, it
    appends the fields of the extensions a second time. *)
Theorem addClientMetadataToSchemaNodes_accumulates
    (project : GraphQLClientProject) (composed service : GraphQLSchema)
    (typeName : string) (info : option ClientSchemaInfo) :
  schema project = Some composed →
  serviceSchema project = Some service →
  getTypeClientSchema composed typeName = Some info →
  let added := concat (extensionFields typeName
                         (definitions (clientSchema project))) in
  extensionFields typeName (definitions (clientSchema project)) ≠ [] →
  ∃ twice,
    schema (addClientMetadataToSchemaNodes
              (addClientMetadataToSchemaNodes project))
    = Some twice
    ∧ getTypeClientSchema twice typeName
      = Some (Some {| localFields :=
                        Some (localFieldsOf info ++ added ++ added) |}).
Proof.
  intros Hschema Hservice Hget added Hfields.
  assert (Honce : addClientMetadataToSchemaNodes project
                  = assignSchema project
                      (Some (foldl visitObjectTypeExtension composed
                               (definitions (clientSchema project))))).
  { unfold addClientMetadataToSchemaNodes. by rewrite Hschema, Hservice. }
  rewrite Honce. unfold addClientMetadataToSchemaNodes.
  cbn [schema serviceSchema assignSchema]. rewrite Hservice.
  eexists. split; [done|].
  change (clientSchema (assignSchema project ?s)) with (clientSchema project).
  rewrite !visitObjectTypeExtensions_spec, Hget. fold added.
  destruct (extensionFields typeName (definitions (clientSchema project)))
    as [|l ls] eqn:Hext; [done|].
  unfold localFieldsOf. simpl. by rewrite <- app_assoc.
Qed.

End ClientMetadata.

(** *** The paths of [validate] *)

Lemma NoDup_fst_functional {A B : Type} (l : list (A * B)) (x : A)
    (y1 y2 : B) :
  NoDup l.*1 → (x, y1) ∈ l → (x, y2) ∈ l → y1 = y2.
Proof.
  clear_functions.
  induction l as [|[a b] l IH]; simpl; intros Hnodup H1 H2.
  { by apply elem_of_nil in H1. }
  apply NoDup_cons in Hnodup as [Hnotin Hnodup].
  apply elem_of_cons in H1 as [H1|H1];
    apply elem_of_cons in H2 as [H2|H2].
  - congruence.
  - destruct Hnotin. apply list_elem_of_fmap. exists (x, y2).
    split; [|done]. simpl. congruence.
  - destruct Hnotin. apply list_elem_of_fmap. exists (x, y1).
    split; [|done]. simpl. congruence.
  - by apply IH.
Qed.

(** What the [try] statement of [validate] leaves behind, whichever way it
    goes. *)
Lemma composeOrFallBack_spec (project : GraphQLClientProject)
    (service : GraphQLSchema) :
  serviceSchema project = Some service →
  ∃ composed initial logged,
    composeOrFallBack project service newDiagnosticSet
    = (composed, initial, logged)
    ∧ is_Some (schema composed)
    ∧ onDecorations composed = onDecorations project
    ∧ documentsByFile composed = documentsByFile project
    ∧ NoDup initial.*1
    ∧ omap callbackUri logged = []
    ∧ (∀ decorations, DecorationsCallback decorations ∉ logged)
    ∧ (∀ error,
         ConsoleError error ∈ logged →
         extendSchema service (clientSchema project) = Throw error
         ∧ ∀ graphQLError, error ≠ ThrownGraphQLError graphQLError).
Proof.
  clear_functions. intros Hservice. unfold composeOrFallBack.
  destruct (extendSchema service (clientSchema project))
    as [composed|[error|description]] eqn:Hextend.
  - eexists _, _, _. split; [done|].
    unfold addClientMetadataToSchemaNodes. simpl. rewrite Hservice. simpl.
    split; [by eexists|]. do 2 (split; [done|]).
    split; [constructor|]. split; [done|]. split; set_solver.
  - eexists _, _, _. split; [done|].
    simpl. split; [by eexists|]. do 2 (split; [done|]).
    split; [|set_solver].
    destruct (errorUri error); simpl; repeat constructor. set_solver.
  - eexists _, _, _. split; [done|].
    simpl. split; [by eexists|]. do 2 (split; [done|]).
    split; [constructor|]. split; [done|].
    split; [set_solver|].
    intros error Hin. apply list_elem_of_singleton in Hin.
    injection Hin as ->. done.
Qed.

Lemma callbackUri_diagnosticsCallbacks (diagnostics : DiagnosticSet) :
  omap callbackUri (diagnosticsCallbacks diagnostics) = diagnostics.*1.
Proof.
  unfold diagnosticsCallbacks, entries.
  induction diagnostics as [|[uri ds] set IH]; [done|]. simpl. by f_equal.
Qed.

Lemma callbackUri_generateDecorations (project : GraphQLClientProject) :
  omap callbackUri (generateDecorations project) = [].
Proof.
  unfold generateDecorations.
  destruct (onDecorations project); [|done].
  by destruct (schema project).
Qed.

Lemma generateDecorations_callback (project : GraphQLClientProject) :
  (∃ decorations, DecorationsCallback decorations ∈ generateDecorations project)
  ↔ onDecorations project = true ∧ is_Some (schema project).
Proof.
  clear_functions. unfold generateDecorations.
  destruct (onDecorations project).
  - destruct (schema project) as [s|]; simpl.
    + split; [by eauto|]. intros _. eexists. by left.
    + split; [intros [d Hd]; by apply elem_of_nil in Hd|].
      intros [_ [s Hs]]. done.
  - split; [intros [d Hd]; by apply elem_of_nil in Hd|]. by intros [? _].
Qed.

(** X15. When [extendSchema] throws something that is no [GraphQLError],
    [validate] logs it to the console, once and before anything else, files
    no diagnostic for it, and goes on as after a composition error: the
    schema is the service schema, and every document is validated against
    it. *)
Theorem validate_logs_unexpected_error
    (project : GraphQLClientProject) (service : GraphQLSchema)
    (description : string) :
  onDiagnostics project = true →
  serviceSchema project = Some service →
  extendSchema service (clientSchema project)
  = Throw (ThrownOther description) →
  ∃ diagnostics,
    schema (validate project).1 = Some service
    ∧ diagnosticSet (validate project).1 = Some diagnostics
    ∧ (validate project).2
      = ConsoleError (ThrownOther description)
        :: diagnosticsCallbacks diagnostics
        ++ generateDecorations (validate project).1
    ∧ (∀ uri,
         diagnosticsOf diagnostics uri
         = flat_map
             (λ file,
                if decide (file.1 = uri)
                then flat_map
                       (λ document,
                          collectExecutableDefinitionDiagnositics
                            (Some service) document
                            (fragments (documents project))
                            (validationRules project))
                       file.2
                else [])
             (documentsByFile project))
    ∧ (∀ uri,
         uri ∈ diagnostics.*1
         ↔ ∃ file, file ∈ documentsByFile project
                   ∧ file.1 = uri ∧ file.2 ≠ []).
Proof.
  intros Hhandler Hservice Hthrow.
  unfold validate, composeOrFallBack.
  rewrite Hhandler, Hservice, Hthrow. simpl.
  eexists. split; [done|]. split; [done|]. split; [done|]. split.
  - intros uri. unfold validateDocuments.
    by rewrite validateDocuments_diagnosticsOf.
  - intros uri. unfold validateDocuments.
    rewrite validateDocuments_keys. simpl.
    clear_functions. set_solver.
Qed.

(** X16. When the composition succeeds, [validate] sets the schema to the
    composed schema after the metadata pass, leaves the service schema as it
    was, logs nothing, and validates every document against the new schema;
    the diagnostics on file are those of the documents alone. *)
Theorem validate_composes
    (project : GraphQLClientProject) (service composed : GraphQLSchema) :
  onDiagnostics project = true →
  serviceSchema project = Some service →
  extendSchema service (clientSchema project) = Normal composed →
  let annotated :=
    foldl visitObjectTypeExtension composed
      (definitions (clientSchema project)) in
  ∃ diagnostics,
    schema (validate project).1 = Some annotated
    ∧ serviceSchema (validate project).1 = Some service
    ∧ diagnosticSet (validate project).1 = Some diagnostics
    ∧ (validate project).2
      = diagnosticsCallbacks diagnostics
        ++ generateDecorations (validate project).1
    ∧ (∀ uri,
         diagnosticsOf diagnostics uri
         = flat_map
             (λ file,
                if decide (file.1 = uri)
                then flat_map
                       (λ document,
                          collectExecutableDefinitionDiagnositics
                            (Some annotated) document
                            (fragments (documents project))
                            (validationRules project))
                       file.2
                else [])
             (documentsByFile project))
    ∧ (∀ uri,
         uri ∈ diagnostics.*1
         ↔ ∃ file, file ∈ documentsByFile project
                   ∧ file.1 = uri ∧ file.2 ≠ []).
Proof.
  intros Hhandler Hservice Hextend annotated.
  unfold validate, composeOrFallBack.
  rewrite Hhandler, Hservice, Hextend.
  unfold addClientMetadataToSchemaNodes. simpl. rewrite Hservice. simpl.
  eexists. split; [done|]. split; [done|]. split; [done|].
  split; [done|]. split.
  - intros uri. unfold validateDocuments.
    by rewrite validateDocuments_diagnosticsOf.
  - intros uri. unfold validateDocuments.
    rewrite validateDocuments_keys. simpl.
    clear_functions. set_solver.
Qed.

(** X17. Whatever [validate] does, the diagnostics callback is invoked at
    most once for a URI, and what it is invoked with is what the diagnostic
    set stored on the project holds for the URI; a console log stems from a
    thrown value of [extendSchema] that is no [GraphQLError]. With a handler
    and a service schema, the callback is invoked for every file that has a
    document. *)
Theorem validate_callbacks (project : GraphQLClientProject) :
  NoDup (omap callbackUri (validate project).2)
  ∧ (∀ uri diagnostics,
       DiagnosticsCallback uri diagnostics ∈ (validate project).2 →
       ∃ stored,
         diagnosticSet (validate project).1 = Some stored
         ∧ (uri, diagnostics) ∈ stored
         ∧ diagnostics = diagnosticsOf stored uri)
  ∧ (∀ error,
       ConsoleError error ∈ (validate project).2 →
       (∃ service,
          serviceSchema project = Some service
          ∧ extendSchema service (clientSchema project) = Throw error)
       ∧ ∀ graphQLError, error ≠ ThrownGraphQLError graphQLError)
  ∧ (onDiagnostics project = true →
     is_Some (serviceSchema project) →
     ∀ file,
       file ∈ documentsByFile project → file.2 ≠ [] →
       file.1 ∈ omap callbackUri (validate project).2).
Proof.
  unfold validate.
  destruct (onDiagnostics project); simpl.
  2:{ split; [constructor|]. split; [by intros ?? ?%elem_of_nil|].
      split; [by intros ? ?%elem_of_nil|done]. }
  destruct (serviceSchema project) as [service|] eqn:Hservice.
  2:{ split; [constructor|]. split; [by intros ?? ?%elem_of_nil|].
      split; [by intros ? ?%elem_of_nil|]. by intros _ [? ?]. }
  destruct (composeOrFallBack_spec project service Hservice)
    as (composed & initial & logged & -> & Hschema & Hdecorations & Hfiles
        & Hnodup & Hlogged & Hnodeco & Hconsole).
  simpl.
  set (stored := validateDocuments composed (fragments (documents composed))
                   initial).
  assert (Huris : omap callbackUri
                    (logged ++ diagnosticsCallbacks stored
                     ++ generateDecorations
                          (assignDiagnosticSet composed (Some stored)))
                  = stored.*1).
  { by rewrite !omap_app, Hlogged, callbackUri_diagnosticsCallbacks,
      callbackUri_generateDecorations, app_nil_r. }
  assert (Hstored : NoDup stored.*1) by (by apply validateDocuments_NoDup).
  rewrite Huris. split; [done|]. split; [|split].
  - intros uri diagnostics Hin. exists stored. split; [done|].
    assert (Hentry : (uri, diagnostics) ∈ stored).
    { apply elem_of_app in Hin as [Hin|Hin].
      - assert (Huri : uri ∈ omap callbackUri logged).
        { apply list_elem_of_omap. by eexists (DiagnosticsCallback _ _). }
        rewrite Hlogged in Huri. by apply elem_of_nil in Huri.
      - apply elem_of_app in Hin as [Hin|Hin].
        + unfold diagnosticsCallbacks, entries in Hin.
          apply list_elem_of_fmap in Hin as ([u ds] & [= -> ->] & Hin).
          done.
        + assert (Huri : uri ∈ omap callbackUri
                           (generateDecorations
                              (assignDiagnosticSet composed (Some stored)))).
          { apply list_elem_of_omap. by eexists (DiagnosticsCallback _ _). }
          rewrite callbackUri_generateDecorations in Huri.
          by apply elem_of_nil in Huri. }
    split; [done|].
    assert (Hother : (uri, diagnosticsOf stored uri) ∈ stored).
    { apply diagnosticsOf_entry, list_elem_of_fmap. by exists (uri, diagnostics). }
    exact (NoDup_fst_functional _ _ _ _ Hstored Hentry Hother).
  - intros error Hin.
    apply elem_of_app in Hin as [Hin|Hin].
    + destruct (Hconsole error Hin) as [Hthrow Hother]. split; [|done].
      by exists service.
    + exfalso. apply elem_of_app in Hin as [Hin|Hin].
      * unfold diagnosticsCallbacks in Hin.
        by apply list_elem_of_fmap in Hin as (? & ? & _).
      * unfold generateDecorations in Hin.
        destruct (onDecorations _); [|by apply elem_of_nil in Hin].
        destruct (schema _); [|by apply elem_of_nil in Hin].
        by apply list_elem_of_singleton in Hin.
  - intros _ _ file Hfile Hdocs. unfold stored, validateDocuments.
    apply validateDocuments_keys. right. exists file.
    by rewrite Hfiles.
Qed.

(** X18. [validate] publishes decorations exactly when a handler for
    diagnostics and a handler for decorations are registered and a service
    schema is loaded: after the [try] statement the project always has a
    schema. *)
Theorem validate_publishes_decorations (project : GraphQLClientProject) :
  (∃ decorations, DecorationsCallback decorations ∈ (validate project).2)
  ↔ onDiagnostics project = true
    ∧ is_Some (serviceSchema project)
    ∧ onDecorations project = true.
Proof.
  unfold validate.
  destruct (onDiagnostics project); simpl.
  2:{ split; [intros [d Hd]; by apply elem_of_nil in Hd|]. by intros [? _]. }
  destruct (serviceSchema project) as [service|] eqn:Hservice.
  2:{ split; [intros [d Hd]; by apply elem_of_nil in Hd|].
      by intros (_ & [? ?] & _). }
  destruct (composeOrFallBack_spec project service Hservice)
    as (composed & initial & logged & -> & Hschema & Hdecorations & Hfiles
        & Hnodup & Hlogged & Hnodeco & Hconsole).
  simpl.
  set (stored := validateDocuments composed (fragments (documents composed))
                   initial).
  pose proof (generateDecorations_callback
                (assignDiagnosticSet composed (Some stored))) as Hgen.
  simpl in Hgen. rewrite Hdecorations in Hgen.
  split.
  - intros [decorations Hin]. split; [done|]. split; [by eexists|].
    apply elem_of_app in Hin as [Hin|Hin]; [by apply Hnodeco in Hin|].
    apply elem_of_app in Hin as [Hin|Hin].
    + unfold diagnosticsCallbacks in Hin.
      by apply list_elem_of_fmap in Hin as (? & ? & _).
    + apply Hgen. by exists decorations.
  - intros (_ & _ & Hhandler).
    destruct (proj2 Hgen (conj Hhandler Hschema)) as [decorations Hin].
    exists decorations. apply elem_of_app. right. apply elem_of_app. by right.
Qed.

(** ** Fields of a field definition *)

Lemma Forall2_flat_map_filter {A B C : Type} (R : B → C → Prop)
    (P : C → Prop) `{!∀ x, Decision (P x)} (f : A → list B) (g : A → list C)
    (l : list A) :
  Forall (λ x, Forall2 R (f x) (filter P (g x))) l →
  Forall2 R (flat_map f l) (filter P (flat_map g l)).
Proof.
  induction 1 as [|x l Hx _ IH]; simpl; [constructor|].
  rewrite filter_app. by apply Forall2_app.
Qed.

Section OperationFields.

Variable typeInfoSchema : GraphQLSchema.
Variable fieldName : string.
Variable parent : ObjectTypeDefinitionNode.

(** A pushed node is the field of a visit. *)
Let fieldOf (node : SelectionNode) (v : FieldVisit) : Prop :=
  ∃ alias directives selections,
    node = Field (visit_loc v) alias (visit_name v) directives selections.

(** The visits of fields of the given name below the given parent type. *)
Let wanted (v : FieldVisit) : Prop :=
  visit_name v = fieldName
  ∧ visit_parentType v = Some (objectTypeDefinition_name parent).

Lemma operationFieldsOfSelection_visits (selection : SelectionNode) :
  ∀ parentType,
    Forall2 fieldOf
      (operationFieldsOfSelection typeInfoSchema fieldName parent parentType
         selection)
      (filter wanted (fieldVisitsOfSelection typeInfoSchema parentType selection)).
Proof.
  induction selection
    as [loc alias name directives selections IH
       |loc name directives
       |loc typeCondition directives selections IH]
    using SelectionNode_nested_ind; intros parentType; simpl.
  - assert (Hrest :
      Forall2 fieldOf
        (flat_map
           (operationFieldsOfSelection typeInfoSchema fieldName parent
              (parentType ≫= λ parentName,
                 fieldCompositeTypeName typeInfoSchema parentName name))
           selections)
        (filter wanted
           (flat_map
              (fieldVisitsOfSelection typeInfoSchema
                 (parentType ≫= λ parentName,
                    fieldCompositeTypeName typeInfoSchema parentName name))
              selections))).
    { apply Forall2_flat_map_filter.
      eapply Forall_impl; [exact IH|]. intros s Hs. apply Hs. }
    rewrite filter_cons.
    destruct (decide (name ≠ fieldName)) as [Hne|Heq]; simpl.
    { rewrite decide_False; [exact Hrest|]. by intros [? _]. }
    destruct parentType as [parentName|]; simpl.
    2:{ rewrite decide_False; [exact Hrest|]. by intros [_ ?]. }
    destruct (decide (parentName = objectTypeDefinition_name parent))
      as [->|Hother]; simpl.
    + rewrite decide_True by (split; [by apply dec_stable|done]).
      constructor; [by eexists _, _, _|exact Hrest].
    + rewrite decide_False; [exact Hrest|]. intros [_ ?]. simpl in *.
      congruence.
  - constructor.
  - apply Forall2_flat_map_filter.
    eapply Forall_impl; [exact IH|]. intros s Hs. apply Hs.
Qed.

Lemma operationFieldsOfDefinition_visits (definition : DefinitionNode) :
  Forall2 fieldOf
    (operationFieldsOfDefinition typeInfoSchema fieldName parent definition)
    (filter wanted (fieldVisitsOfDefinition typeInfoSchema definition)).
Proof.
  destruct definition as [op|f|dd|ext|k n]; simpl; try constructor.
  - apply Forall2_flat_map_filter, Forall_forall. intros s _.
    apply operationFieldsOfSelection_visits.
  - apply Forall2_flat_map_filter, Forall_forall. intros s _.
    apply operationFieldsOfSelection_visits.
Qed.

(** The fields of the given name written below the given parent type. *)
Let wantedNode (typed : option string * SelectionNode) : Prop :=
  typed.1 = Some (objectTypeDefinition_name parent)
  ∧ fieldNameOf typed.2 = Some fieldName.

Lemma fmap_filter_flat_map {A B C : Type} (f : B → C) (P : B → Prop)
    `{!∀ x, Decision (P x)} (g : A → list B) (l : list A) :
  f <$> filter P (flat_map g l) = flat_map (λ x, f <$> filter P (g x)) l.
Proof.
  induction l as [|x l IH]; [done|]. simpl. by rewrite filter_app, fmap_app, IH.
Qed.

Lemma operationFieldsOfSelection_text (selection : SelectionNode) :
  ∀ parentType,
    operationFieldsOfSelection typeInfoSchema fieldName parent parentType
      selection
    = snd <$> filter wantedNode
                (typedSelectionsInText typeInfoSchema parentType selection).
Proof.
  induction selection
    as [loc alias name directives selections IH
       |loc name directives
       |loc typeCondition directives selections IH]
    using SelectionNode_nested_ind; intros parentType.
  - set (below := parentType ≫= λ parentName,
                    fieldCompositeTypeName typeInfoSchema parentName name).
    assert (Hrest :
      flat_map (operationFieldsOfSelection typeInfoSchema fieldName parent below)
        selections
      = snd <$> filter wantedNode
                  (flat_map (typedSelectionsInText typeInfoSchema below)
                     selections)).
    { rewrite fmap_filter_flat_map. apply flat_map_ext_Forall.
      eapply Forall_impl; [exact IH|]. intros s Hs. apply Hs. }
    change (visitField fieldName parent parentType
              (Field loc alias name directives selections)
            ++ flat_map
                 (operationFieldsOfSelection typeInfoSchema fieldName parent
                    below) selections
            = snd <$> filter wantedNode
                        ((parentType,
                          Field loc alias name directives selections)
                         :: flat_map
                              (typedSelectionsInText typeInfoSchema below)
                              selections)).
    rewrite filter_cons, Hrest. unfold visitField.
    destruct (decide (name ≠ fieldName)) as [Hne|Heq].
    { rewrite decide_False; [done|]. intros [_ [= ?]]. done. }
    destruct parentType as [parentName|].
    2:{ rewrite decide_False; [done|]. by intros [? _]. }
    destruct (decide (parentName = objectTypeDefinition_name parent))
      as [->|Hother].
    + rewrite decide_True; [done|].
      split; [done|]. simpl. f_equal. by apply dec_stable.
    + rewrite decide_False; [done|]. intros [[= ?] _]. done.
  - cbn [typedSelectionsInText operationFieldsOfSelection].
    by rewrite filter_cons, decide_False by (by intros [_ ?]).
  - change (flat_map
              (operationFieldsOfSelection typeInfoSchema fieldName parent
                 (match typeCondition with
                  | Some typeName =>
                      if isCompositeTypeName typeInfoSchema typeName
                      then Some typeName else None
                  | None => parentType
                  end)) selections
            = snd <$> filter wantedNode
                        ((parentType,
                          InlineFragment loc typeCondition directives
                            selections)
                         :: flat_map
                              (typedSelectionsInText typeInfoSchema
                                 (match typeCondition with
                                  | Some typeName =>
                                      if isCompositeTypeName typeInfoSchema
                                           typeName
                                      then Some typeName else None
                                  | None => parentType
                                  end)) selections)).
    rewrite filter_cons, decide_False by (by intros [_ ?]).
    rewrite fmap_filter_flat_map. apply flat_map_ext_Forall.
    eapply Forall_impl; [exact IH|]. intros s Hs. apply Hs.
Qed.

Lemma operationFieldsOfDefinition_text (definition : DefinitionNode) :
  operationFieldsOfDefinition typeInfoSchema fieldName parent definition
  = snd <$> filter wantedNode
              (typedSelectionsOfDefinition typeInfoSchema definition).
Proof.
  destruct definition as [op|f|dd|ext|k n]; simpl; try done.
  - rewrite fmap_filter_flat_map. apply flat_map_ext_Forall, Forall_forall.
    intros s _. apply operationFieldsOfSelection_text.
  - rewrite fmap_filter_flat_map. apply flat_map_ext_Forall, Forall_forall.
    intros s _. apply operationFieldsOfSelection_text.
Qed.

End OperationFields.

(** The typed selections of the text are what the field walk of the
    decoration pass visits. *)
Lemma typedSelectionsInText_visits (typeInfoSchema : GraphQLSchema)
    (selection : SelectionNode) :
  ∀ parentType,
    omap visitOf (typedSelectionsInText typeInfoSchema parentType selection)
    = fieldVisitsOfSelection typeInfoSchema parentType selection.
Proof.
  induction selection
    as [loc alias name directives selections IH
       |loc name directives
       |loc typeCondition directives selections IH]
    using SelectionNode_nested_ind; intros parentType.
  - set (below := parentType ≫= λ parentName,
                    fieldCompositeTypeName typeInfoSchema parentName name).
    change ({| visit_parentType := parentType; visit_loc := loc;
               visit_name := name |}
            :: omap visitOf
                 (flat_map (typedSelectionsInText typeInfoSchema below)
                    selections)
            = {| visit_parentType := parentType; visit_loc := loc;
                 visit_name := name |}
              :: flat_map (fieldVisitsOfSelection typeInfoSchema below)
                   selections).
    f_equal. induction IH as [|s l Hs _ IHl]; [done|].
    simpl. by rewrite omap_app, Hs, IHl.
  - done.
  - set (below := match typeCondition with
                  | Some typeName =>
                      if isCompositeTypeName typeInfoSchema typeName
                      then Some typeName else None
                  | None => parentType
                  end).
    change (omap visitOf
              (flat_map (typedSelectionsInText typeInfoSchema below)
                 selections)
            = flat_map (fieldVisitsOfSelection typeInfoSchema below)
                selections).
    induction IH as [|s l Hs _ IHl]; [done|].
    simpl. by rewrite omap_app, Hs, IHl.
Qed.

Lemma typedSelectionsOfDocument_visits (typeInfoSchema : GraphQLSchema)
    (document : GraphQLDocument) :
  omap visitOf (typedSelectionsOfDocument typeInfoSchema document)
  = fieldVisitsOfDocument typeInfoSchema document.
Proof.
  unfold typedSelectionsOfDocument, fieldVisitsOfDocument.
  destruct (ast document) as [a|]; [|done].
  induction (definitions a) as [|definition l IH]; [done|].
  simpl. rewrite omap_app, IH. f_equal.
  destruct definition as [op|f|dd|ext|k n]; simpl; try done.
  - induction (operation_selectionSet op) as [|s ss IHs]; [done|].
    simpl. by rewrite omap_app, typedSelectionsInText_visits, IHs.
  - induction (fragment_selectionSet f) as [|s ss IHs]; [done|].
    simpl. by rewrite omap_app, typedSelectionsInText_visits, IHs.
Qed.

(** X21. [getOperationFieldsFromFieldDefinition] returns exactly the field
    nodes of the given name that are written where the parent type, as the
    walk with type information finds it, is the given object type: each such
    node as it is written, in the order of the documents and of the text,
    fields reached through fragment definitions and inline fragments
    included. The typed selections of the text are those of the field walk
    of the decoration pass, so there is one node returned for each visit of
    that walk with this name and parent type. Without a schema or without a
    parent it returns nothing. *)
Theorem getOperationFieldsFromFieldDefinition_spec
    (project : GraphQLClientProject) (fieldName : string)
    (parent : option ObjectTypeDefinitionNode) :
  match schema project, parent with
  | Some typeInfoSchema, Some parentNode =>
      getOperationFieldsFromFieldDefinition project fieldName parent
      = snd <$> filter
                  (λ typed,
                     typed.1 = Some (objectTypeDefinition_name parentNode)
                     ∧ fieldNameOf typed.2 = Some fieldName)
                  (flat_map (typedSelectionsOfDocument typeInfoSchema)
                     (documents project))
      ∧ omap visitOf
          (flat_map (typedSelectionsOfDocument typeInfoSchema)
             (documents project))
        = flat_map (fieldVisitsOfDocument typeInfoSchema) (documents project)
      ∧ Forall2
          (λ node v,
             ∃ alias directives selections,
               node = Field (visit_loc v) alias (visit_name v) directives
                        selections)
          (getOperationFieldsFromFieldDefinition project fieldName parent)
          (filter
             (λ v, visit_name v = fieldName
                   ∧ visit_parentType v
                     = Some (objectTypeDefinition_name parentNode))
             (flat_map (fieldVisitsOfDocument typeInfoSchema)
                (documents project)))
  | _, _ => getOperationFieldsFromFieldDefinition project fieldName parent = []
  end.
Proof.
  unfold getOperationFieldsFromFieldDefinition.
  destruct (schema project) as [typeInfoSchema|]; [|done].
  destruct parent as [parentNode|]; [|done].
  split; [|split].
  - rewrite fmap_filter_flat_map. apply flat_map_ext_Forall, Forall_forall.
    intros document _. unfold typedSelectionsOfDocument.
    destruct (ast document) as [a|]; [|done].
    rewrite fmap_filter_flat_map. apply flat_map_ext_Forall, Forall_forall.
    intros definition _. apply operationFieldsOfDefinition_text.
  - induction (documents project) as [|document l IH]; [done|].
    simpl. by rewrite omap_app, typedSelectionsOfDocument_visits, IH.
  - apply Forall2_flat_map_filter, Forall_forall. intros document _.
    unfold fieldVisitsOfDocument.
    destruct (ast document) as [a|]; [|constructor].
    apply Forall2_flat_map_filter, Forall_forall. intros definition _.
    apply operationFieldsOfDefinition_visits.
Qed.

(** ** Project statistics *)

Section ProjectStatisticsProperties.

Variable getTypeMapKeys : GraphQLSchema → list string.

(** X22. In the statistics of a project the client count is the total count
    less the service count, whatever the two schemas are: without a schema
    the total is zero and the client count is the negated service count. A
    count never exceeds the number of types of its schema, and the project
    counts as loaded as soon as one of the two schemas is there. *)
Theorem getProjectStats_spec (project : GraphQLClientProject)
    (lastLoadDate : option Z) :
  let stats := getProjectStats getTypeMapKeys project lastLoadDate in
  (types_total (stats_types stats)
   = types_service (stats_types stats) + types_client (stats_types stats))%Z
  ∧ (schema project = None →
     types_total (stats_types stats) = 0%Z
     ∧ types_client (stats_types stats)
       = (- types_service (stats_types stats))%Z)
  ∧ (0 ≤ types_service (stats_types stats)
     ≤ Z.of_nat (length (default [] (getTypeMapKeys <$> serviceSchema project))))%Z
  ∧ (0 ≤ types_total (stats_types stats)
     ≤ Z.of_nat (length (default [] (getTypeMapKeys <$> schema project))))%Z
  ∧ (stats_loaded stats = false
     ↔ schema project = None ∧ serviceSchema project = None).
Proof.
  intros stats. unfold stats, getProjectStats. simpl.
  split; [lia|]. split; [intros ->; lia|].
  split; [|split].
  - destruct (serviceSchema project) as [service|]; simpl; [|lia].
    pose proof (length_filter (λ type : string, filterTypes type)
                  (getTypeMapKeys service)). lia.
  - destruct (schema project) as [composed|]; simpl; [|lia].
    pose proof (length_filter (λ type : string, filterTypes type)
                  (getTypeMapKeys composed)). lia.
  - destruct (schema project) as [composed|]; [by split; [|intros [? _]]|].
    rewrite bool_decide_eq_false.
    destruct (serviceSchema project) as [service|].
    + split; [intros []; by eexists|by intros [_ ?]].
    + split; [done|]. intros _ [? ?]. done.
Qed.

End ProjectStatisticsProperties.

(** ** Loading the service schema *)

Section ServiceSchemaProperties.

Variable GraphQLObjectType : Type.
Variable getQueryType : GraphQLSchema → option GraphQLObjectType.
Variable hasAstNode : GraphQLObjectType → bool.
Variable printSchema : GraphQLSchema → string.
Variable buildSchema : string → string → Completion GraphQLSchema.
Variable encodeURIComponent : string → string.
Variable resolveSchema : string → bool → Completion GraphQLSchema.
Variable getTypeMapKeys : GraphQLSchema → list string.

#[local] Abbreviation augment :=
  (augmentSchemaWithGeneratedSDLIfNeeded GraphQLObjectType getQueryType
     hasAstNode printSchema buildSchema encodeURIComponent).
#[local] Abbreviation load :=
  (loadServiceSchema GraphQLObjectType getQueryType hasAstNode printSchema
     buildSchema encodeURIComponent resolveSchema).

(** X23. A load of the service schema that is rejected leaves the schema as
    it was, though it may already have replaced the service schema; a load
    that completes leaves a service schema and the schema composed from it
    and the client schema document. The service schema, once replaced, is
    the resolved schema, itself when its query type has an AST node.
    Nothing else of the project is assigned. *)
Theorem loadServiceSchema_spec (project : GraphQLClientProject)
    (tag : option string) :
  let loaded := (load project tag).1 in
  (is_Some (load project tag).2 → schema loaded = schema project)
  ∧ ((load project tag).2 = None →
     ∃ service composed,
       serviceSchema loaded = Some service
       ∧ schema loaded = Some composed
       ∧ extendSchema service (clientSchema loaded) = Normal composed)
  ∧ (serviceSchema loaded = serviceSchema project
     ∨ ∃ resolved service,
         resolveSchema (tagOrVariant project tag) true = Normal resolved
         ∧ augment resolved = Normal service
         ∧ serviceSchema loaded = Some service
         ∧ (schemaHasASTNodes GraphQLObjectType getQueryType hasAstNode
              resolved = true →
            service = resolved))
  ∧ documentsByFile loaded = documentsByFile project
  ∧ diagnosticSet loaded = diagnosticSet project
  ∧ typeSystemDefinitionsAndExtensions loaded
    = typeSystemDefinitionsAndExtensions project.
Proof.
  unfold loadServiceSchema.
  destruct (resolveSchema _ true) as [resolved|error] eqn:Hresolve; simpl.
  2:{ split; [done|]. split; [done|]. split; [by left|done]. }
  destruct (augment resolved) as [service|error] eqn:Haugment; simpl.
  2:{ split; [done|]. split; [done|]. split; [by left|done]. }
  assert (Hkept : schemaHasASTNodes GraphQLObjectType getQueryType hasAstNode
                    resolved = true → service = resolved).
  { intros Hast. unfold augmentSchemaWithGeneratedSDLIfNeeded in Haugment.
    rewrite Hast in Haugment. congruence. }
  destruct (extendSchema service _) as [composed|error] eqn:Hextend; simpl.
  - split; [by intros [? ?]|]. split.
    + intros _. by exists service, composed.
    + split; [|done]. right. by exists resolved, service.
  - split; [done|]. split; [done|]. split; [|done].
    right. by exists resolved, service.
Qed.

(** X24. When the composition fails during a load, the project is left with
    the new service schema and the schema it had before. The next
    validation pass meets the same error and settles the schema on the
    service schema: a [GraphQLError] with a named source is reported to the
    diagnostics callback of that source, before the diagnostics of the
    documents of that URI, and any other thrown value is logged first. *)
Theorem loadServiceSchema_failed_composition
    (project : GraphQLClientProject) (tag : option string)
    (resolved service : GraphQLSchema) (error : Exception) :
  onDiagnostics project = true →
  resolveSchema (tagOrVariant project tag) true = Normal resolved →
  augment resolved = Normal service →
  extendSchema service
    (clientSchema (assignServiceSchema project (Some service)))
  = Throw error →
  let loaded := (load project tag).1 in
  (load project tag).2 = Some error
  ∧ serviceSchema loaded = Some service
  ∧ schema loaded = schema project
  ∧ serviceSchema (validate loaded).1 = Some service
  ∧ schema (validate loaded).1 = Some service
  ∧ match error with
    | ThrownGraphQLError graphQLError =>
        ∀ uri,
          errorUri graphQLError = Some uri →
          ∃ diagnostics,
            DiagnosticsCallback uri
              (diagnosticsFromError graphQLError ++ diagnostics)
            ∈ (validate loaded).2
    | _ => head (validate loaded).2 = Some (ConsoleError error)
    end.
Proof.
  intros Hhandler Hresolve Haugment Hthrow.
  assert (Hload : load project tag
                  = (assignServiceSchema project (Some service), Some error)).
  { unfold loadServiceSchema. by rewrite Hresolve, Haugment, Hthrow. }
  rewrite Hload. cbn [fst snd].
  set (loaded := assignServiceSchema project (Some service)) in *.
  split; [done|]. split; [done|]. split; [done|].
  assert (Hservice : serviceSchema loaded = Some service) by done.
  assert (Hloaded : onDiagnostics loaded = true) by done.
  unfold validate, composeOrFallBack. rewrite Hloaded, Hservice, Hthrow.
  destruct error as [graphQLError|description]; simpl; [|done].
  split; [done|]. split; [done|]. intros uri Huri. rewrite Huri.
  set (composed := assignSchema loaded (Some service)).
  set (stored := validateDocuments composed (fragments (documents composed))
                   (addDiagnostics newDiagnosticSet uri
                      (diagnosticsFromError graphQLError))).
  eexists. apply elem_of_app. left.
  unfold diagnosticsCallbacks, entries. apply list_elem_of_fmap.
  exists (uri, diagnosticsOf stored uri). split.
  - simpl. f_equal. unfold stored, validateDocuments.
    rewrite validateDocuments_diagnosticsOf. simpl.
    by rewrite decide_True by done.
  - apply diagnosticsOf_entry. unfold stored, validateDocuments.
    apply validateDocuments_keys. left. simpl. by left.
Qed.

(** X25. After such a load on a project that had no schema yet, the
    statistics report a loaded project with no type in total and a client
    count below zero by the service count. *)
Theorem getProjectStats_after_failed_composition
    (project : GraphQLClientProject) (tag : option string)
    (resolved service : GraphQLSchema) (error : Exception)
    (lastLoadDate : option Z) :
  schema project = None →
  resolveSchema (tagOrVariant project tag) true = Normal resolved →
  augment resolved = Normal service →
  extendSchema service
    (clientSchema (assignServiceSchema project (Some service)))
  = Throw error →
  let stats :=
    getProjectStats getTypeMapKeys (load project tag).1 lastLoadDate in
  stats_loaded stats = true
  ∧ types_total (stats_types stats) = 0%Z
  ∧ types_service (stats_types stats)
    = Z.of_nat (length (filter (λ type, filterTypes type)
                          (getTypeMapKeys service)))
  ∧ types_client (stats_types stats)
    = (- types_service (stats_types stats))%Z.
Proof.
  intros Hschema Hresolve Haugment Hthrow.
  assert (Hload : load project tag
                  = (assignServiceSchema project (Some service), Some error)).
  { unfold loadServiceSchema. by rewrite Hresolve, Haugment, Hthrow. }
  rewrite Hload. unfold getProjectStats. simpl. rewrite Hschema. simpl.
  split; [done|]. split; [done|]. split; [done|]. lia.
Qed.

End ServiceSchemaProperties.

(** ** Engine data *)

Lemma generateDecorations_effects (project : GraphQLClientProject)
    (effect : Effect) :
  effect ∈ generateDecorations project →
  generateDecorations project = [effect]
  ∧ ∃ decorations, effect = DecorationsCallback decorations.
Proof.
  unfold generateDecorations.
  destruct (onDecorations project); [|by intros ?%elem_of_nil].
  destruct (schema project); [|by intros ?%elem_of_nil].
  intros ->%list_elem_of_singleton. split; [done|by eexists].
Qed.


End ClientProject.

Arguments config {GraphQLSchema Diagnostic ValidationRule} _.
Arguments serviceSchema {GraphQLSchema Diagnostic ValidationRule} _.
Arguments schema {GraphQLSchema Diagnostic ValidationRule} _.
Arguments documentsByFile {GraphQLSchema Diagnostic ValidationRule} _.
Arguments typeSystemDefinitionsAndExtensions
  {GraphQLSchema Diagnostic ValidationRule} _.
Arguments fieldLatenciesMS {GraphQLSchema Diagnostic ValidationRule} _.
Arguments frontendUrlRoot {GraphQLSchema Diagnostic ValidationRule} _.
Arguments validationRules {GraphQLSchema Diagnostic ValidationRule} _.
Arguments diagnosticSet {GraphQLSchema Diagnostic ValidationRule} _.
Arguments onDiagnostics {GraphQLSchema Diagnostic ValidationRule} _.
Arguments onDecorations {GraphQLSchema Diagnostic ValidationRule} _.
Arguments documents {GraphQLSchema Diagnostic ValidationRule} _.
Arguments DiagnosticsCallback {Diagnostic Range} _ _.
Arguments DecorationsCallback {Diagnostic Range} _.
Arguments ConsoleError {Diagnostic Range} _.
Arguments latencySample {GraphQLSchema Diagnostic ValidationRule} _ _ _.
Arguments isTextDecoration {Range} _.
Arguments callbackUri {Diagnostic Range} _.
Arguments SchemaTagsCallback {Diagnostic Range} _ _.
Arguments ProjectEffect {Diagnostic Range} _.

(** ** Registry *)

Lemma fragments_scanned (o : JsObject.t FragmentDefinitionNode)
    (docs : list GraphQLDocument) :
  foldl addFragmentsOfDocument o docs
  = foldl addFragmentDefinition o (scannedDefinitions docs).
Proof.
  revert o. induction docs as [|doc docs IH]; intros o; [done|].
  unfold scannedDefinitions in *. simpl. rewrite foldl_app, IH.
  unfold addFragmentsOfDocument. by destruct (ast doc).
Qed.

Lemma get_addFragmentDefinitions (defs : list DefinitionNode)
    (o : JsObject.t FragmentDefinitionNode) (name : string) :
  JsObject.get (foldl addFragmentDefinition o defs) name
  = match last (filter (λ f, fragment_name f = name)
                  (omap asFragmentDefinition defs)) with
    | Some f => Some f
    | None => JsObject.get o name
    end.
Proof.
  revert o. induction defs as [|d defs IH]; intros o; [done|].
  simpl. rewrite IH. destruct d as [op|f|dd|ext|k n]; simpl; try done.
  rewrite filter_cons. case_decide as Hname.
  - rewrite last_cons, Hname, get_put_eq. by destruct (last _).
  - by rewrite get_put_ne.
Qed.

Lemma fragments_get (docs : list GraphQLDocument) (name : string) :
  JsObject.get (fragments docs) name = last (fragmentsNamed name docs).
Proof.
  unfold fragments, fragmentsNamed, scannedFragments.
  rewrite fragments_scanned, get_addFragmentDefinitions.
  by destruct (last _).
Qed.

Lemma fragments_get_Some (docs : list GraphQLDocument) (name : string)
    (f : FragmentDefinitionNode) :
  JsObject.get (fragments docs) name = Some f →
  fragment_name f = name ∧ f ∈ scannedFragments docs.
Proof.
  rewrite fragments_get. intros H%last_Some_elem_of.
  by apply list_elem_of_filter in H.
Qed.

Lemma addOperationDefinitions_spec (defs : list DefinitionNode)
    (ops : JsObject.t OperationDefinitionNode) :
  match head (filter (λ o, operation_name o = None)
                (omap asOperationDefinition defs)) with
  | Some o => addOperationDefinitions ops defs = Throw (anonymousOperationError o)
  | None =>
      ∃ ops', addOperationDefinitions ops defs = Normal ops'
        ∧ ∀ name,
            JsObject.get ops' name
            = match last (filter (λ o, operation_name o = Some name)
                            (omap asOperationDefinition defs)) with
              | Some o => Some o
              | None => JsObject.get ops name
              end
  end.
Proof.
  revert ops. induction defs as [|d defs IH]; intros ops.
  - simpl. by exists ops.
  - destruct d as [op|f|dd|ext|k n]; simpl; try apply IH.
    rewrite filter_cons.
    destruct (operation_name op) as [opName|] eqn:Hop.
    + rewrite decide_False by done.
      specialize (IH (JsObject.put ops opName op)).
      destruct (head _); [done|].
      destruct IH as (ops' & Hrun & Hget). exists ops'. split; [done|].
      intros name. rewrite Hget, filter_cons, Hop.
      case_decide as Hname.
      * injection Hname as ->. rewrite last_cons, get_put_eq.
        by destruct (last _).
      * rewrite get_put_ne by congruence. done.
    + by rewrite decide_True.
Qed.

Lemma addOperationDefinitions_app (l1 l2 : list DefinitionNode)
    (ops : JsObject.t OperationDefinitionNode) :
  addOperationDefinitions ops (l1 ++ l2)
  = ops' ← addOperationDefinitions ops l1; addOperationDefinitions ops' l2.
Proof.
  revert ops. induction l1 as [|d l1 IH]; intros ops; [done|].
  simpl. destruct d as [op|f|dd|ext|k n]; try apply IH.
  destruct (operation_name op); [apply IH|done].
Qed.

Lemma operations_scanned (ops : JsObject.t OperationDefinitionNode)
    (docs : list GraphQLDocument) :
  addOperationsOfDocuments ops docs
  = addOperationDefinitions ops (scannedDefinitions docs).
Proof.
  revert ops. induction docs as [|doc docs IH]; intros ops; [done|].
  unfold scannedDefinitions in *. simpl.
  rewrite addOperationDefinitions_app.
  destruct (ast doc) as [a|]; simpl; [|apply IH].
  destruct (addOperationDefinitions ops (definitions a)); simpl; [apply IH|done].
Qed.

Lemma operations_spec (docs : list GraphQLDocument) :
  match head (anonymousOperations docs) with
  | Some o => operations docs = Throw (anonymousOperationError o)
  | None =>
      ∃ ops, operations docs = Normal ops
        ∧ ∀ name, JsObject.get ops name = last (operationsNamed name docs)
  end.
Proof.
  unfold operations, anonymousOperations, operationsNamed, scannedOperations.
  rewrite operations_scanned.
  pose proof (addOperationDefinitions_spec (scannedDefinitions docs)
                JsObject.create) as H.
  destruct (head _); [done|].
  destruct H as (ops & Hrun & Hget). exists ops. split; [done|].
  intros name. rewrite Hget. by destruct (last _).
Qed.

Lemma anonymousOperations_nil (docs : list GraphQLDocument) :
  anonymousOperations docs = [] ↔
  ∀ o, o ∈ scannedOperations docs → operation_name o ≠ None.
Proof.
  unfold anonymousOperations. split.
  - intros Hnil o Hin Hname.
    assert (Hf : o ∈ filter (λ o, operation_name o = None)
                   (scannedOperations docs))
      by (by apply list_elem_of_filter).
    rewrite Hnil in Hf. by apply elem_of_nil in Hf.
  - intros Hall. destruct (filter _ _) as [|o l] eqn:Hf; [done|].
    assert (Hin : o ∈ filter (λ o, operation_name o = None)
                    (scannedOperations docs)) by (rewrite Hf; left).
    apply list_elem_of_filter in Hin as [Hname Hin]. by destruct (Hall o).
Qed.

Lemma scannedDefinitions_with_ast (docs : list GraphQLDocument) :
  scannedDefinitions (filter (λ d, is_Some (ast d)) docs)
  = scannedDefinitions docs.
Proof.
  induction docs as [|doc docs IH]; [done|].
  rewrite filter_cons. unfold scannedDefinitions in *. simpl.
  destruct (ast doc) as [a|] eqn:Hast.
  - rewrite decide_True by done. simpl. by rewrite Hast, IH.
  - rewrite decide_False by (by intros [? ?]). done.
Qed.

Lemma scannedDefinitions_onlyFragments (docs : list GraphQLDocument) :
  scannedDefinitions (onlyFragmentDefinitions <$> docs)
  = filter (λ d, is_Some (asFragmentDefinition d)) (scannedDefinitions docs).
Proof.
  induction docs as [|doc docs IH]; [done|].
  unfold scannedDefinitions in *. simpl. rewrite filter_app, <- IH.
  by destruct (ast doc).
Qed.

Lemma addFragmentDefinitions_filter (defs : list DefinitionNode)
    (o : JsObject.t FragmentDefinitionNode) :
  foldl addFragmentDefinition o
    (filter (λ d, is_Some (asFragmentDefinition d)) defs)
  = foldl addFragmentDefinition o defs.
Proof.
  revert o. induction defs as [|d defs IH]; intros o; [done|].
  rewrite filter_cons.
  destruct (decide (is_Some (asFragmentDefinition d))) as [Hd|Hd].
  - simpl. apply IH.
  - rewrite IH. simpl.
    destruct d as [op|f|dd|ext|k n]; try done.
    destruct Hd. by eexists.
Qed.

Lemma operations_throws (docs : list GraphQLDocument)
    (o : OperationDefinitionNode) :
  o ∈ scannedOperations docs →
  operation_name o = None →
  ∃ first, head (anonymousOperations docs) = Some first
           ∧ operations docs = Throw (anonymousOperationError first).
Proof.
  intros Hin Hname.
  pose proof (operations_spec docs) as Hspec.
  destruct (head (anonymousOperations docs)) as [first|] eqn:Hhead.
  - by exists first.
  - apply head_None in Hhead.
    by destruct (proj1 (anonymousOperations_nil docs) Hhead o Hin).
Qed.

(** ** C6: an anonymous operation aborts the [operations] getter *)

(** C6. If a snapshot contains an operation definition without a name, the
    [operations] getter throws the anonymous-operation error: a
    [GraphQLError] with the fixed message whose node list is exactly the
    anonymous definition met first in scan order, whatever named operations
    the snapshot holds besides. No operations map is returned. When [o] is
    the only anonymous operation of the snapshot, the node is [o]. *)
Theorem operations_anonymous_fails (docs : list GraphQLDocument)
    (o : OperationDefinitionNode) :
  o ∈ scannedOperations docs →
  operation_name o = None →
  ∃ first,
    head (anonymousOperations docs) = Some first
    ∧ operation_name first = None
    ∧ first ∈ scannedOperations docs
    ∧ operations docs
      = Throw (ThrownGraphQLError
                 {| error_message := "Apollo does not support anonymous operations";
                    error_nodes := [OperationDefinition first];
                    error_source := loc_source <$> operation_loc first |})
    ∧ (∀ ops, operations docs ≠ Normal ops)
    ∧ ((∀ o', o' ∈ scannedOperations docs → operation_name o' = None → o' = o)
       → first = o).
Proof.
  intros Hin Hname.
  destruct (operations_throws docs o Hin Hname) as (first & Hhead & Hrun).
  assert (Hfirst : first ∈ anonymousOperations docs)
    by (by apply head_Some_elem_of).
  apply list_elem_of_filter in Hfirst as [Hanon Hscanned].
  exists first. repeat split; try done.
  - intros ops. by rewrite Hrun.
  - intros Huniq. by apply Huniq.
Qed.

(** ** C8: the last definition scanned under a name is the one kept *)

(** C8. For every snapshot and every name, the [fragments] getter maps the
    name to the last fragment definition scanned with that name (to nothing
    if there is none), and so does the [operations] getter for operation
    definitions whenever it returns. Definitions sharing a name raise
    nothing: the getter for operations throws only the anonymous-operation
    error, and only for a snapshot that contains an anonymous operation. *)
Theorem registry_last_writer_wins (docs : list GraphQLDocument) (name : string) :
  JsObject.get (fragments docs) name = last (fragmentsNamed name docs)
  ∧ (∀ ops, operations docs = Normal ops →
       JsObject.get ops name = last (operationsNamed name docs))
  ∧ (∀ e, operations docs = Throw e →
       ∃ o, o ∈ scannedOperations docs ∧ operation_name o = None
            ∧ e = anonymousOperationError o)
  ∧ ((∀ o, o ∈ scannedOperations docs → operation_name o ≠ None) →
       ∃ ops, operations docs = Normal ops).
Proof.
  split; [apply fragments_get|].
  pose proof (operations_spec docs) as Hspec.
  destruct (head (anonymousOperations docs)) as [first|] eqn:Hhead.
  - assert (Hfirst : first ∈ anonymousOperations docs)
      by (by apply head_Some_elem_of).
    apply list_elem_of_filter in Hfirst as [Hanon Hscanned].
    repeat split.
    + intros ops. by rewrite Hspec.
    + intros e. rewrite Hspec. intros [= <-]. by exists first.
    + intros Hall. by destruct (Hall first).
  - destruct Hspec as (ops & Hrun & Hget). repeat split.
    + intros ops'. rewrite Hrun. intros [= <-]. apply Hget.
    + intros e. by rewrite Hrun.
    + intros _. by exists ops.
Qed.

(** ** C10: the [fragments] getter is total *)

(** C10. The [fragments] getter is a total function of the snapshot (its
    body has no [throw] and reads no property of an absent value): documents
    without an AST and definitions that are not fragment definitions do not
    influence its result, every scanned fragment definition is registered
    under its name, and this holds as well for a snapshot on which the
    [operations] getter throws because of an anonymous operation. *)
Theorem fragments_total (docs : list GraphQLDocument) :
  fragments docs = fragments (filter (λ d, is_Some (ast d)) docs)
  ∧ fragments docs = fragments (onlyFragmentDefinitions <$> docs)
  ∧ (∀ f, f ∈ scannedFragments docs →
       ∃ kept, JsObject.get (fragments docs) (fragment_name f) = Some kept
               ∧ fragment_name kept = fragment_name f)
  ∧ (∀ o, o ∈ scannedOperations docs → operation_name o = None →
       (∃ e, operations docs = Throw e)
       ∧ ∀ name, JsObject.get (fragments docs) name
                 = last (fragmentsNamed name docs)).
Proof.
  split; [|split; [|split]].
  - unfold fragments. by rewrite !fragments_scanned, scannedDefinitions_with_ast.
  - unfold fragments.
    by rewrite !fragments_scanned, scannedDefinitions_onlyFragments,
      addFragmentDefinitions_filter.
  - intros f Hin. rewrite fragments_get.
    assert (Hne : fragmentsNamed (fragment_name f) docs ≠ []).
    { intros Hnil.
      assert (Hf : f ∈ fragmentsNamed (fragment_name f) docs)
        by (by apply list_elem_of_filter).
      rewrite Hnil in Hf. by apply elem_of_nil in Hf. }
    apply last_is_Some in Hne as [kept Hkept]. exists kept. split; [done|].
    apply last_Some_elem_of in Hkept.
    by apply list_elem_of_filter in Hkept as [? ?].
  - intros o Hin Hname. split.
    + destruct (operations_throws docs o) as (first & _ & Hrun); eauto.
    + intros name. apply fragments_get.
Qed.

(** ** The closure resolver *)

Lemma firstOccurrences_app (seen : gset string) (l1 l2 : list string) :
  firstOccurrences seen (l1 ++ l2)
  = firstOccurrences seen l1 ++ firstOccurrences (list_to_set l1 ∪ seen) l2.
Proof.
  revert seen. induction l1 as [|n l1 IH]; intros seen; simpl.
  - f_equal. set_solver.
  - destruct (decide (n ∈ seen)) as [Hin|Hnotin].
    + rewrite IH. do 2 f_equal. set_solver.
    + simpl. rewrite IH. do 3 f_equal. set_solver.
Qed.

Lemma firstOccurrences_elem_of (seen : gset string) (l : list string)
    (x : string) :
  x ∈ firstOccurrences seen l ↔ x ∈ l ∧ x ∉ seen.
Proof.
  revert seen. induction l as [|n l IH]; intros seen; simpl.
  - set_solver.
  - destruct (decide (n ∈ seen)) as [Hin|Hnotin].
    + rewrite IH. set_solver.
    + rewrite elem_of_cons, IH. destruct (decide (x = n)); set_solver.
Qed.

Lemma firstOccurrences_NoDup (seen : gset string) (l : list string) :
  NoDup (firstOccurrences seen l).
Proof.
  revert seen. induction l as [|n l IH]; intros seen; simpl.
  - constructor.
  - destruct (decide (n ∈ seen)); [apply IH|].
    constructor; [|apply IH]. rewrite firstOccurrences_elem_of. set_solver.
Qed.

Lemma firstOccurrences_to_set (seen : gset string) (l : list string) :
  (list_to_set (firstOccurrences seen l) ∪ seen : gset string)
  = list_to_set l ∪ seen.
Proof.
  apply set_eq. intros x.
  rewrite !elem_of_union, !elem_of_list_to_set, firstOccurrences_elem_of.
  destruct (decide (x ∈ seen)); naive_solver.
Qed.

(** The visitor run over the spreads of one definition: the registered names
    met for the first time are queued, appended and marked, in order. *)
Lemma visitFragmentSpread_fold (o : JsObject.t FragmentDefinitionNode)
    (names : list string) (st : SearchState) :
  foldl (visitFragmentSpread o) st names
  = let new :=
      firstOccurrences (seenFragmentNames st)
        (filter (λ n, is_Some (JsObject.get o n)) names) in
    {| defintionsToSearch := defintionsToSearch st ++ registeredFragments o new;
       allDefinitions := allDefinitions st ++ registeredFragments o new;
       seenFragmentNames := list_to_set new ∪ seenFragmentNames st |}.
Proof.
  revert st. induction names as [|n names IH]; intros st; simpl.
  - destruct st as [q a sn]. unfold registeredFragments. simpl.
    rewrite !app_nil_r. f_equal. set_solver.
  - rewrite IH. clear IH. rewrite filter_cons. unfold visitFragmentSpread.
    destruct (decide (is_Some (JsObject.get o n))) as [[f Hget]|Hnone].
    + rewrite Hget. simpl.
      destruct (decide (n ∈ seenFragmentNames st)) as [Hin|Hnotin]; [done|].
      unfold registeredFragments. simpl. rewrite Hget. simpl.
      rewrite <- !app_assoc. simpl. f_equal. set_solver.
    + destruct (JsObject.get o n) as [f|]; [|done].
      destruct Hnone. by exists f.
Qed.

Lemma registeredFragments_app (o : JsObject.t FragmentDefinitionNode)
    (ks1 ks2 : list string) :
  registeredFragments o (ks1 ++ ks2)
  = registeredFragments o ks1 ++ registeredFragments o ks2.
Proof. unfold registeredFragments. by rewrite omap_app, fmap_app. Qed.

Lemma discoveredInOrder_app (o : JsObject.t FragmentDefinitionNode)
    (root current : ExecutableDefinitionNode) (ks new : list string) :
  discoveredInOrder o root ks →
  current ∈ root :: registeredFragments o ks →
  (∀ k, k ∈ new → k ∈ fragmentSpreads current) →
  discoveredInOrder o root (ks ++ new).
Proof.
  intros Hks Hcurrent Hnew i k Hlookup.
  apply lookup_app_Some in Hlookup as [Hl | [Hge Hl]].
  - destruct (Hks i k Hl) as (d & Hd & Hk). exists d. split; [|done].
    rewrite take_app_le by (apply lookup_lt_Some in Hl; lia). done.
  - exists current. split.
    + rewrite take_app_ge by done. rewrite registeredFragments_app.
      apply elem_of_cons in Hcurrent as [->|Hin]; [left|right].
      apply elem_of_app. by left.
    + apply Hnew. by eapply list_elem_of_lookup_2.
Qed.

(** The loop invariant: [all] is the processed definitions followed by the
    queue; it is the root followed by the fragments registered under the
    keys discovered so far; these keys are the registered spread names of the
    processed definitions in the order of their first occurrence. *)
Lemma searchDefinitions_spec (o : JsObject.t FragmentDefinitionNode)
    (root : ExecutableDefinitionNode)
    (queue all : list ExecutableDefinitionNode) (seen : gset string) :
  ∀ (processed : list ExecutableDefinitionNode) (ks : list string),
    all = processed ++ queue →
    all = root :: registeredFragments o ks →
    seen = list_to_set ks →
    ks = firstOccurrences ∅
           (filter (λ n, is_Some (JsObject.get o n))
              (flat_map fragmentSpreads processed)) →
    discoveredInOrder o root ks →
    ∃ ks',
      searchDefinitions o queue all seen = root :: registeredFragments o ks'
      ∧ ks' = firstOccurrences ∅
                (filter (λ n, is_Some (JsObject.get o n))
                   (flat_map fragmentSpreads
                      (root :: registeredFragments o ks')))
      ∧ discoveredInOrder o root ks'.
Proof.
  funelim (searchDefinitions o queue all seen);
    intros processed ks Hall Hroot Hseen Hks Hcausal.
  - exists ks. rewrite app_nil_r in Hall. subst all.
    split; [done|]. split; [|done]. by rewrite <- Hroot.
  - rewrite visitFragmentSpread_fold in *. simpl in *.
    set (new := firstOccurrences seen
                  (filter (λ n, is_Some (JsObject.get fragments0 n))
                     (fragmentSpreads currentDefinition))) in *.
    apply (H root (processed ++ [currentDefinition]) (ks ++ new)).
    + by rewrite Hall, <- !app_assoc.
    + by rewrite Hroot, registeredFragments_app.
    + rewrite Hseen, list_to_set_app_L. set_solver.
    + rewrite flat_map_app, filter_app, firstOccurrences_app, <- Hks.
      simpl. rewrite app_nil_r. f_equal. unfold new. f_equal.
      rewrite Hseen, Hks at 1. rewrite <- firstOccurrences_to_set. set_solver.
    + apply (discoveredInOrder_app _ _ currentDefinition); [done| |].
      * rewrite <- Hroot, Hall. set_solver.
      * intros k Hk. apply firstOccurrences_elem_of in Hk as [Hk _].
        by apply list_elem_of_filter in Hk as [_ Hk].
Qed.

Lemma getOperationWithFragments_keys (docs : list GraphQLDocument)
    (O : OperationDefinitionNode) :
  ∃ ks,
    getOperationWithFragments docs O
    = ExecutableOperation O :: registeredFragments (fragments docs) ks
    ∧ ks = firstOccurrences ∅
             (filter (λ n, is_Some (JsObject.get (fragments docs) n))
                (flat_map fragmentSpreads (getOperationWithFragments docs O)))
    ∧ discoveredInOrder (fragments docs) (ExecutableOperation O) ks.
Proof.
  unfold getOperationWithFragments.
  destruct (searchDefinitions_spec (fragments docs) (ExecutableOperation O)
              [ExecutableOperation O] [ExecutableOperation O] ∅ [] [])
    as (ks & Hrun & Hks & Hcausal); try done.
  exists ks. by rewrite Hrun.
Qed.

Lemma omap_get_names (docs : list GraphQLDocument) (ks : list string) :
  (∀ k, k ∈ ks → is_Some (JsObject.get (fragments docs) k)) →
  fragment_name <$> omap (JsObject.get (fragments docs)) ks = ks.
Proof.
  induction ks as [|k ks IH]; intros Hreg; [done|].
  destruct (Hreg k) as [f Hf]; [left|]. simpl. rewrite Hf. simpl.
  apply fragments_get_Some in Hf as [-> _]. f_equal.
  apply IH. intros k' Hk'. apply Hreg. by right.
Qed.

Lemma omap_get_take {A : Type} (g : string → option A) (ks : list string)
    (i : nat) :
  (∀ k, k ∈ ks → is_Some (g k)) →
  omap g (take i ks) = take i (omap g ks).
Proof.
  revert i. induction ks as [|k ks IH]; intros i Hreg; [by destruct i|].
  destruct i as [|i]; [done|].
  destruct (Hreg k) as [f Hf]; [left|]. simpl. rewrite Hf. simpl. f_equal.
  apply IH. intros k' Hk'. apply Hreg. by right.
Qed.

Lemma omap_get_NoDup (docs : list GraphQLDocument) (ks : list string) :
  NoDup ks → NoDup (omap (JsObject.get (fragments docs)) ks).
Proof.
  induction 1 as [|k ks Hnotin Hnodup IH]; [constructor|].
  simpl. destruct (JsObject.get (fragments docs) k) as [f|] eqn:Hf; [|done].
  constructor; [|done].
  intros Hin. apply list_elem_of_omap in Hin as (k' & Hk' & Hf').
  apply fragments_get_Some in Hf as [<- _].
  apply fragments_get_Some in Hf' as [<- _]. done.
Qed.

(** What the resolver returns: the operation, then fragments of the
    registry, all different, whose names are the registered spread names of
    the result in the order of their first occurrence, each spread by a
    definition placed before it. *)
Lemma getOperationWithFragments_spec (docs : list GraphQLDocument)
    (O : OperationDefinitionNode) :
  ∃ fs,
    getOperationWithFragments docs O
    = ExecutableOperation O :: (ExecutableFragment <$> fs)
    ∧ NoDup fs
    ∧ (∀ f, f ∈ fs →
         JsObject.get (fragments docs) (fragment_name f) = Some f)
    ∧ fragment_name <$> fs
      = firstOccurrences ∅
          (filter (λ n, is_Some (JsObject.get (fragments docs) n))
             (flat_map fragmentSpreads (getOperationWithFragments docs O)))
    ∧ (∀ i f, fs !! i = Some f →
         ∃ d, d ∈ take (S i) (getOperationWithFragments docs O)
              ∧ fragment_name f ∈ fragmentSpreads d).
Proof.
  destruct (getOperationWithFragments_keys docs O) as (ks & Hrun & Hks & Hcausal).
  assert (Hreg : ∀ k, k ∈ ks → is_Some (JsObject.get (fragments docs) k)).
  { intros k Hk. rewrite Hks in Hk.
    apply firstOccurrences_elem_of in Hk as [Hk _].
    by apply list_elem_of_filter in Hk as [Hk _]. }
  pose proof (omap_get_names docs ks Hreg) as Hnames.
  exists (omap (JsObject.get (fragments docs)) ks).
  split; [done|]. split.
  { apply omap_get_NoDup. rewrite Hks. apply firstOccurrences_NoDup. }
  split.
  { intros f Hf. apply list_elem_of_omap in Hf as (k & Hk & Hf).
    by destruct (fragments_get_Some _ _ _ Hf) as [-> _]. }
  split; [by rewrite Hnames|].
  intros i f Hf.
  assert (Hk : ks !! i = Some (fragment_name f)).
  { rewrite <- Hnames at 1. by rewrite list_lookup_fmap, Hf. }
  destruct (Hcausal i _ Hk) as (d & Hd & Hspread). exists d. split; [|done].
  rewrite Hrun. simpl. unfold registeredFragments in *.
  by rewrite <- fmap_take, <- omap_get_take.
Qed.

(** Every registered fragment spread by a definition of the result is in the
    result. *)
Lemma getOperationWithFragments_closed (docs : list GraphQLDocument)
    (O : OperationDefinitionNode) (d : ExecutableDefinitionNode)
    (f : FragmentDefinitionNode) :
  d ∈ getOperationWithFragments docs O →
  fragment_name f ∈ fragmentSpreads d →
  JsObject.get (fragments docs) (fragment_name f) = Some f →
  ExecutableFragment f ∈ getOperationWithFragments docs O.
Proof.
  intros Hd Hspread Hf.
  destruct (getOperationWithFragments_keys docs O) as (ks & Hrun & Hks & _).
  rewrite Hrun at 1. right. apply list_elem_of_fmap. exists f. split; [done|].
  apply list_elem_of_omap. exists (fragment_name f). split; [|done].
  rewrite Hks. apply firstOccurrences_elem_of. split; [|set_solver].
  apply list_elem_of_filter. split; [by eexists|].
  apply list_elem_of_In, in_flat_map. exists d.
  by rewrite <- !list_elem_of_In.
Qed.

#[local] Arguments searchDefinitions : simpl never.

Lemma visitFragmentSpread_new (o : JsObject.t FragmentDefinitionNode)
    (st : SearchState) (name : string) (f : FragmentDefinitionNode) :
  JsObject.get o name = Some f →
  name ∉ seenFragmentNames st →
  visitFragmentSpread o st name
  = {| defintionsToSearch := defintionsToSearch st ++ [ExecutableFragment f];
       allDefinitions := allDefinitions st ++ [ExecutableFragment f];
       seenFragmentNames := {[name]} ∪ seenFragmentNames st |}.
Proof.
  intros Hget Hfresh. unfold visitFragmentSpread.
  by rewrite Hget, decide_False.
Qed.

Lemma visitFragmentSpread_seen (o : JsObject.t FragmentDefinitionNode)
    (st : SearchState) (name : string) :
  name ∈ seenFragmentNames st →
  visitFragmentSpread o st name = st.
Proof.
  intros Hseen. unfold visitFragmentSpread.
  destruct (JsObject.get o name); [|done]. by rewrite decide_True.
Qed.

(** The chain [O → F1 → F2 → F1] run step by step. *)
Lemma getOperationWithFragments_cycle (docs : list GraphQLDocument)
    (O : OperationDefinitionNode) (F1 F2 : FragmentDefinitionNode) :
  JsObject.get (fragments docs) (fragment_name F1) = Some F1 →
  JsObject.get (fragments docs) (fragment_name F2) = Some F2 →
  fragment_name F1 ≠ fragment_name F2 →
  fragmentSpreads (ExecutableOperation O) = [fragment_name F1] →
  fragmentSpreads (ExecutableFragment F1) = [fragment_name F2] →
  fragmentSpreads (ExecutableFragment F2) = [fragment_name F1] →
  getOperationWithFragments docs O
  = [ExecutableOperation O; ExecutableFragment F1; ExecutableFragment F2].
Proof.
  intros H1 H2 Hne HO HF1 HF2. unfold getOperationWithFragments.
  simp searchDefinitions. rewrite HO. simpl.
  rewrite (visitFragmentSpread_new _ _ _ F1) by (done || set_solver). simpl.
  simp searchDefinitions. rewrite HF1. simpl.
  rewrite (visitFragmentSpread_new _ _ _ F2)
    by (done || (simpl; clear -Hne; set_solver)). simpl.
  simp searchDefinitions. rewrite HF2. simpl.
  rewrite visitFragmentSpread_seen by (simpl; clear; set_solver).
  by simp searchDefinitions.
Qed.

(** ** C2: the closure of a cyclic chain terminates without duplicates *)

(** C2. [getOperationWithFragments] is a total function (the loop is defined
    by well-founded recursion on [searchMeasure]), and for every snapshot
    and operation [O] its result starts with [O] and holds no definition
    twice. If [O] spreads a registered fragment [F1], [F1] spreads a
    registered fragment [F2] and [F2] spreads [F1] again, the result holds
    [O], [F1] and [F2], each exactly once; if these are their only spreads,
    the result is exactly [O; F1; F2]. *)
Theorem closure_of_cycle (docs : list GraphQLDocument)
    (O : OperationDefinitionNode) :
  NoDup (getOperationWithFragments docs O)
  ∧ head (getOperationWithFragments docs O) = Some (ExecutableOperation O)
  ∧ ∀ F1 F2,
      JsObject.get (fragments docs) (fragment_name F1) = Some F1 →
      JsObject.get (fragments docs) (fragment_name F2) = Some F2 →
      fragment_name F1 ∈ fragmentSpreads (ExecutableOperation O) →
      fragment_name F2 ∈ fragmentSpreads (ExecutableFragment F1) →
      fragment_name F1 ∈ fragmentSpreads (ExecutableFragment F2) →
      ExecutableOperation O ∈ getOperationWithFragments docs O
      ∧ ExecutableFragment F1 ∈ getOperationWithFragments docs O
      ∧ ExecutableFragment F2 ∈ getOperationWithFragments docs O
      ∧ (fragment_name F1 ≠ fragment_name F2 →
         fragmentSpreads (ExecutableOperation O) = [fragment_name F1] →
         fragmentSpreads (ExecutableFragment F1) = [fragment_name F2] →
         fragmentSpreads (ExecutableFragment F2) = [fragment_name F1] →
         getOperationWithFragments docs O
         = [ExecutableOperation O; ExecutableFragment F1;
            ExecutableFragment F2]).
Proof.
  destruct (getOperationWithFragments_spec docs O)
    as (fs & Hrun & Hnodup & _).
  assert (Hroot : ExecutableOperation O ∈ getOperationWithFragments docs O)
    by (rewrite Hrun; left).
  split; [|split].
  - rewrite Hrun. constructor.
    + intros Hin. by apply list_elem_of_fmap in Hin as (f & Hf & _).
    + apply NoDup_fmap_2; [|done]. by intros f f' [= ->].
  - by rewrite Hrun.
  - intros F1 F2 H1 H2 HO HF1 HF2.
    assert (Hin1 : ExecutableFragment F1 ∈ getOperationWithFragments docs O)
      by (by apply (getOperationWithFragments_closed _ _ (ExecutableOperation O))).
    assert (Hin2 : ExecutableFragment F2 ∈ getOperationWithFragments docs O)
      by (by apply (getOperationWithFragments_closed _ _ (ExecutableFragment F1))).
    repeat split; try done.
    by apply getOperationWithFragments_cycle.
Qed.

(** ** C3: the result is ordered breadth first *)

Lemma omap_flat_map {A B C : Type} (f : B → option C) (g : A → list B)
    (l : list A) :
  omap f (flat_map g l) = flat_map (λ x, omap f (g x)) l.
Proof.
  induction l as [|x l IH]; [done|]. simpl. by rewrite omap_app, IH.
Qed.

Lemma fragmentSpreadsOfSelection_text (selection : SelectionNode) :
  fragmentSpreadsOfSelection selection
  = spread_name <$> omap spreadOf (selectionsInText selection).
Proof.
  induction selection
    as [loc alias name directives selections IH
       |loc name directives
       |loc typeCondition directives selections IH]
    using SelectionNode_nested_ind; [|done|].
  - change (flat_map fragmentSpreadsOfSelection selections
            = spread_name
              <$> omap spreadOf (flat_map selectionsInText selections)).
    rewrite omap_flat_map. induction IH as [|s l Hs _ IHl]; [done|].
    simpl. by rewrite fmap_app, Hs, IHl.
  - change (flat_map fragmentSpreadsOfSelection selections
            = spread_name
              <$> omap spreadOf (flat_map selectionsInText selections)).
    rewrite omap_flat_map. induction IH as [|s l Hs _ IHl]; [done|].
    simpl. by rewrite fmap_app, Hs, IHl.
Qed.

(** The scanner of the loop finds the spreads that are written. *)
Lemma fragmentSpreads_text (definition : ExecutableDefinitionNode) :
  fragmentSpreads definition = spreadNamesInText definition.
Proof.
  unfold fragmentSpreads, spreadNamesInText, spreadsInText.
  rewrite omap_flat_map.
  induction (selectionSetOf definition) as [|s l IH]; [done|].
  simpl. by rewrite fmap_app, fragmentSpreadsOfSelection_text, IH.
Qed.

(** C3. For every snapshot and operation [O], the result of
    [getOperationWithFragments] (a function of the snapshot and [O]) is [O]
    followed by fragments of the registry whose names are all the registered
    fragment names of the spreads written in the definitions of the result,
    in the order in which they first occur when these definitions are read
    one after the other; each fragment is spread by a definition placed
    before it, so only reachable fragments occur. An operation in which no
    fragment spread is written yields exactly [[O]]. *)
Theorem closure_breadth_first_order (docs : list GraphQLDocument)
    (O : OperationDefinitionNode) :
  ∃ fs,
    getOperationWithFragments docs O
    = ExecutableOperation O :: (ExecutableFragment <$> fs)
    ∧ (∀ f, f ∈ fs →
         JsObject.get (fragments docs) (fragment_name f) = Some f)
    ∧ fragment_name <$> fs
      = firstOccurrences ∅
          (filter (λ n, is_Some (JsObject.get (fragments docs) n))
             (flat_map spreadNamesInText (getOperationWithFragments docs O)))
    ∧ (∀ i f, fs !! i = Some f →
         ∃ d, d ∈ take (S i) (getOperationWithFragments docs O)
              ∧ fragment_name f ∈ spreadNamesInText d)
    ∧ ((∀ selection,
          selection ∈ flat_map selectionsInText (operation_selectionSet O) →
          spreadOf selection = None) →
       getOperationWithFragments docs O = [ExecutableOperation O]).
Proof.
  destruct (getOperationWithFragments_spec docs O)
    as (fs & Hrun & Hnodup & Hreg & Horder & Hcausal).
  assert (Htext : flat_map spreadNamesInText (getOperationWithFragments docs O)
                  = flat_map fragmentSpreads
                      (getOperationWithFragments docs O)).
  { apply flat_map_ext_Forall, Forall_forall. intros d _.
    by rewrite fragmentSpreads_text. }
  exists fs. split; [done|]. split; [done|].
  split; [by rewrite Htext|]. split.
  - intros i f Hf. destruct (Hcausal i f Hf) as (d & Hd & Hspread).
    exists d. by rewrite <- fragmentSpreads_text.
  - intros Hnone. rewrite Hrun. destruct fs as [|f fs]; [done|].
    destruct (Hcausal 0 f) as (d & Hd & Hspread); [done|].
    rewrite Hrun in Hd. simpl in Hd. apply list_elem_of_singleton in Hd as ->.
    rewrite fragmentSpreads_text in Hspread.
    unfold spreadNamesInText, spreadsInText in Hspread.
    apply list_elem_of_fmap in Hspread as (node & _ & Hnode).
    apply list_elem_of_omap in Hnode as (selection & Hselection & Hsome).
    rewrite (Hnone selection Hselection) in Hsome. done.
Qed.

(** ** Further properties of the registry *)

Lemma scannedDefinitions_app (docs1 docs2 : list GraphQLDocument) :
  scannedDefinitions (docs1 ++ docs2)
  = scannedDefinitions docs1 ++ scannedDefinitions docs2.
Proof. unfold scannedDefinitions. apply flat_map_app. Qed.

Lemma fragmentsNamed_app (name : string) (docs1 docs2 : list GraphQLDocument) :
  fragmentsNamed name (docs1 ++ docs2)
  = fragmentsNamed name docs1 ++ fragmentsNamed name docs2.
Proof.
  unfold fragmentsNamed, scannedFragments.
  by rewrite scannedDefinitions_app, omap_app, filter_app.
Qed.

Lemma operationsNamed_app (name : string) (docs1 docs2 : list GraphQLDocument) :
  operationsNamed name (docs1 ++ docs2)
  = operationsNamed name docs1 ++ operationsNamed name docs2.
Proof.
  unfold operationsNamed, scannedOperations.
  by rewrite scannedDefinitions_app, omap_app, filter_app.
Qed.

Lemma anonymousOperations_app (docs1 docs2 : list GraphQLDocument) :
  anonymousOperations (docs1 ++ docs2)
  = anonymousOperations docs1 ++ anonymousOperations docs2.
Proof.
  unfold anonymousOperations, scannedOperations.
  by rewrite scannedDefinitions_app, omap_app, filter_app.
Qed.

(** X1. Scanning a snapshot that is one list of documents followed by
    another gives, for every name, the fragment the second list registers
    under it, and the one the first list registers only if the second has
    none. *)
Theorem fragments_app (docs1 docs2 : list GraphQLDocument) (name : string) :
  JsObject.get (fragments (docs1 ++ docs2)) name
  = match JsObject.get (fragments docs2) name with
    | Some f => Some f
    | None => JsObject.get (fragments docs1) name
    end.
Proof. by rewrite !fragments_get, fragmentsNamed_app, last_app. Qed.

(** X2. On a snapshot that is one list of documents followed by another, the
    [operations] getter throws what it throws on the first list; if the
    first list is fine it throws what it throws on the second; and if both
    are fine it maps every name to the operation of the second list, or else
    of the first. *)
Theorem operations_app (docs1 docs2 : list GraphQLDocument) :
  (∀ e, operations docs1 = Throw e → operations (docs1 ++ docs2) = Throw e)
  ∧ (∀ ops1 e, operations docs1 = Normal ops1 → operations docs2 = Throw e →
       operations (docs1 ++ docs2) = Throw e)
  ∧ (∀ ops1 ops2,
       operations docs1 = Normal ops1 → operations docs2 = Normal ops2 →
       ∃ ops, operations (docs1 ++ docs2) = Normal ops
              ∧ ∀ name,
                  JsObject.get ops name
                  = match JsObject.get ops2 name with
                    | Some o => Some o
                    | None => JsObject.get ops1 name
                    end).
Proof.
  pose proof (operations_spec docs1) as H1.
  pose proof (operations_spec docs2) as H2.
  pose proof (operations_spec (docs1 ++ docs2)) as H12.
  rewrite anonymousOperations_app, head_app in H12.
  destruct (head (anonymousOperations docs1)) as [o1|].
  - rewrite H1, H12. split; [intros e [= <-]; done|]. split; by intros.
  - destruct H1 as (ops1' & Hrun1 & Hget1). rewrite Hrun1.
    split; [by intros|].
    destruct (head (anonymousOperations docs2)) as [o2|].
    + rewrite H2, H12. split; [by intros ops1 e _ [= <-]|]. by intros.
    + destruct H2 as (ops2' & Hrun2 & Hget2). rewrite Hrun2.
      destruct H12 as (ops & Hrun & Hget). split; [by intros|].
      intros ops1 ops2 [= <-] [= <-]. exists ops. split; [done|].
      intros name. by rewrite Hget, Hget1, Hget2, operationsNamed_app, last_app.
Qed.

Lemma keys_put_old {A : Type} (o : JsObject.t A) (key : string) (value : A) :
  key ∈ JsObject.keys o →
  JsObject.keys (JsObject.put o key value) = JsObject.keys o.
Proof.
  unfold JsObject.keys. induction o as [|[k v] o IH]; simpl; intros Hin.
  - by apply elem_of_nil in Hin.
  - destruct (decide (k = key)) as [->|Hne]; simpl; [done|].
    rewrite IH; [done|]. apply elem_of_cons in Hin as [?|?]; [congruence|done].
Qed.

Lemma keys_put_new {A : Type} (o : JsObject.t A) (key : string) (value : A) :
  key ∉ JsObject.keys o →
  JsObject.keys (JsObject.put o key value) = JsObject.keys o ++ [key].
Proof.
  unfold JsObject.keys. induction o as [|[k v] o IH]; simpl; intros Hnotin.
  - done.
  - destruct (decide (k = key)) as [->|Hne]; simpl.
    + destruct Hnotin. left.
    + rewrite IH; [done|]. intros Hin. apply Hnotin. by right.
Qed.

Lemma keys_get_values {A : Type} (o : JsObject.t A) :
  NoDup (JsObject.keys o) →
  Forall2 (λ key value, JsObject.get o key = Some value)
    (JsObject.keys o) (JsObject.values o).
Proof.
  induction o as [|[k v] o IH]; simpl; intros Hnodup; [constructor|].
  apply NoDup_cons in Hnodup as [Hk Hnodup]. constructor.
  - by rewrite decide_True.
  - eapply Forall2_impl; [by apply IH|]. simpl. intros k' v' Hget.
    rewrite decide_False; [done|]. intros ->.
    by apply get_Some_keys in Hget.
Qed.

Lemma keys_addFragmentDefinitions (defs : list DefinitionNode)
    (o : JsObject.t FragmentDefinitionNode) :
  JsObject.keys (foldl addFragmentDefinition o defs)
  = JsObject.keys o
    ++ firstOccurrences (list_to_set (JsObject.keys o))
         (fragment_name <$> omap asFragmentDefinition defs).
Proof.
  revert o. induction defs as [|d defs IH]; intros o.
  - by rewrite app_nil_r.
  - simpl. rewrite IH. destruct d as [op|f|dd|ext|k n]; simpl; try done.
    destruct (decide (fragment_name f ∈ JsObject.keys o)) as [Hin|Hnotin].
    + rewrite keys_put_old by done.
      rewrite decide_True; [done|]. by apply elem_of_list_to_set.
    + rewrite keys_put_new by done.
      rewrite decide_False by (by rewrite elem_of_list_to_set).
      rewrite <- app_assoc. simpl. do 3 f_equal.
      rewrite list_to_set_app_L. simpl. set_solver.
Qed.

Lemma keys_addOperationDefinitions (defs : list DefinitionNode)
    (ops ops' : JsObject.t OperationDefinitionNode) :
  addOperationDefinitions ops defs = Normal ops' →
  JsObject.keys ops'
  = JsObject.keys ops
    ++ firstOccurrences (list_to_set (JsObject.keys ops))
         (omap operation_name (omap asOperationDefinition defs)).
Proof.
  revert ops. induction defs as [|d defs IH]; intros ops; simpl.
  - intros [= <-]. by rewrite app_nil_r.
  - destruct d as [op|f|dd|ext|k n]; simpl; try apply IH.
    destruct (operation_name op) as [name|] eqn:Hname; [|done].
    intros Hrun. apply IH in Hrun. rewrite Hrun. simpl.
    destruct (decide (name ∈ JsObject.keys ops)) as [Hin|Hnotin].
    + rewrite keys_put_old by done.
      rewrite decide_True; [done|]. by apply elem_of_list_to_set.
    + rewrite keys_put_new by done.
      rewrite decide_False by (by rewrite elem_of_list_to_set).
      rewrite <- app_assoc. simpl. do 3 f_equal.
      rewrite list_to_set_app_L. simpl. set_solver.
Qed.

(** X3. The registry objects list their entries in the order in which each
    name is first scanned, every name once, and hold under each name the
    last definition scanned with it: a definition that is redefined keeps
    the place of the first and takes the content of the last. For the
    [operations] getter this holds whenever it returns. *)
Theorem registry_insertion_order (docs : list GraphQLDocument) :
  (JsObject.keys (fragments docs)
   = firstOccurrences ∅ (fragment_name <$> scannedFragments docs)
   ∧ NoDup (JsObject.keys (fragments docs))
   ∧ Forall2 (λ name f, last (fragmentsNamed name docs) = Some f)
       (JsObject.keys (fragments docs)) (JsObject.values (fragments docs)))
  ∧ (∀ ops,
       operations docs = Normal ops →
       JsObject.keys ops
       = firstOccurrences ∅ (omap operation_name (scannedOperations docs))
       ∧ NoDup (JsObject.keys ops)
       ∧ Forall2 (λ name o, last (operationsNamed name docs) = Some o)
           (JsObject.keys ops) (JsObject.values ops)).
Proof.
  split.
  - assert (Hkeys : JsObject.keys (fragments docs)
                    = firstOccurrences ∅
                        (fragment_name <$> scannedFragments docs)).
    { unfold fragments, scannedFragments.
      rewrite fragments_scanned, keys_addFragmentDefinitions. simpl.
      f_equal. }
    assert (Hnodup : NoDup (JsObject.keys (fragments docs)))
      by (rewrite Hkeys; apply firstOccurrences_NoDup).
    split; [done|]. split; [done|].
    eapply Forall2_impl; [by apply keys_get_values|]. simpl.
    intros name f. by rewrite fragments_get.
  - intros ops Hrun.
    assert (Hkeys : JsObject.keys ops
                    = firstOccurrences ∅
                        (omap operation_name (scannedOperations docs))).
    { unfold operations in Hrun. rewrite operations_scanned in Hrun.
      apply keys_addOperationDefinitions in Hrun. rewrite Hrun. simpl.
      f_equal. }
    assert (Hnodup : NoDup (JsObject.keys ops))
      by (rewrite Hkeys; apply firstOccurrences_NoDup).
    split; [done|]. split; [done|].
    pose proof (operations_spec docs) as Hspec.
    destruct (head (anonymousOperations docs)); [congruence|].
    destruct Hspec as (ops' & Hrun' & Hget).
    rewrite Hrun in Hrun'. injection Hrun' as <-.
    eapply Forall2_impl; [by apply keys_get_values|]. simpl.
    intros name o. by rewrite Hget.
Qed.

(** ** Further properties of the closure resolver *)

(** X4. The fragments of the result of [getOperationWithFragments] are
    exactly the fragments of the registry that a chain of spreads of
    registered names reaches from the operation: nothing reachable is
    missing (the printed result defines every registered fragment it
    spreads) and nothing unreachable is included. *)
Theorem closure_is_reachable_set (docs : list GraphQLDocument)
    (O : OperationDefinitionNode) (f : FragmentDefinitionNode) :
  ExecutableFragment f ∈ getOperationWithFragments docs O
  ↔ reachable (fragments docs) (ExecutableOperation O) f.
Proof.
  split.
  - destruct (getOperationWithFragments_spec docs O)
      as (fs & Hrun & _ & Hreg & _ & Hcausal).
    rewrite Hrun. intros Hin.
    apply elem_of_cons in Hin as [Hin|Hin]; [done|].
    apply list_elem_of_fmap in Hin as (f' & [= <-] & Hin).
    apply list_elem_of_lookup in Hin as [i Hi].
    revert f Hi. induction (lt_wf i) as [i _ IH]. intros f Hi.
    destruct (Hcausal i f Hi) as (d & Hd & Hspread).
    assert (Hf : JsObject.get (fragments docs) (fragment_name f) = Some f).
    { apply Hreg. by eapply list_elem_of_lookup_2. }
    rewrite Hrun in Hd. simpl in Hd.
    apply elem_of_cons in Hd as [->|Hd]; [by apply reachable_spread|].
    rewrite <- fmap_take in Hd.
    apply list_elem_of_fmap in Hd as (g & -> & Hg).
    apply elem_of_take in Hg as (j & Hj & Hlt).
    eapply reachable_step; [|done..]. by apply (IH j).
  - induction 1 as [f Hspread Hf|g f _ IH Hspread Hf].
    + apply (getOperationWithFragments_closed _ _ (ExecutableOperation O));
        [|done..].
      destruct (getOperationWithFragments_spec docs O) as (fs & -> & _). left.
    + by apply (getOperationWithFragments_closed _ _ (ExecutableFragment g)).
Qed.

(** X5. The result of [getOperationWithFragments] is never longer than the
    operation plus one definition per name of the fragment registry. *)
Theorem closure_length_bound (docs : list GraphQLDocument)
    (O : OperationDefinitionNode) :
  length (getOperationWithFragments docs O)
  ≤ S (length (JsObject.keys (fragments docs))).
Proof.
  destruct (getOperationWithFragments_spec docs O)
    as (fs & Hrun & _ & Hreg & Hnames & _).
  rewrite Hrun. simpl. rewrite length_fmap.
  rewrite <- (length_fmap fragment_name). apply le_n_S, submseteq_length.
  apply NoDup_submseteq.
  - rewrite Hnames. apply firstOccurrences_NoDup.
  - intros name Hname. apply list_elem_of_fmap in Hname as (f & -> & Hf).
    by eapply get_Some_keys, Hreg.
Qed.

(** ** [fragmentSpreadsForFragment] *)

Lemma fragmentSpreadNodes_names (selection : SelectionNode) :
  spread_name <$> fragmentSpreadNodesOfSelection selection
  = fragmentSpreadsOfSelection selection.
Proof.
  induction selection
    as [loc alias name directives selections IH
       |loc name directives
       |loc typeCondition directives selections IH]
    using SelectionNode_nested_ind; simpl; [|done|].
  - induction IH as [|s l Hs _ IHl]; [done|]. simpl.
    by rewrite fmap_app, Hs, IHl.
  - induction IH as [|s l Hs _ IHl]; [done|]. simpl.
    by rewrite fmap_app, Hs, IHl.
Qed.

Lemma fragmentSpreadNodesOfSelections_names (selections : list SelectionNode) :
  spread_name <$> flat_map fragmentSpreadNodesOfSelection selections
  = flat_map fragmentSpreadsOfSelection selections.
Proof.
  induction selections as [|s l IH]; [done|]. simpl.
  by rewrite fmap_app, fragmentSpreadNodes_names, IH.
Qed.

Lemma fragmentSpreadNodesOfDefinition_names (definition : DefinitionNode) :
  spread_name <$> fragmentSpreadNodesOfDefinition definition
  = spreadNamesOfDefinition definition.
Proof.
  destruct definition as [op|f|dd|ext|k n]; simpl; try done;
    apply fragmentSpreadNodesOfSelections_names.
Qed.

Lemma pushSpreadNamed_fold (fragmentName : string)
    (nodes acc : list FragmentSpreadNode) :
  foldl (pushSpreadNamed fragmentName) acc nodes
  = acc ++ filter (λ node, spread_name node = fragmentName) nodes.
Proof.
  revert acc. induction nodes as [|node nodes IH]; intros acc; simpl.
  - by rewrite app_nil_r.
  - rewrite IH, filter_cons. unfold pushSpreadNamed.
    destruct (decide (spread_name node = fragmentName)); [|done].
    by rewrite <- app_assoc.
Qed.

Lemma fragmentSpreadsForFragment_scanned (docs : list GraphQLDocument)
    (fragmentName : string) :
  fragmentSpreadsForFragment docs fragmentName
  = filter (λ node, spread_name node = fragmentName)
      (flat_map fragmentSpreadNodesOfDefinition (scannedDefinitions docs)).
Proof.
  unfold fragmentSpreadsForFragment.
  rewrite <- (app_nil_l (filter _ _)). generalize (@nil FragmentSpreadNode).
  induction docs as [|doc docs IH]; intros acc; simpl.
  - by rewrite app_nil_r.
  - rewrite IH. unfold scannedDefinitions. simpl.
    rewrite flat_map_app, filter_app.
    destruct (ast doc) as [a|]; simpl; [|done].
    by rewrite pushSpreadNamed_fold, <- app_assoc.
Qed.

Lemma fmap_filter_spread_name (fragmentName : string)
    (nodes : list FragmentSpreadNode) :
  spread_name <$> filter (λ node, spread_name node = fragmentName) nodes
  = filter (λ name, name = fragmentName) (spread_name <$> nodes).
Proof.
  induction nodes as [|node nodes IH]; [done|].
  rewrite fmap_cons, !filter_cons.
  destruct (decide (spread_name node = fragmentName)); [|done].
  by rewrite fmap_cons, IH.
Qed.

Lemma fmap_flat_map {A B C : Type} (f : B → C) (g : A → list B) (l : list A) :
  f <$> flat_map g l = flat_map (λ x, f <$> g x) l.
Proof. induction l as [|x l IH]; [done|]. simpl. by rewrite fmap_app, IH. Qed.

Lemma fragmentSpreadsForFragment_names (docs : list GraphQLDocument)
    (fragmentName : string) :
  spread_name <$> fragmentSpreadsForFragment docs fragmentName
  = filter (λ name, name = fragmentName)
      (flat_map spreadNamesOfDefinition (scannedDefinitions docs)).
Proof.
  rewrite fragmentSpreadsForFragment_scanned, fmap_filter_spread_name.
  f_equal. rewrite fmap_flat_map. apply flat_map_ext_Forall, Forall_forall.
  intros d _. apply fragmentSpreadNodesOfDefinition_names.
Qed.

Lemma fragmentSpreadNodesOfSelection_text (selection : SelectionNode) :
  fragmentSpreadNodesOfSelection selection
  = omap spreadOf (selectionsInText selection).
Proof.
  induction selection
    as [loc alias name directives selections IH
       |loc name directives
       |loc typeCondition directives selections IH]
    using SelectionNode_nested_ind; [|done|].
  - change (flat_map fragmentSpreadNodesOfSelection selections
            = omap spreadOf (flat_map selectionsInText selections)).
    rewrite omap_flat_map. induction IH as [|s l Hs _ IHl]; [done|].
    simpl. by rewrite Hs, IHl.
  - change (flat_map fragmentSpreadNodesOfSelection selections
            = omap spreadOf (flat_map selectionsInText selections)).
    rewrite omap_flat_map. induction IH as [|s l Hs _ IHl]; [done|].
    simpl. by rewrite Hs, IHl.
Qed.

Lemma fragmentSpreadNodesOfDefinition_text (definition : DefinitionNode) :
  fragmentSpreadNodesOfDefinition definition
  = match executableOf definition with
    | Some executable => spreadsInText executable
    | None => []
    end.
Proof.
  destruct definition as [op|f|dd|ext|k n]; simpl; try done;
    unfold spreadsInText; rewrite omap_flat_map;
    apply flat_map_ext_Forall, Forall_forall; intros s _;
    apply fragmentSpreadNodesOfSelection_text.
Qed.

Lemma flat_map_omap {A B C : Type} (f : A → option B) (g : B → list C)
    (l : list A) :
  flat_map g (omap f l)
  = flat_map (λ x, match f x with Some y => g y | None => [] end) l.
Proof.
  induction l as [|x l IH]; [done|].
  change (flat_map g (omap f (x :: l)))
    with (flat_map g (match f x with
                      | Some y => y :: omap f l
                      | None => omap f l
                      end)).
  change (flat_map (λ x, match f x with Some y => g y | None => [] end)
            (x :: l))
    with (match f x with Some y => g y | None => [] end
          ++ flat_map (λ x, match f x with Some y => g y | None => [] end) l).
  rewrite <- IH. by destruct (f x).
Qed.

(** X6. [fragmentSpreadsForFragment] returns the spreads of the given name
    written in the operations and fragments of the parsed documents: each
    such spread node as it is written (location and directives included),
    once for every time it is written, in the order of the documents and of
    the text. In particular every node returned has that name, the names
    agree with what the scanner of the closure finds, and the result is
    empty exactly when no definition spreads the name. *)
Theorem fragmentSpreadsForFragment_spec (docs : list GraphQLDocument)
    (fragmentName : string) :
  fragmentSpreadsForFragment docs fragmentName
  = filter (λ node, spread_name node = fragmentName)
      (flat_map spreadsInText (omap executableOf (scannedDefinitions docs)))
  ∧ spread_name <$> fragmentSpreadsForFragment docs fragmentName
    = filter (λ name, name = fragmentName)
        (flat_map spreadNamesOfDefinition (scannedDefinitions docs))
  ∧ (∀ node, node ∈ fragmentSpreadsForFragment docs fragmentName →
             spread_name node = fragmentName)
  ∧ (fragmentSpreadsForFragment docs fragmentName = []
     ↔ ∀ d, d ∈ scannedDefinitions docs →
            fragmentName ∉ spreadNamesOfDefinition d).
Proof.
  split.
  { rewrite fragmentSpreadsForFragment_scanned, flat_map_omap. f_equal.
    apply flat_map_ext_Forall, Forall_forall. intros d _.
    apply fragmentSpreadNodesOfDefinition_text. }
  split; [apply fragmentSpreadsForFragment_names|]. split.
  - intros node. rewrite fragmentSpreadsForFragment_scanned.
    by intros [? _]%list_elem_of_filter.
  - split.
    + intros Hnil d Hd Hspread.
      assert (Hin : fragmentName
                    ∈ spread_name <$> fragmentSpreadsForFragment docs fragmentName).
      { rewrite fragmentSpreadsForFragment_names.
        apply list_elem_of_filter. split; [done|].
        apply list_elem_of_In, in_flat_map. exists d.
        by rewrite <- !list_elem_of_In. }
      rewrite Hnil in Hin. by apply elem_of_nil in Hin.
    + intros Hnone. apply (fmap_nil_inv spread_name).
      rewrite fragmentSpreadsForFragment_names.
      destruct (filter _ _) as [|name l] eqn:Hfilter; [done|].
      assert (Hin : name ∈ filter (λ name, name = fragmentName)
                      (flat_map spreadNamesOfDefinition
                         (scannedDefinitions docs)))
        by (rewrite Hfilter; left).
      apply list_elem_of_filter in Hin as [-> Hin].
      apply list_elem_of_In, in_flat_map in Hin as (d & Hd & Hspread).
      apply list_elem_of_In in Hd. apply list_elem_of_In in Hspread.
      by destruct (Hnone d).
Qed.

(** X7. Every fragment in the closure of an operation of the snapshot is
    spread somewhere in the snapshot: [fragmentSpreadsForFragment] finds at
    least one spread of its name. *)
Theorem closure_fragments_are_spread (docs : list GraphQLDocument)
    (O : OperationDefinitionNode) (f : FragmentDefinitionNode) :
  O ∈ scannedOperations docs →
  ExecutableFragment f ∈ getOperationWithFragments docs O →
  fragmentSpreadsForFragment docs (fragment_name f) ≠ [].
Proof.
  intros HO Hin Hnil.
  assert (Hscanned : ∀ d : DefinitionNode,
            d ∈ scannedDefinitions docs →
            fragment_name f ∉ spreadNamesOfDefinition d).
  { intros d Hd Hspread.
    assert (Hname : fragment_name f
                    ∈ spread_name
                      <$> fragmentSpreadsForFragment docs (fragment_name f)).
    { rewrite fragmentSpreadsForFragment_names.
      apply list_elem_of_filter. split; [done|].
      apply list_elem_of_In, in_flat_map. exists d.
      by rewrite <- !list_elem_of_In. }
    rewrite Hnil in Hname. by apply elem_of_nil in Hname. }
  destruct (getOperationWithFragments_spec docs O)
    as (fs & Hrun & _ & Hreg & _ & Hcausal).
  rewrite Hrun in Hin. apply elem_of_cons in Hin as [Hin|Hin]; [done|].
  apply list_elem_of_fmap in Hin as (f' & [= <-] & Hin).
  apply list_elem_of_lookup in Hin as [i Hi].
  destruct (Hcausal i f Hi) as (d & Hd & Hspread).
  rewrite Hrun in Hd. simpl in Hd. apply elem_of_cons in Hd as [->|Hd].
  - apply list_elem_of_omap in HO as (d & Hd & Hop).
    destruct d as [op| | | |]; simplify_eq/=. by apply (Hscanned _ Hd).
  - rewrite <- fmap_take in Hd.
    apply list_elem_of_fmap in Hd as (g & -> & Hg).
    apply elem_of_take in Hg as (j & Hj & _).
    apply list_elem_of_lookup_2, Hreg, fragments_get_Some in Hj as [_ Hg].
    apply list_elem_of_omap in Hg as (d & Hd & Hfrag).
    destruct d as [|fd| | |]; simplify_eq/=. by apply (Hscanned _ Hd).
Qed.

Lemma fragments_keys (docs : list GraphQLDocument) :
  JsObject.keys (fragments docs)
  = firstOccurrences ∅ (fragment_name <$> scannedFragments docs).
Proof.
  unfold fragments, scannedFragments.
  rewrite fragments_scanned, keys_addFragmentDefinitions. simpl. f_equal.
Qed.

Lemma operations_keys (docs : list GraphQLDocument)
    (ops : JsObject.t OperationDefinitionNode) :
  operations docs = Normal ops →
  JsObject.keys ops
  = firstOccurrences ∅ (omap operation_name (scannedOperations docs)).
Proof.
  unfold operations. rewrite operations_scanned.
  intros Hrun%keys_addOperationDefinitions. rewrite Hrun. simpl. f_equal.
Qed.

Lemma operations_get (docs : list GraphQLDocument)
    (ops : JsObject.t OperationDefinitionNode) (name : string) :
  operations docs = Normal ops →
  JsObject.get ops name = last (operationsNamed name docs).
Proof.
  intros Hrun. pose proof (operations_spec docs) as Hspec.
  destruct (head (anonymousOperations docs)); [congruence|].
  destruct Hspec as (ops' & Hrun' & Hget).
  rewrite Hrun in Hrun'. injection Hrun' as <-. apply Hget.
Qed.

Lemma values_names {A : Type} (key : A → string) (o : JsObject.t A) :
  NoDup (JsObject.keys o) →
  (∀ k v, JsObject.get o k = Some v → key v = k) →
  key <$> JsObject.values o = JsObject.keys o.
Proof.
  intros Hnodup Hkey. pose proof (keys_get_values o Hnodup) as Hall.
  clear Hnodup. induction Hall as [|k v ks vs Hget _ IH]; [done|].
  rewrite fmap_cons, IH. by rewrite (Hkey k v Hget).
Qed.

Lemma fragments_values_names (docs : list GraphQLDocument) :
  fragment_name <$> JsObject.values (fragments docs)
  = JsObject.keys (fragments docs).
Proof.
  apply values_names.
  - rewrite fragments_keys. apply firstOccurrences_NoDup.
  - intros k f Hget. by apply fragments_get_Some in Hget as [? _].
Qed.

Lemma operations_values_names (docs : list GraphQLDocument)
    (ops : JsObject.t OperationDefinitionNode) :
  operations docs = Normal ops →
  operation_name <$> JsObject.values ops = Some <$> JsObject.keys ops.
Proof.
  intros Hrun.
  assert (Hnodup : NoDup (JsObject.keys ops))
    by (rewrite (operations_keys docs ops Hrun); apply firstOccurrences_NoDup).
  pose proof (keys_get_values ops Hnodup) as Hall.
  clear Hnodup. induction Hall as [|k o ks os Hget _ IH]; [done|].
  rewrite !fmap_cons, IH. f_equal.
  rewrite (operations_get docs ops k Hrun) in Hget.
  apply last_Some_elem_of in Hget. by apply list_elem_of_filter in Hget as [? _].
Qed.

(** ** Strings, statistics and the files of a project *)

Lemma filter_none {A : Type} (P : A → Prop) `{!∀ x, Decision (P x)}
    (l : list A) :
  Forall (λ x, ¬ P x) l → filter P l = [].
Proof.
  induction 1 as [|x l Hx _ IH]; [done|]. by rewrite filter_cons_False.
Qed.

Lemma filter_all {A : Type} (P : A → Prop) `{!∀ x, Decision (P x)}
    (l : list A) :
  Forall P l → filter P l = l.
Proof.
  induction 1 as [|x l Hx _ IH]; [done|]. by rewrite filter_cons_True, IH.
Qed.

Lemma prefix_spec (p s : string) :
  String.prefix p s = true ↔ ∃ post, s = (p ++ post)%string.
Proof.
  revert s. induction p as [|a p IH]; intros s; simpl.
  - destruct s; (split; [intros _; by eexists|done]).
  - destruct s as [|b s]; simpl.
    + split; [done|]. by intros [post Hpost].
    + destruct (ascii_dec a b) as [->|Hne].
      * rewrite IH. split; intros [post Hpost]; exists post.
        -- change (String b s = String b (p ++ post)%string). congruence.
        -- change (String b s = String b (p ++ post)%string) in Hpost.
           congruence.
      * split; [done|]. intros [post Hpost].
        change (String b s = String a (p ++ post)%string) in Hpost.
        congruence.
Qed.

Lemma stringIncludes_spec (s searchString : string) :
  stringIncludes s searchString = true
  ↔ ∃ pre post, s = (pre ++ searchString ++ post)%string.
Proof.
  induction s as [|c s IH].
  - destruct searchString as [|a w]; simpl.
    + split; [|done]. intros _. by exists ""%string, ""%string.
    + split; [done|]. intros (pre & post & Hs).
      destruct pre; discriminate Hs.
  - change (stringIncludes (String c s) searchString)
      with (String.prefix searchString (String c s)
            || stringIncludes s searchString).
    rewrite orb_true_iff, prefix_spec, IH. split.
    + intros [[post Hpost]|(pre & post & Hs)].
      * by exists ""%string, post.
      * exists (String c pre), post.
        change (String c s
                = String c (pre ++ searchString ++ post)%string).
        by rewrite Hs.
    + intros (pre & post & Hs). destruct pre as [|c' pre].
      * left. by exists post.
      * right. exists pre, post.
        change (String c s
                = String c' (pre ++ searchString ++ post)%string) in Hs.
        congruence.
Qed.

(** X19. [filterTypes] drops a type name exactly when it starts with two
    underscores or contains, anywhere, one of the words Boolean, ID, Int,
    String and Float: only the first alternative of the regular expression
    is anchored. *)
Theorem filterTypes_spec (type : string) :
  filterTypes type = false
  ↔ (∃ post, type = ("__" ++ post)%string)
    ∨ ∃ word pre post,
        word ∈ ["Boolean"; "ID"; "Int"; "String"; "Float"]
        ∧ type = (pre ++ word ++ post)%string.
Proof.
  unfold filterTypes. rewrite negb_false_iff, !orb_true_iff.
  rewrite prefix_spec, !stringIncludes_spec. split.
  - intros [[[[[Hprefix|H]|H]|H]|H]|H]; [by left|..];
      destruct H as (pre & post & ->); right; eexists _, pre, post;
      (split; [|reflexivity]); set_solver.
  - intros [Hprefix|(word & pre & post & Hword & ->)].
    { by repeat left. }
    repeat (apply elem_of_cons in Hword as [->|Hword]);
      [..|by apply elem_of_nil in Hword]; eauto 10.
Qed.

(** X20. The constructor warns of a project without files exactly when
    every included file is left out by [filterConfigAndEnvFiles]: its path
    contains [apollo.config] or [.env] somewhere, or is the path of the
    configuration file. A project without any file is warned of. *)
Theorem warnsOfNoFiles_spec (configURI : option string)
    (allIncludedFiles : list string) :
  warnsOfNoFiles configURI allIncludedFiles = true
  ↔ ∀ path,
      path ∈ allIncludedFiles →
      (∃ pre post, path = (pre ++ "apollo.config" ++ post)%string)
      ∨ (∃ pre post, path = (pre ++ ".env" ++ post)%string)
      ∨ configURI = Some path.
Proof.
  unfold warnsOfNoFiles. rewrite bool_decide_eq_true, length_zero_iff_nil.
  assert (Hfilter : ∀ path,
    filterConfigAndEnvFiles configURI path = false
    ↔ (∃ pre post, path = (pre ++ "apollo.config" ++ post)%string)
      ∨ (∃ pre post, path = (pre ++ ".env" ++ post)%string)
      ∨ configURI = Some path).
  { intros path. unfold filterConfigAndEnvFiles.
    rewrite negb_false_iff, !orb_true_iff, !stringIncludes_spec.
    destruct configURI as [fsPath|].
    - rewrite bool_decide_eq_true. naive_solver.
    - naive_solver. }
  split.
  - intros Hnil path Hin. apply Hfilter.
    destruct (filterConfigAndEnvFiles configURI path) eqn:Hkept; [|done].
    assert (Helem : path ∈ filter (λ path, filterConfigAndEnvFiles configURI path)
                      allIncludedFiles).
    { apply list_elem_of_filter. split; [by rewrite Hkept|done]. }
    rewrite Hnil in Helem. by apply elem_of_nil in Helem.
  - intros Hall. apply filter_none, Forall_forall. intros path Hin.
    apply Hall, Hfilter in Hin. simpl. rewrite Hin. by intros [].
Qed.

(** * Further methods of the class *)

(** As before: the functions a section assumes are no implications. *)
Ltac clear_collaborators :=
  repeat match goal with
         | f : ?T |- _ =>
             lazymatch type of T with
             | Prop => fail
             | _ => lazymatch T with _ → _ => clear f end
             end
         end.

Ltac unfold_merged :=
  unfold mergedOperationsAndFragmentsForService, mergedOperationsAndFragments.

Ltac unfold_forService := unfold mergedOperationsAndFragmentsForService.

Ltac unfold_filterOperation := unfold filterOperation.

Ltac unfold_decorationsOfDocument := unfold decorationsOfDocument.

Ltac unfold_decorationsOfFile := unfold decorationsOfFile.

Ltac unfold_generateDecorations := unfold generateDecorations.

Section FurtherMethods.

Context {GraphQLSchema Diagnostic Range ValidationRule : Type}.
Variable getDirectiveNames : GraphQLSchema → list string.
Variable extendSchema : GraphQLSchema → DocumentNode → Completion GraphQLSchema.
Variable getTypeClientSchema :
  GraphQLSchema → string → option (option ClientSchemaInfo).
Variable setTypeClientSchema :
  GraphQLSchema → string → ClientSchemaInfo → GraphQLSchema.
Variable separateOperations : DocumentNode → JsObject.t DocumentNode.
Variable rootTypeName : GraphQLSchema → OperationTypeNode → option string.
Variable isCompositeTypeName : GraphQLSchema → string → bool.
Variable fieldCompositeTypeName : GraphQLSchema → string → string → option string.
Variable print : ExecutableDefinitionNode → string.
Variable compressToEncodedURIComponent : string → string.
Variable stringifyDocumentObject : string → string.
Variable stringifyUrl : string → list (string * option string) → string.
Variable join : string → string → string.
Variable apolloAst : option DocumentNode.
Variable removeDirectives :
  DocumentNode → option (list string) → Completion DocumentNode.
Variable removeDirectiveAnnotatedFields :
  DocumentNode → option (list string) → Completion DocumentNode.
Variable withTypenameFieldAddedWhereNeeded : DocumentNode → DocumentNode.
Variable diagnosticsFromError : GraphQLError → list Diagnostic.
Variable collectExecutableDefinitionDiagnositics :
  option GraphQLSchema → GraphQLDocument →
  JsObject.t FragmentDefinitionNode → option (list ValidationRule) →
  list Diagnostic.
Variable rangeForASTNode : option Location → Range.
Variable formatMS : Qc → nat → string.

(** The methods of the class, with the collaborators of this section. *)
#[local] Abbreviation GraphQLClientProject :=
  (GraphQLClientProject GraphQLSchema Diagnostic ValidationRule).
#[local] Abbreviation Effect := (Effect Diagnostic Range).
#[local] Abbreviation DiagnosticSet := (DiagnosticSet Diagnostic).
#[local] Abbreviation clientSchema :=
  (clientSchema GraphQLSchema getDirectiveNames apolloAst
     Diagnostic ValidationRule).
#[local] Abbreviation mergedOperationsAndFragments :=
  (mergedOperationsAndFragments GraphQLSchema separateOperations
     Diagnostic ValidationRule).
#[local] Abbreviation serviceOnlyDocument :=
  (serviceOnlyDocument removeDirectives removeDirectiveAnnotatedFields
     withTypenameFieldAddedWhereNeeded).
#[local] Abbreviation filterOperation :=
  (filterOperation removeDirectives removeDirectiveAnnotatedFields
     withTypenameFieldAddedWhereNeeded).
#[local] Abbreviation filterOperations :=
  (filterOperations removeDirectives removeDirectiveAnnotatedFields
     withTypenameFieldAddedWhereNeeded).
#[local] Abbreviation mergedOperationsAndFragmentsForService :=
  (mergedOperationsAndFragmentsForService GraphQLSchema separateOperations
     removeDirectives removeDirectiveAnnotatedFields
     withTypenameFieldAddedWhereNeeded Diagnostic ValidationRule).
#[local] Abbreviation visitObjectTypeExtension :=
  (visitObjectTypeExtension GraphQLSchema getTypeClientSchema
     setTypeClientSchema).
#[local] Abbreviation addClientMetadataToSchemaNodes :=
  (addClientMetadataToSchemaNodes GraphQLSchema getDirectiveNames
     getTypeClientSchema setTypeClientSchema apolloAst
     Diagnostic ValidationRule).
#[local] Abbreviation enterField :=
  (enterField GraphQLSchema Diagnostic Range ValidationRule
     rangeForASTNode formatMS).
#[local] Abbreviation enterOperationDefinition :=
  (enterOperationDefinition GraphQLSchema print compressToEncodedURIComponent
     stringifyDocumentObject stringifyUrl join Diagnostic Range ValidationRule
     rangeForASTNode).
#[local] Abbreviation enterSelection :=
  (enterSelection GraphQLSchema isCompositeTypeName fieldCompositeTypeName
     Diagnostic Range ValidationRule rangeForASTNode formatMS).
#[local] Abbreviation enterDefinition :=
  (enterDefinition GraphQLSchema rootTypeName isCompositeTypeName
     fieldCompositeTypeName print compressToEncodedURIComponent
     stringifyDocumentObject stringifyUrl join Diagnostic Range ValidationRule
     rangeForASTNode formatMS).
#[local] Abbreviation decorationsOfDocument :=
  (decorationsOfDocument GraphQLSchema rootTypeName isCompositeTypeName
     fieldCompositeTypeName print compressToEncodedURIComponent
     stringifyDocumentObject stringifyUrl join Diagnostic Range ValidationRule
     rangeForASTNode formatMS).
#[local] Abbreviation decorationsOfFile :=
  (decorationsOfFile GraphQLSchema rootTypeName isCompositeTypeName
     fieldCompositeTypeName print compressToEncodedURIComponent
     stringifyDocumentObject stringifyUrl join Diagnostic Range ValidationRule
     rangeForASTNode formatMS).
#[local] Abbreviation generateDecorations :=
  (generateDecorations GraphQLSchema rootTypeName isCompositeTypeName
     fieldCompositeTypeName print compressToEncodedURIComponent
     stringifyDocumentObject stringifyUrl join Diagnostic Range ValidationRule
     rangeForASTNode formatMS).
#[local] Abbreviation fieldVisitsOfSelection :=
  (fieldVisitsOfSelection GraphQLSchema isCompositeTypeName
     fieldCompositeTypeName).
#[local] Abbreviation fieldVisitsOfDefinition :=
  (fieldVisitsOfDefinition GraphQLSchema rootTypeName isCompositeTypeName
     fieldCompositeTypeName).
#[local] Abbreviation fieldVisitsOfDocument :=
  (fieldVisitsOfDocument GraphQLSchema rootTypeName isCompositeTypeName
     fieldCompositeTypeName).
#[local] Abbreviation fieldVisits :=
  (fieldVisits GraphQLSchema rootTypeName isCompositeTypeName
     fieldCompositeTypeName Diagnostic ValidationRule).
#[local] Abbreviation composeOrFallBack :=
  (composeOrFallBack GraphQLSchema getDirectiveNames extendSchema
     getTypeClientSchema setTypeClientSchema apolloAst Diagnostic Range
     ValidationRule diagnosticsFromError).
#[local] Abbreviation validateFile :=
  (validateFile GraphQLSchema Diagnostic ValidationRule
     collectExecutableDefinitionDiagnositics).
#[local] Abbreviation validateDocuments :=
  (validateDocuments GraphQLSchema Diagnostic ValidationRule
     collectExecutableDefinitionDiagnositics).
#[local] Abbreviation diagnosticsCallbacks :=
  (diagnosticsCallbacks Diagnostic Range).
#[local] Abbreviation validate :=
  (validate GraphQLSchema getDirectiveNames extendSchema getTypeClientSchema
     setTypeClientSchema rootTypeName isCompositeTypeName
     fieldCompositeTypeName print compressToEncodedURIComponent
     stringifyDocumentObject stringifyUrl join apolloAst Diagnostic Range
     ValidationRule diagnosticsFromError
     collectExecutableDefinitionDiagnositics rangeForASTNode formatMS).

(** ** The merged document and its projection *)

(** X8. When the [operations] getter returns, the document that
    [mergedOperationsAndFragments] hands to [separateOperations] lists the
    registered fragments first and the registered operations after them,
    holds no two fragments and no two operations of the same name, holds no
    anonymous operation, and holds a definition for every fragment name and
    every operation name scanned. *)
Theorem mergedOperationsAndFragments_document
    (project : GraphQLClientProject)
    (ops : JsObject.t OperationDefinitionNode) :
  operations (documents project) = Normal ops →
  mergedOperationsAndFragments project
  = Normal
      (separateOperations
         {| definitions :=
              (FragmentDefinition
               <$> JsObject.values (fragments (documents project)))
              ++ (OperationDefinition <$> JsObject.values ops) |})
  ∧ NoDup (fragment_name <$> JsObject.values (fragments (documents project)))
  ∧ NoDup (operation_name <$> JsObject.values ops)
  ∧ (∀ o, o ∈ JsObject.values ops → operation_name o ≠ None)
  ∧ (∀ f, f ∈ scannedFragments (documents project) →
          fragment_name f
          ∈ fragment_name <$> JsObject.values (fragments (documents project)))
  ∧ (∀ o, o ∈ scannedOperations (documents project) →
          operation_name o ∈ operation_name <$> JsObject.values ops).
Proof.
  intros Hrun. clear_collaborators.
  pose proof (operations_values_names _ _ Hrun) as Hnames.
  split; [|split; [|split; [|split; [|split]]]].
  - unfold_merged. by rewrite Hrun.
  - rewrite fragments_values_names, fragments_keys.
    apply firstOccurrences_NoDup.
  - rewrite Hnames. apply NoDup_fmap_2; [by intros ?? [=]|].
    rewrite (operations_keys _ _ Hrun). apply firstOccurrences_NoDup.
  - intros o Ho Hnone.
    assert (Hin : operation_name o ∈ operation_name <$> JsObject.values ops)
      by (by apply list_elem_of_fmap_2).
    rewrite Hnames, Hnone in Hin.
    by apply list_elem_of_fmap in Hin as (? & ? & _).
  - intros f Hf. rewrite fragments_values_names, fragments_keys.
    apply firstOccurrences_elem_of. split; [|set_solver].
    by apply list_elem_of_fmap_2.
  - intros o Ho. rewrite Hnames, (operations_keys _ _ Hrun).
    pose proof (operations_spec (documents project)) as Hspec.
    destruct (head (anonymousOperations (documents project))) eqn:Hhead;
      [congruence|].
    apply head_None in Hhead.
    pose proof (proj1 (anonymousOperations_nil _) Hhead) as Hnamed.
    destruct (operation_name o) as [name|] eqn:Hname;
      [|by destruct (Hnamed o Ho)].
    apply list_elem_of_fmap_2, firstOccurrences_elem_of.
    split; [|set_solver].
    apply list_elem_of_omap. by exists o.
Qed.

(** X9. An anonymous operation anywhere in the snapshot makes
    [mergedOperationsAndFragments] and [mergedOperationsAndFragmentsForService]
    throw the anonymous-operation error of the [operations] getter, whatever
    the directive lists are: no operation is projected. *)
Theorem merged_documents_anonymous_fails (project : GraphQLClientProject)
    (o : OperationDefinitionNode) :
  o ∈ scannedOperations (documents project) →
  operation_name o = None →
  ∃ first,
    head (anonymousOperations (documents project)) = Some first
    ∧ mergedOperationsAndFragments project
      = Throw (anonymousOperationError first)
    ∧ mergedOperationsAndFragmentsForService project
      = Throw (anonymousOperationError first).
Proof.
  intros Hin Hname.
  destruct (operations_throws _ _ Hin Hname) as (first & Hhead & Hthrow).
  exists first. split; [done|].
  unfold_merged. by rewrite Hthrow.
Qed.

(** X10. On the filtering path (at least one directive list configured and
    non-empty) the getter runs the helpers on the merged documents in the
    order of the keys. When they return on every document, the result maps
    an operation name to the filtered document of that operation when this
    document has a definition left, and to nothing otherwise: no name is
    invented and every kept operation is filtered. When a helper throws (as
    on a list that is undefined), the getter throws what is thrown on the
    first such document, and it returns a map in no other case. *)
Theorem projection_lookup (project : GraphQLClientProject)
    (current : JsObject.t DocumentNode) :
  mergedOperationsAndFragments project = Normal current →
  ((∃ name names, clientOnlyDirectives (config project) = Some (name :: names))
   ∨ (∃ name names,
        clientSchemaDirectives (config project) = Some (name :: names))) →
  ((∀ name document,
      JsObject.get current name = Some document →
      ∃ serviceOnly,
        serviceOnlyDocument (config project) document = Normal serviceOnly) →
   ∃ filtered,
     mergedOperationsAndFragmentsForService project = Normal filtered
     ∧ ∀ operationName,
         JsObject.get filtered operationName
         = match JsObject.get current operationName with
           | Some document =>
               match serviceOnlyDocument (config project) document with
               | Normal serviceOnly =>
                   if decide (filter toBoolean (definitions serviceOnly) ≠ [])
                   then Some serviceOnly
                   else None
               | Throw _ => None
               end
           | None => None
           end)
  ∧ (∀ before name after document error,
       JsObject.keys current = before ++ name :: after →
       (∀ earlier other,
          earlier ∈ before → JsObject.get current earlier = Some other →
          ∃ serviceOnly,
            serviceOnlyDocument (config project) other = Normal serviceOnly) →
       JsObject.get current name = Some document →
       serviceOnlyDocument (config project) document = Throw error →
       mergedOperationsAndFragmentsForService project = Throw error)
  ∧ (∀ filtered,
       mergedOperationsAndFragmentsForService project = Normal filtered →
       ∀ name document,
         JsObject.get current name = Some document →
         ∃ serviceOnly,
           serviceOnlyDocument (config project) document = Normal serviceOnly).
Proof.
  intros Hcurrent Hconfigured.
  assert (Hrun : mergedOperationsAndFragmentsForService project
                 = filterOperations (config project) current JsObject.create
                     (JsObject.keys current)).
  { unfold_forService. rewrite Hcurrent. simpl. by rewrite filter_path. }
  rewrite Hrun. split; [|split].
  - intros Hall.
    destruct (filterOperations_returns removeDirectives
                removeDirectiveAnnotatedFields
                withTypenameFieldAddedWhereNeeded (config project) current
                (JsObject.keys current) JsObject.create)
      as (filtered & Hfiltered & Hout & Hnone & Hin).
    { intros name document _. apply Hall. }
    exists filtered. split; [exact Hfiltered|]. intros operationName.
    destruct (JsObject.get current operationName) as [document|] eqn:Hdoc.
    + destruct (Hall operationName document Hdoc) as [serviceOnly Hservice].
      rewrite Hservice.
      rewrite (Hin operationName document serviceOnly); [done| |done|done].
      by eapply get_Some_keys.
    + destruct (decide (operationName ∈ JsObject.keys current)).
      * by rewrite Hnone.
      * by rewrite Hout.
  - intros before name after document error -> Hbefore Hdoc Hthrow.
    by apply (filterOperations_throws removeDirectives
                removeDirectiveAnnotatedFields
                withTypenameFieldAddedWhereNeeded (config project) current
                before after name document error).
  - intros filtered Hfiltered name document Hdoc.
    apply (filterOperations_returned removeDirectives
                removeDirectiveAnnotatedFields
                withTypenameFieldAddedWhereNeeded (config project) current
             (JsObject.keys current) JsObject.create filtered Hfiltered
             name document); [|done].
    by eapply get_Some_keys.
Qed.

(** ** Run glyphs *)

Lemma enterField_all_text (project : GraphQLClientProject) (uri : string)
    (parentType : option string) (loc : option Location) (name : string) :
  Forall (λ d, isTextDecoration d) (enterField project uri parentType loc name).
Proof.
  rewrite enterField_spec. destruct (_ ≫= _) as [ms|]; [|constructor].
  destruct (decide _); repeat constructor.
Qed.

Lemma enterSelection_all_text (typeInfoSchema : GraphQLSchema)
    (project : GraphQLClientProject) (uri : string)
    (selection : SelectionNode) :
  ∀ parentType,
    Forall (λ d, isTextDecoration d)
      (enterSelection typeInfoSchema project uri parentType selection).
Proof.
  induction selection
    as [loc alias name directives selections IH
       |loc name directives
       |loc typeCondition directives selections IH]
    using SelectionNode_nested_ind; intros parentType; simpl.
  - apply Forall_app. split; [apply enterField_all_text|].
    induction IH as [|s l Hs _ IHl]; [constructor|]. simpl.
    apply Forall_app. split; [apply Hs|apply IHl].
  - constructor.
  - induction IH as [|s l Hs _ IHl]; [constructor|]. simpl.
    apply Forall_app. split; [apply Hs|apply IHl].
Qed.

Lemma enterSelections_all_text (typeInfoSchema : GraphQLSchema)
    (project : GraphQLClientProject) (uri : string)
    (parentType : option string) (selections : list SelectionNode) :
  Forall (λ d, isTextDecoration d)
    (flat_map (enterSelection typeInfoSchema project uri parentType)
       selections).
Proof.
  induction selections as [|s l IH]; [constructor|]. simpl.
  apply Forall_app. split; [apply enterSelection_all_text|apply IH].
Qed.

Lemma enterDefinition_glyphs (typeInfoSchema : GraphQLSchema)
    (project : GraphQLClientProject) (uri : string)
    (definition : DefinitionNode) :
  filter (λ d, ¬ isTextDecoration d)
    (enterDefinition typeInfoSchema project uri definition)
  = match definition with
    | OperationDefinition node => [enterOperationDefinition project uri node]
    | _ => []
    end.
Proof.
  destruct definition as [op|f|dd|ext|k n]; simpl; try done.
  - rewrite filter_cons_True by (by intros []). f_equal.
    apply filter_none. eapply Forall_impl; [apply enterSelections_all_text|].
    by intros d Hd Hnot.
  - apply filter_none. eapply Forall_impl; [apply enterSelections_all_text|].
    by intros d Hd Hnot.
Qed.

Lemma decorationsOfDocuments_glyphs (typeInfoSchema : GraphQLSchema)
    (project : GraphQLClientProject) (uri : string)
    (docs : list GraphQLDocument) :
  filter (λ d, ¬ isTextDecoration d)
    (flat_map (decorationsOfDocument typeInfoSchema project uri) docs)
  = enterOperationDefinition project uri <$> scannedOperations docs.
Proof.
  unfold scannedOperations, scannedDefinitions.
  induction docs as [|doc docs IH]; [done|]. simpl.
  rewrite filter_app, IH, omap_app, fmap_app. f_equal.
  unfold_decorationsOfDocument. destruct (ast doc) as [a|]; [|done].
  induction (definitions a) as [|d defs IHd]; [done|]. simpl.
  rewrite filter_app, IHd, enterDefinition_glyphs.
  by destruct d.
Qed.

(** X11. A decoration pass pushes one run glyph for every operation
    definition of every parsed document, anonymous operations included, in
    the order of the files and of the definitions, each at the range of its
    operation; it pushes none for a fragment definition. *)
Theorem run_glyph_decorations (project : GraphQLClientProject)
    (typeInfoSchema : GraphQLSchema) :
  onDecorations project = true →
  schema project = Some typeInfoSchema →
  ∃ decorations,
    generateDecorations project = [DecorationsCallback decorations]
    ∧ filter (λ d, ¬ isTextDecoration d) decorations
      = flat_map
          (λ file,
             enterOperationDefinition project file.1
             <$> scannedOperations file.2)
          (documentsByFile project)
    ∧ ∀ uri node,
        ∃ hoverMessage,
          enterOperationDefinition project uri node
          = RunGlyphDecoration uri (rangeForASTNode (operation_loc node))
              hoverMessage.
Proof.
  intros Hhandler Hschema. unfold_generateDecorations.
  rewrite Hhandler, Hschema. simpl. eexists. split; [done|]. split.
  - rewrite filter_flat_map. apply flat_map_ext_Forall, Forall_forall.
    intros [uri docs] _. apply decorationsOfDocuments_glyphs.
  - intros uri node. by eexists.
Qed.

Lemma enterField_no_statistics (project : GraphQLClientProject) (uri : string)
    (parentType : option string) (loc : option Location) (name : string) :
  fieldLatenciesMS project = None →
  enterField project uri parentType loc name = [].
Proof.
  intros Hnone. rewrite enterField_spec.
  unfold latencySample. rewrite Hnone. by destruct parentType.
Qed.

(** X12. Without latency statistics a decoration pass pushes no text
    decoration: its decorations are exactly the run glyphs of the operation
    definitions. *)
Theorem decorations_without_statistics (project : GraphQLClientProject)
    (typeInfoSchema : GraphQLSchema) :
  onDecorations project = true →
  schema project = Some typeInfoSchema →
  fieldLatenciesMS project = None →
  generateDecorations project
  = [DecorationsCallback
       (flat_map
          (λ file,
             enterOperationDefinition project file.1
             <$> scannedOperations file.2)
          (documentsByFile project))].
Proof.
  intros Hhandler Hschema Hnone. unfold_generateDecorations.
  rewrite Hhandler, Hschema. simpl. do 2 f_equal.
  apply flat_map_ext_Forall, Forall_forall. intros [uri docs] _.
  rewrite <- (decorationsOfDocuments_glyphs typeInfoSchema). symmetry.
  apply filter_all. unfold_decorationsOfFile. simpl.
  apply Forall_forall. intros d Hd Htext.
  assert (Hin : d ∈ filter (λ d, isTextDecoration d)
                  (flat_map (decorationsOfDocument typeInfoSchema project uri)
                     docs)) by (by apply list_elem_of_filter).
  rewrite filter_flat_map in Hin.
  apply list_elem_of_In, in_flat_map in Hin as (doc & _ & Hin).
  rewrite decorationsOfDocument_text in Hin.
  apply in_flat_map in Hin as (v & _ & Hin).
  by rewrite enterField_no_statistics in Hin.
Qed.

End FurtherMethods.

(** * A worked snapshot *)

(** ** Documents *)

Definition exampleSource : Source := {| source_name := "file:///client.graphql" |}.

Definition exampleFragment (name : string) (selections : list SelectionNode)
  : FragmentDefinitionNode :=
  {| fragment_loc := None;
     fragment_name := name;
     fragment_typeCondition := "User";
     fragment_directives := [];
     fragment_selectionSet := selections |}.

Definition exampleOperation (name : option string)
  (selections : list SelectionNode) : OperationDefinitionNode :=
  {| operation_loc := None;
     operation := QUERY;
     operation_name := name;
     operation_directives := [];
     operation_selectionSet := selections |}.

Definition exampleDocument (defs : list DefinitionNode) : GraphQLDocument :=
  {| ast := Some {| definitions := defs |} |}.

(** [fragment F1 on User { ...F2 }], [fragment F2 on User { id ...F1 }] and
    [query O { user { ...F1 } }]: the chain [O → F1 → F2 → F1]. *)
Definition exampleF1 : FragmentDefinitionNode :=
  exampleFragment "F1" [FragmentSpread None "F2" []].

Definition exampleF2 : FragmentDefinitionNode :=
  exampleFragment "F2" [FragmentSpread None "F1" []].

Definition exampleO : OperationDefinitionNode :=
  exampleOperation (Some "O")
    [Field None None "user" [] [FragmentSpread None "F1" []]].

(** [query Leaf { user { id } }]: no fragment spread. *)
Definition exampleIdField : SelectionNode :=
  Field (Some {| loc_start := 17; loc_end := 19; loc_source := exampleSource |})
    None "id" [] [].

Definition exampleUserField : SelectionNode :=
  Field (Some {| loc_start := 10; loc_end := 21; loc_source := exampleSource |})
    None "user" [] [exampleIdField].

Definition exampleLeaf : OperationDefinitionNode :=
  exampleOperation (Some "Leaf") [exampleUserField].

(** [{ user }]: an anonymous operation. *)
Definition exampleAnonymous : OperationDefinitionNode :=
  exampleOperation None [Field None None "user" [] []].

(** A second fragment called [F1]. *)
Definition exampleF1Again : FragmentDefinitionNode :=
  exampleFragment "F1" [Field None None "id" [] []].

(** Three files, the second one unparsed. *)
Definition exampleCycleSnapshot : list GraphQLDocument :=
  [exampleDocument [FragmentDefinition exampleF2; OperationDefinition exampleO];
   {| ast := None |};
   exampleDocument [FragmentDefinition exampleF1]].

Definition exampleAnonymousSnapshot : list GraphQLDocument :=
  [exampleDocument [FragmentDefinition exampleF1; OperationDefinition exampleO];
   exampleDocument [OperationDefinition exampleAnonymous;
                    FragmentDefinition exampleF2;
                    OperationDefinition exampleLeaf]].

Definition exampleDuplicateSnapshot : list GraphQLDocument :=
  [exampleDocument [FragmentDefinition exampleF1; OperationDefinition exampleO];
   exampleDocument [FragmentDefinition exampleF1Again;
                    OperationDefinition exampleLeaf]].

(** ** Registry and closure on the snapshot *)

Example fragments_cycle_snapshot :
  fragments exampleCycleSnapshot = [("F2", exampleF2); ("F1", exampleF1)].
Proof. reflexivity. Qed.

Example closure_cycle_snapshot :
  getOperationWithFragments exampleCycleSnapshot exampleO
  = [ExecutableOperation exampleO; ExecutableFragment exampleF1;
     ExecutableFragment exampleF2].
Proof. vm_compute. reflexivity. Qed.

(** [query Wide { ...A ...B }] with [A] spreading [C] and [B] spreading [D]:
    the fragments come level by level, not depth first. *)
Definition exampleWide : OperationDefinitionNode :=
  exampleOperation (Some "Wide")
    [FragmentSpread None "A" []; FragmentSpread None "B" []].

Definition exampleWideSnapshot : list GraphQLDocument :=
  [exampleDocument
     [FragmentDefinition (exampleFragment "D" []);
      FragmentDefinition (exampleFragment "C" [FragmentSpread None "A" []]);
      FragmentDefinition (exampleFragment "B" [FragmentSpread None "D" []]);
      FragmentDefinition
        (exampleFragment "A"
           [Field None None "friend" [] [FragmentSpread None "C" []];
            FragmentSpread None "Unknown" []])]].

Example closure_wide_snapshot :
  getOperationWithFragments exampleWideSnapshot exampleWide
  = [ExecutableOperation exampleWide;
     ExecutableFragment
       (exampleFragment "A"
          [Field None None "friend" [] [FragmentSpread None "C" []];
           FragmentSpread None "Unknown" []]);
     ExecutableFragment (exampleFragment "B" [FragmentSpread None "D" []]);
     ExecutableFragment (exampleFragment "C" [FragmentSpread None "A" []]);
     ExecutableFragment (exampleFragment "D" [])].
Proof. vm_compute. reflexivity. Qed.

Lemma operations_anonymous_fails_witness :
  exampleAnonymous ∈ scannedOperations exampleAnonymousSnapshot
  ∧ operation_name exampleAnonymous = None
  ∧ operations exampleAnonymousSnapshot
    = Throw (anonymousOperationError exampleAnonymous).
Proof.
  assert (Hin : exampleAnonymous ∈ scannedOperations exampleAnonymousSnapshot)
    by (right; left).
  assert (Hname : operation_name exampleAnonymous = None) by reflexivity.
  split; [exact Hin|]. split; [exact Hname|].
  destruct (operations_anonymous_fails exampleAnonymousSnapshot
              exampleAnonymous Hin Hname)
    as (first & Hhead & _ & _ & Hthrow & _).
  vm_compute in Hhead. injection Hhead as <-. exact Hthrow.
Defined.

Lemma registry_last_writer_wins_witness :
  JsObject.get (fragments exampleDuplicateSnapshot) "F1" = Some exampleF1Again
  ∧ (∀ o, o ∈ scannedOperations exampleDuplicateSnapshot →
          operation_name o ≠ None)
  ∧ ∃ ops, operations exampleDuplicateSnapshot = Normal ops.
Proof.
  destruct (registry_last_writer_wins exampleDuplicateSnapshot "F1")
    as (Hfragment & _ & _ & Hnamed).
  assert (Hall : ∀ o, o ∈ scannedOperations exampleDuplicateSnapshot →
                      operation_name o ≠ None).
  { intros o Hin. vm_compute in Hin.
    apply elem_of_cons in Hin as [->|Hin]; [discriminate|].
    apply list_elem_of_singleton in Hin as ->. discriminate. }
  split; [|split; [exact Hall|exact (Hnamed Hall)]].
  rewrite Hfragment. reflexivity.
Defined.

Lemma fragments_total_witness :
  exampleF2 ∈ scannedFragments exampleAnonymousSnapshot
  ∧ exampleAnonymous ∈ scannedOperations exampleAnonymousSnapshot
  ∧ operation_name exampleAnonymous = None
  ∧ (∃ e, operations exampleAnonymousSnapshot = Throw e)
  ∧ ∃ kept, JsObject.get (fragments exampleAnonymousSnapshot) "F2" = Some kept
            ∧ fragment_name kept = "F2".
Proof.
  destruct (fragments_total exampleAnonymousSnapshot)
    as (_ & _ & Hregistered & Hanonymous).
  assert (Hf : exampleF2 ∈ scannedFragments exampleAnonymousSnapshot)
    by (right; left).
  assert (Hin : exampleAnonymous ∈ scannedOperations exampleAnonymousSnapshot)
    by (right; left).
  assert (Hname : operation_name exampleAnonymous = None) by reflexivity.
  split; [exact Hf|]. split; [exact Hin|]. split; [exact Hname|].
  split; [exact (proj1 (Hanonymous exampleAnonymous Hin Hname))|].
  exact (Hregistered exampleF2 Hf).
Defined.

Lemma closure_of_cycle_witness :
  JsObject.get (fragments exampleCycleSnapshot) (fragment_name exampleF1)
  = Some exampleF1
  ∧ JsObject.get (fragments exampleCycleSnapshot) (fragment_name exampleF2)
    = Some exampleF2
  ∧ fragment_name exampleF1 ∈ fragmentSpreads (ExecutableOperation exampleO)
  ∧ fragment_name exampleF2 ∈ fragmentSpreads (ExecutableFragment exampleF1)
  ∧ fragment_name exampleF1 ∈ fragmentSpreads (ExecutableFragment exampleF2)
  ∧ NoDup (getOperationWithFragments exampleCycleSnapshot exampleO)
  ∧ getOperationWithFragments exampleCycleSnapshot exampleO
    = [ExecutableOperation exampleO; ExecutableFragment exampleF1;
       ExecutableFragment exampleF2].
Proof.
  destruct (closure_of_cycle exampleCycleSnapshot exampleO)
    as (Hnodup & _ & Hcycle).
  assert (H1 : JsObject.get (fragments exampleCycleSnapshot)
                 (fragment_name exampleF1) = Some exampleF1) by reflexivity.
  assert (H2 : JsObject.get (fragments exampleCycleSnapshot)
                 (fragment_name exampleF2) = Some exampleF2) by reflexivity.
  assert (HO : fragment_name exampleF1
               ∈ fragmentSpreads (ExecutableOperation exampleO)) by left.
  assert (HF1 : fragment_name exampleF2
                ∈ fragmentSpreads (ExecutableFragment exampleF1)) by left.
  assert (HF2 : fragment_name exampleF1
                ∈ fragmentSpreads (ExecutableFragment exampleF2)) by left.
  destruct (Hcycle exampleF1 exampleF2 H1 H2 HO HF1 HF2)
    as (_ & _ & _ & Hexact).
  repeat (split; [assumption|]).
  apply Hexact; [discriminate|reflexivity..].
Defined.

Lemma closure_breadth_first_order_witness :
  (∃ fs,
     getOperationWithFragments exampleWideSnapshot exampleWide
     = ExecutableOperation exampleWide :: (ExecutableFragment <$> fs)
     ∧ fragment_name <$> fs = ["A"; "B"; "C"; "D"])
  ∧ (∀ selection,
       selection
       ∈ flat_map selectionsInText (operation_selectionSet exampleLeaf) →
       spreadOf selection = None)
  ∧ getOperationWithFragments exampleCycleSnapshot exampleLeaf
    = [ExecutableOperation exampleLeaf].
Proof.
  destruct (closure_breadth_first_order exampleWideSnapshot exampleWide)
    as (fs & Hrun & _ & Horder & _).
  destruct (closure_breadth_first_order exampleCycleSnapshot exampleLeaf)
    as (_ & _ & _ & _ & _ & Hleaf).
  assert (Hnone : ∀ selection,
            selection
            ∈ flat_map selectionsInText (operation_selectionSet exampleLeaf) →
            spreadOf selection = None).
  { intros selection Hin. vm_compute in Hin.
    apply elem_of_cons in Hin as [->|Hin]; [reflexivity|].
    apply elem_of_cons in Hin as [->|Hin]; [reflexivity|].
    destruct (proj1 (elem_of_nil selection) Hin). }
  split; [|split; [exact Hnone|exact (Hleaf Hnone)]].
  exists fs. split; [exact Hrun|]. rewrite Horder. vm_compute. reflexivity.
Defined.

(** ** A small schema, and stand-ins for the collaborators *)

(** A schema reduced to what the class asks of it: directive names, object
    types with their fields (name and named type), client metadata. *)
Record ExampleSchema := {
  example_directives : list string;
  example_types : list (string * list (string * string));
  example_clientSchema : list (string * ClientSchemaInfo);
}.

Definition exampleLookup {A : Type} (l : list (string * A)) (key : string)
  : option A :=
  snd <$> head (filter (λ entry, entry.1 = key) l).

Definition exampleRootTypeName (s : ExampleSchema) (op : OperationTypeNode)
  : option string :=
  match op with
  | QUERY => (λ _, "Query") <$> exampleLookup (example_types s) "Query"
  | MUTATION =>
      (λ _, "Mutation") <$> exampleLookup (example_types s) "Mutation"
  | SUBSCRIPTION =>
      (λ _, "Subscription") <$> exampleLookup (example_types s) "Subscription"
  end.

Definition exampleIsCompositeTypeName (s : ExampleSchema) (name : string)
  : bool :=
  bool_decide (is_Some (exampleLookup (example_types s) name)).

Definition exampleFieldCompositeTypeName (s : ExampleSchema)
  (parentName fieldName : string) : option string :=
  fields ← exampleLookup (example_types s) parentName;
  typeName ← exampleLookup fields fieldName;
  if exampleIsCompositeTypeName s typeName then Some typeName else None.

(** A stand-in for [extendSchema] of graphql. The extension document is
    validated first: an extension of a type the schema lacks is reported as
    a plain [Error] that joins the messages. The schema is built after that.
    The AST here keeps the names of the fields of an extension only, and the
    stand-in takes a field called [legacy] for one declared with
    [@deprecated(reason: 1)]: building the field reads the arguments of the
    directive, and graphql throws a [GraphQLError] at the value, whose
    source is the source of the extension. *)
Definition exampleValidationError : Exception :=
  ThrownOther "Error: Cannot extend type because it is not defined.".

Definition exampleExtendsUnknownType (s : ExampleSchema)
  (definition : DefinitionNode) : bool :=
  match definition with
  | ObjectTypeExtension node =>
      negb (exampleIsCompositeTypeName s (objectTypeExtension_name node))
  | _ => false
  end.

Fixpoint exampleExtend (s : ExampleSchema) (defs : list DefinitionNode)
  : Completion ExampleSchema :=
  match defs with
  | [] => Normal s
  | ObjectTypeExtension node :: rest =>
      if decide ("legacy" ∈ default [] (objectTypeExtension_fields node))
      then
        Throw (ThrownGraphQLError
                 (newGraphQLError "Argument reason has invalid value 1."
                    [ObjectTypeExtension node]))
      else exampleExtend s rest
  | DirectiveDefinition node :: rest =>
      exampleExtend
        {| example_directives :=
             example_directives s ++ [directiveDefinition_name node];
           example_types := example_types s;
           example_clientSchema := example_clientSchema s |}
        rest
  | _ :: rest => exampleExtend s rest
  end.

Definition exampleExtendSchema (s : ExampleSchema) (document : DocumentNode)
  : Completion ExampleSchema :=
  if existsb (exampleExtendsUnknownType s) (definitions document)
  then Throw exampleValidationError
  else exampleExtend s (definitions document).

Definition exampleGetTypeClientSchema (s : ExampleSchema) (name : string)
  : option (option ClientSchemaInfo) :=
  (λ _, exampleLookup (example_clientSchema s) name)
  <$> exampleLookup (example_types s) name.

Definition exampleSetTypeClientSchema (s : ExampleSchema) (name : string)
  (info : ClientSchemaInfo) : ExampleSchema :=
  {| example_directives := example_directives s;
     example_types := example_types s;
     example_clientSchema := (name, info) :: example_clientSchema s |}.

(** One document per named operation: the operation and every fragment. *)
Definition exampleSeparateOperations (document : DocumentNode)
  : JsObject.t DocumentNode :=
  foldl
    (λ separated definition,
       match definition with
       | OperationDefinition o =>
           match operation_name o with
           | Some name =>
               JsObject.put separated name
                 {| definitions :=
                      definition
                      :: filter (λ d, is_Some (asFragmentDefinition d))
                           (definitions document) |}
           | None => separated
           end
       | _ => separated
       end)
    JsObject.create (definitions document).

Definition exampleHasDirective (names : option (list string))
  (selection : SelectionNode) : Prop :=
  match selection with
  | Field _ _ _ directives _ =>
      Exists (λ d, directive_name d ∈ default [] names) directives
  | _ => False
  end.

#[local] Instance exampleHasDirective_dec names selection :
  Decision (exampleHasDirective names selection).
Proof. destruct selection; simpl; apply _. Defined.

(** What the helpers throw when they read the length of a list that is not
    there. *)
Definition exampleTypeError : Exception :=
  ThrownOther "TypeError: Cannot read properties of undefined".

(** Drops the top-level fields carrying one of the directives, and the
    operations left without a selection; returns the document as it is for
    an empty list, and throws for a list that is undefined. *)
Definition exampleRemoveDirectiveAnnotatedFields (document : DocumentNode)
  (names : option (list string)) : Completion DocumentNode :=
  match names with
  | None => Throw exampleTypeError
  | Some [] => Normal document
  | Some _ =>
      Normal
        {| definitions :=
             flat_map
               (λ definition,
                  match definition with
                  | OperationDefinition o =>
                      match filter (λ s, ¬ exampleHasDirective names s)
                              (operation_selectionSet o) with
                      | [] => []
                      | kept =>
                          [OperationDefinition
                             {| operation_loc := operation_loc o;
                                operation := operation o;
                                operation_name := operation_name o;
                                operation_directives := operation_directives o;
                                operation_selectionSet := kept |}]
                      end
                  | _ => [definition]
                  end)
               (definitions document) |}
  end.

(** Drops the named directives from the top-level fields of the operations;
    returns the document as it is for an empty list, and throws for a list
    that is undefined. *)
Definition exampleRemoveDirectives (document : DocumentNode)
  (names : option (list string)) : Completion DocumentNode :=
  match names with
  | None => Throw exampleTypeError
  | Some [] => Normal document
  | Some names =>
      Normal
        {| definitions :=
             (λ definition,
                match definition with
                | OperationDefinition o =>
                    OperationDefinition
                      {| operation_loc := operation_loc o;
                         operation := operation o;
                         operation_name := operation_name o;
                         operation_directives := operation_directives o;
                         operation_selectionSet :=
                           (λ selection,
                              match selection with
                              | Field loc alias name directives selections =>
                                  Field loc alias name
                                    (filter
                                       (λ d, directive_name d ∉ names)
                                       directives)
                                    selections
                              | _ => selection
                              end) <$> operation_selectionSet o |}
                | _ => definition
                end) <$> definitions document |}
  end.

(** Adds [__typename] to the selection set of every fragment definition. *)
Definition exampleWithTypename (document : DocumentNode) : DocumentNode :=
  {| definitions :=
       (λ definition,
          match definition with
          | FragmentDefinition f =>
              FragmentDefinition
                {| fragment_loc := fragment_loc f;
                   fragment_name := fragment_name f;
                   fragment_typeCondition := fragment_typeCondition f;
                   fragment_directives := fragment_directives f;
                   fragment_selectionSet :=
                     Field None None "__typename" [] []
                     :: fragment_selectionSet f |}
          | _ => definition
          end) <$> definitions document |}.

Definition examplePrint (definition : ExecutableDefinitionNode) : string :=
  match definition with
  | ExecutableOperation o => "query " ++ default "" (operation_name o)
  | ExecutableFragment f => "fragment " ++ fragment_name f
  end.

Definition exampleFormatMS (ms : Qc) (digits : nat) : string :=
  if decide (ms = Qc_of_Z 250) then "250ms" else "?".

Definition exampleCollect (composed : option ExampleSchema)
  (document : GraphQLDocument) (registry : JsObject.t FragmentDefinitionNode)
  (rules : option (list unit)) : list string :=
  match ast document with
  | Some a =>
      flat_map
        (λ definition,
           match definition with
           | OperationDefinition o =>
               (λ name : string, ("Unknown fragment " ++ name)%string)
               <$> filter (λ name, JsObject.get registry name = None)
                     (fragmentSpreads (ExecutableOperation o))
           | _ => []
           end)
        (definitions a)
  | None => []
  end.

(** The standard library: [directive @client on FIELD]. *)
Definition exampleClientDirective : DefinitionNode :=
  DirectiveDefinition
    {| directiveDefinition_loc := None;
       directiveDefinition_name := "client";
       directiveDefinition_locations := ["FIELD"] |}.

Definition exampleApolloAst : option DocumentNode :=
  Some {| definitions := [exampleClientDirective] |}.

(** [type Query { user: User }  type User { id: ID }] with [@skip]. *)
Definition exampleService : ExampleSchema :=
  {| example_directives := ["skip"];
     example_types := [("Query", [("user", "User")]); ("User", [("id", "ID")])];
     example_clientSchema := [] |}.

Definition exampleConfig (only schemaDirectives : option (list string))
  : ClientConfig :=
  {| graph := Some "my-graph";
     variant := "current";
     client_service := Some (ServiceName "my-graph");
     service_endpoint_url := None;
     clientOnlyDirectives := only;
     clientSchemaDirectives := schemaDirectives;
     addTypename := true |}.

Definition exampleProject (config : ClientConfig)
  (files : list (string * list GraphQLDocument))
  (extension : list DefinitionNode)
  : GraphQLClientProject ExampleSchema string unit :=
  {| config := config;
     serviceSchema := Some exampleService;
     schema := Some exampleService;
     documentsByFile := files;
     typeSystemDefinitionsAndExtensions := extension;
     fieldLatenciesMS :=
       Some {[ "Query" := {[ "user" := Some (Qc_of_Z 250) ]} ]};
     frontendUrlRoot := None;
     validationRules := None;
     diagnosticSet := None;
     onDiagnostics := true;
     onDecorations := true |}.

(** The methods of the class with the stand-ins for its collaborators. *)
Definition exampleMissingApolloClientDirectives :=
  missingApolloClientDirectives ExampleSchema example_directives
    exampleApolloAst string unit.

Definition exampleExistingDirectives :=
  existingDirectives ExampleSchema example_directives string unit.

Definition exampleClientSchema :=
  clientSchema ExampleSchema example_directives exampleApolloAst string unit.

Definition exampleMerged :=
  mergedOperationsAndFragments ExampleSchema exampleSeparateOperations
    string unit.

Definition exampleMergedForService :=
  mergedOperationsAndFragmentsForService ExampleSchema
    exampleSeparateOperations exampleRemoveDirectives
    exampleRemoveDirectiveAnnotatedFields exampleWithTypename string unit.

Definition exampleEnterField :=
  enterField ExampleSchema string (option Location) unit id exampleFormatMS.

Definition exampleGenerateDecorations :=
  generateDecorations ExampleSchema exampleRootTypeName
    exampleIsCompositeTypeName exampleFieldCompositeTypeName examplePrint
    id id (λ url _, url) String.append string (option Location) unit id
    exampleFormatMS.

Definition exampleValidate :=
  validate ExampleSchema example_directives exampleExtendSchema
    exampleGetTypeClientSchema exampleSetTypeClientSchema exampleRootTypeName
    exampleIsCompositeTypeName exampleFieldCompositeTypeName examplePrint
    id id (λ url _, url) String.append exampleApolloAst string
    (option Location) unit (λ error, [error_message error]) exampleCollect id
    exampleFormatMS.

(** ** Composer *)

(** The client extension declares its own [@client]; or declares nothing. *)
Definition exampleClashingProject :=
  exampleProject (exampleConfig None None) [] [exampleClientDirective].

Definition examplePlainProject :=
  exampleProject (exampleConfig None None) [] [].

Lemma missingApolloClientDirectives_all_or_nothing_witness :
  ("client" ∈ exampleExistingDirectives exampleClashingProject
   ∧ "client" ∈ directiveNames (standardLibrary exampleApolloAst))
  ∧ exampleMissingApolloClientDirectives exampleClashingProject = []
  ∧ (∀ name, name ∈ exampleExistingDirectives examplePlainProject →
             name ∉ directiveNames (standardLibrary exampleApolloAst))
  ∧ exampleMissingApolloClientDirectives examplePlainProject
    = [exampleClientDirective]
  ∧ definitions (exampleClientSchema examplePlainProject)
    = [exampleClientDirective].
Proof.
  assert (Hclash : "client" ∈ exampleExistingDirectives exampleClashingProject
                   ∧ "client" ∈ directiveNames (standardLibrary exampleApolloAst))
    by (split; [right; left|left]).
  assert (Hplain : ∀ name, name ∈ exampleExistingDirectives examplePlainProject →
                           name ∉ directiveNames (standardLibrary exampleApolloAst)).
  { intros name Hin Hlib. apply list_elem_of_singleton in Hin as ->.
    apply list_elem_of_singleton in Hlib. discriminate. }
  destruct (missingApolloClientDirectives_all_or_nothing ExampleSchema
              example_directives exampleApolloAst string unit
              exampleClashingProject) as [Hnone _].
  destruct (missingApolloClientDirectives_all_or_nothing ExampleSchema
              example_directives exampleApolloAst string unit
              examplePlainProject) as [_ Hall].
  split; [exact Hclash|].
  split; [exact (proj1 (Hnone (ex_intro _ "client" Hclash)))|].
  split; [exact Hplain|].
  exact (Hall Hplain).
Defined.

(** ** Projector *)

(** [query Local { isLoggedIn @client }] next to [query Leaf]. *)
Definition exampleLocal : OperationDefinitionNode :=
  exampleOperation (Some "Local")
    [Field None None "isLoggedIn"
       [{| directive_loc := None; directive_name := "client" |}] []].

Definition exampleFiles : list (string * list GraphQLDocument) :=
  [("file:///a.graphql",
    [exampleDocument [OperationDefinition exampleLocal;
                      OperationDefinition exampleLeaf]])].

Definition exampleUnfilteredProject :=
  exampleProject (exampleConfig None (Some [])) exampleFiles [].

Definition exampleFilteredProject :=
  exampleProject (exampleConfig (Some []) (Some ["client"])) exampleFiles [].

(** The same with [clientOnlyDirectives] left undefined. *)
Definition exampleHalfConfiguredProject :=
  exampleProject (exampleConfig None (Some ["client"])) exampleFiles [].

Lemma projection_identity_witness :
  (clientOnlyDirectives (config exampleUnfilteredProject) = None
   ∨ clientOnlyDirectives (config exampleUnfilteredProject) = Some [])
  ∧ (clientSchemaDirectives (config exampleUnfilteredProject) = None
     ∨ clientSchemaDirectives (config exampleUnfilteredProject) = Some [])
  ∧ exampleMergedForService exampleUnfilteredProject
    = exampleMerged exampleUnfilteredProject.
Proof.
  assert (Honly : clientOnlyDirectives (config exampleUnfilteredProject) = None
                  ∨ clientOnlyDirectives (config exampleUnfilteredProject)
                    = Some []) by (left; reflexivity).
  assert (Hschema :
    clientSchemaDirectives (config exampleUnfilteredProject) = None
    ∨ clientSchemaDirectives (config exampleUnfilteredProject) = Some [])
    by (right; reflexivity).
  split; [exact Honly|]. split; [exact Hschema|].
  exact (projection_identity ExampleSchema exampleSeparateOperations
           exampleRemoveDirectives exampleRemoveDirectiveAnnotatedFields
           exampleWithTypename string unit exampleUnfilteredProject
           Honly Hschema).
Defined.

Example projection_keeps_service_operation :
  ∃ filtered,
    exampleMergedForService exampleFilteredProject = Normal filtered
    ∧ JsObject.keys filtered = ["Leaf"].
Proof. eexists. split; reflexivity. Qed.

Lemma exampleServiceOnlyDocument_returns (document : DocumentNode) :
  ∃ kept,
    serviceOnlyDocument exampleRemoveDirectives
      exampleRemoveDirectiveAnnotatedFields exampleWithTypename
      (config exampleFilteredProject) document
    = Normal kept.
Proof. eexists. reflexivity. Defined.


(** ** Validation *)

(** The client extension extends a type the service does not define; the
    only tracked document spreads a fragment nobody defines. *)
Definition exampleBadExtension : DefinitionNode :=
  ObjectTypeExtension
    {| objectTypeExtension_loc :=
         Some {| loc_start := 0; loc_end := 40; loc_source := exampleSource |};
       objectTypeExtension_name := "Missing";
       objectTypeExtension_fields := Some ["isLoggedIn"] |}.

Definition exampleBrokenProject :=
  exampleProject (exampleConfig None None)
    [("file:///a.graphql", [exampleDocument [OperationDefinition exampleO]])]
    [exampleBadExtension].

(** [extend type User { legacy: Int @deprecated(reason: 1) }] in a file of
    its own. *)
Definition exampleSchemaSource : Source :=
  {| source_name := "file:///schema.graphql" |}.

Definition exampleDeprecatedExtension : DefinitionNode :=
  ObjectTypeExtension
    {| objectTypeExtension_loc :=
         Some {| loc_start := 0; loc_end := 55;
                 loc_source := exampleSchemaSource |};
       objectTypeExtension_name := "User";
       objectTypeExtension_fields := Some ["legacy"] |}.

Definition exampleCompositionError : GraphQLError :=
  newGraphQLError "Argument reason has invalid value 1."
    [exampleDeprecatedExtension].

Definition exampleDeprecatedProject :=
  exampleProject (exampleConfig None None)
    [("file:///a.graphql", [exampleDocument [OperationDefinition exampleO]])]
    [exampleDeprecatedExtension].

Lemma validate_recovers_from_composition_error_witness :
  onDiagnostics exampleBrokenProject = true
  ∧ serviceSchema exampleBrokenProject = Some exampleService
  ∧ exampleExtendSchema exampleService (exampleClientSchema exampleBrokenProject)
    = Throw exampleValidationError
  ∧ schema (exampleValidate exampleBrokenProject).1 = Some exampleService
  ∧ head (exampleValidate exampleBrokenProject).2
    = Some (ConsoleError exampleValidationError)
  ∧ DiagnosticsCallback (Range:=option Location) "file:///a.graphql"
      ["Unknown fragment F1"]
    ∈ (exampleValidate exampleBrokenProject).2
  ∧ exampleExtendSchema exampleService
      (exampleClientSchema exampleDeprecatedProject)
    = Throw (ThrownGraphQLError exampleCompositionError)
  ∧ schema (exampleValidate exampleDeprecatedProject).1 = Some exampleService
  ∧ DiagnosticsCallback (Range:=option Location) "file:///schema.graphql"
      ["Argument reason has invalid value 1."]
    ∈ (exampleValidate exampleDeprecatedProject).2
  ∧ DiagnosticsCallback (Range:=option Location) "file:///a.graphql"
      ["Unknown fragment F1"]
    ∈ (exampleValidate exampleDeprecatedProject).2.
Proof.
  assert (Hhandler : onDiagnostics exampleBrokenProject = true) by reflexivity.
  assert (Hservice : serviceSchema exampleBrokenProject = Some exampleService)
    by reflexivity.
  assert (Hplain :
    exampleExtendSchema exampleService
      (exampleClientSchema exampleBrokenProject)
    = Throw exampleValidationError) by reflexivity.
  assert (Hthrow :
    exampleExtendSchema exampleService
      (exampleClientSchema exampleDeprecatedProject)
    = Throw (ThrownGraphQLError exampleCompositionError)) by reflexivity.
  destruct (validate_recovers_from_composition_error ExampleSchema
              example_directives exampleExtendSchema
              exampleGetTypeClientSchema exampleSetTypeClientSchema
              exampleRootTypeName exampleIsCompositeTypeName
              exampleFieldCompositeTypeName examplePrint id id (λ url _, url)
              String.append exampleApolloAst string (option Location) unit
              (λ error, [error_message error]) exampleCollect id
              exampleFormatMS exampleBrokenProject exampleService
              exampleValidationError Hhandler Hservice Hplain)
    as (logged & Hschema & _ & Heffects & _ & Hof & Hkeys & Hcallback).
  destruct (validate_recovers_from_composition_error ExampleSchema
              example_directives exampleExtendSchema
              exampleGetTypeClientSchema exampleSetTypeClientSchema
              exampleRootTypeName exampleIsCompositeTypeName
              exampleFieldCompositeTypeName examplePrint id id (λ url _, url)
              String.append exampleApolloAst string (option Location) unit
              (λ error, [error_message error]) exampleCollect id
              exampleFormatMS exampleDeprecatedProject exampleService
              (ThrownGraphQLError exampleCompositionError)
              Hhandler Hservice Hthrow)
    as (filed & Hschema' & _ & _ & _ & Hof' & Hkeys' & Hcallback').
  split; [exact Hhandler|]. split; [exact Hservice|]. split; [exact Hplain|].
  split; [exact Hschema|]. split.
  { unfold exampleValidate. rewrite Heffects. reflexivity. }
  split.
  { assert (Hkey : "file:///a.graphql" ∈ logged.*1).
    { apply Hkeys. right.
      exists ("file:///a.graphql",
              [exampleDocument [OperationDefinition exampleO]]).
      split; [left|]. split; [reflexivity|discriminate]. }
    apply Hcallback in Hkey. rewrite Hof in Hkey. exact Hkey. }
  split; [exact Hthrow|]. split; [exact Hschema'|]. split.
  - assert (Hkey : "file:///schema.graphql" ∈ filed.*1).
    { apply Hkeys'. left. exists exampleCompositionError, exampleSchemaSource.
      split; [reflexivity|]. split; [reflexivity|].
      split; [reflexivity|discriminate]. }
    apply Hcallback' in Hkey. rewrite Hof' in Hkey. exact Hkey.
  - assert (Hkey : "file:///a.graphql" ∈ filed.*1).
    { apply Hkeys'. right.
      exists ("file:///a.graphql",
              [exampleDocument [OperationDefinition exampleO]]).
      split; [left|]. split; [reflexivity|discriminate]. }
    apply Hcallback' in Hkey. rewrite Hof' in Hkey. exact Hkey.
Defined.

(** ** Decorations *)

(** Latency statistics [{"Query": {"user": 250}}] and the document
    [query Leaf { user { id } }]. *)
Definition exampleDecoratedProject :=
  exampleProject (exampleConfig None None)
    [("file:///a.graphql", [exampleDocument [OperationDefinition exampleLeaf]])]
    [].

Definition exampleUserRange : option Location :=
  Some {| loc_start := 10; loc_end := 21; loc_source := exampleSource |}.

Definition exampleIdRange : option Location :=
  Some {| loc_start := 17; loc_end := 19; loc_source := exampleSource |}.

Lemma latency_hint_decorations_witness :
  latencySample exampleDecoratedProject "Query" "user" = Some (Qc_of_Z 250)
  ∧ (1 < Qc_of_Z 250)%Qc
  ∧ TextDecoration "file:///a.graphql" "~250ms" exampleUserRange
    ∈ exampleEnterField exampleDecoratedProject "file:///a.graphql"
        (Some "Query") exampleUserRange "user"
  ∧ (∀ decoration,
       decoration ∉ exampleEnterField exampleDecoratedProject
                      "file:///a.graphql" (Some "User") exampleIdRange "id")
  ∧ onDecorations exampleDecoratedProject = true
  ∧ schema exampleDecoratedProject = Some exampleService
  ∧ ∃ decorations,
      exampleGenerateDecorations exampleDecoratedProject
      = [DecorationsCallback (Diagnostic:=string) decorations]
      ∧ filter isTextDecoration decorations
        = [TextDecoration "file:///a.graphql" "~250ms" exampleUserRange].
Proof.
  destruct (latency_hint_decorations ExampleSchema exampleRootTypeName
              exampleIsCompositeTypeName exampleFieldCompositeTypeName
              examplePrint id id (λ url _, url) String.append string
              (option Location) unit id exampleFormatMS
              exampleDecoratedProject)
    as (Hfield & _ & Hpass).
  assert (Hsample : latencySample exampleDecoratedProject "Query" "user"
                    = Some (Qc_of_Z 250)) by reflexivity.
  assert (Hlt : (1 < Qc_of_Z 250)%Qc) by reflexivity.
  assert (Hhandler : onDecorations exampleDecoratedProject = true)
    by reflexivity.
  assert (Hschema : schema exampleDecoratedProject = Some exampleService)
    by reflexivity.
  split; [exact Hsample|]. split; [exact Hlt|]. split.
  { apply Hfield. exists "Query", (Qc_of_Z 250).
    split; [reflexivity|]. split; [exact Hsample|]. split; [exact Hlt|].
    reflexivity. }
  split.
  { intros decoration Hin. apply Hfield in Hin
      as (parentName & ms & Hparent & Hnone & _).
    injection Hparent as <-. discriminate Hnone. }
  split; [exact Hhandler|]. split; [exact Hschema|].
  destruct (Hpass exampleService Hhandler Hschema)
    as (decorations & Hrun & Htext).
  exists decorations. split; [exact Hrun|].
  rewrite Htext. reflexivity.
Defined.

(** ** Further properties of the registry and of the closure, on the snapshots *)

Lemma operations_app_witness :
  ∃ ops,
    operations (exampleDuplicateSnapshot ++ exampleCycleSnapshot) = Normal ops
    ∧ JsObject.get ops "Leaf" = Some exampleLeaf
    ∧ JsObject.get ops "O" = Some exampleO.
Proof.
  destruct (operations_app exampleDuplicateSnapshot exampleCycleSnapshot)
    as (_ & _ & Hboth).
  destruct (Hboth [("O", exampleO); ("Leaf", exampleLeaf)] [("O", exampleO)]
              eq_refl eq_refl) as (ops & Hops & Hget).
  exists ops. split; [exact Hops|]. rewrite !Hget. split; reflexivity.
Defined.

Lemma registry_insertion_order_witness :
  JsObject.keys (fragments exampleCycleSnapshot) = ["F2"; "F1"]
  ∧ ∃ ops,
      operations exampleDuplicateSnapshot = Normal ops
      ∧ JsObject.keys ops = ["O"; "Leaf"].
Proof.
  destruct (registry_insertion_order exampleCycleSnapshot)
    as ((Hkeys & _ & _) & _).
  destruct (registry_insertion_order exampleDuplicateSnapshot)
    as (_ & Hoperations).
  split; [rewrite Hkeys; reflexivity|].
  exists [("O", exampleO); ("Leaf", exampleLeaf)]. split; [reflexivity|].
  destruct (Hoperations [("O", exampleO); ("Leaf", exampleLeaf)] eq_refl)
    as (Hnames & _ & _).
  rewrite Hnames. reflexivity.
Defined.

Lemma closure_is_reachable_set_witness :
  reachable (fragments exampleCycleSnapshot) (ExecutableOperation exampleO)
    exampleF2.
Proof.
  apply (closure_is_reachable_set exampleCycleSnapshot exampleO exampleF2).
  vm_compute. right. right. left.
Defined.

(** [query Q { user { ...F1 @include } ...F2 }] and [fragment F2 on User
    { ...F1 }]: two spreads of [F1], told apart by where they are written. *)
Definition exampleFirstSpread : FragmentSpreadNode :=
  {| spread_loc :=
       Some {| loc_start := 17; loc_end := 31; loc_source := exampleSource |};
     spread_name := "F1";
     spread_directives :=
       [{| directive_loc := None; directive_name := "include" |}] |}.

Definition exampleSecondSpread : FragmentSpreadNode :=
  {| spread_loc :=
       Some {| loc_start := 62; loc_end := 67; loc_source := exampleSource |};
     spread_name := "F1";
     spread_directives := [] |}.

Definition exampleSpreadSnapshot : list GraphQLDocument :=
  [exampleDocument
     [OperationDefinition
        (exampleOperation (Some "Q")
           [Field None None "user" []
              [FragmentSpread (spread_loc exampleFirstSpread) "F1"
                 (spread_directives exampleFirstSpread)];
            FragmentSpread None "F2" []]);
      FragmentDefinition
        (exampleFragment "F2"
           [FragmentSpread (spread_loc exampleSecondSpread) "F1" []])]].

Lemma fragmentSpreadsForFragment_spec_witness :
  fragmentSpreadsForFragment exampleSpreadSnapshot "F1"
  = [exampleFirstSpread; exampleSecondSpread]
  ∧ fragmentSpreadsForFragment exampleCycleSnapshot "F3" = [].
Proof.
  destruct (fragmentSpreadsForFragment_spec exampleSpreadSnapshot "F1")
    as (Hnodes & _).
  destruct (fragmentSpreadsForFragment_spec exampleCycleSnapshot "F3")
    as (_ & _ & _ & Hnone).
  split; [rewrite Hnodes; reflexivity|].
  apply Hnone. intros d Hd.
  vm_compute in Hd.
  repeat (apply elem_of_cons in Hd as [->|Hd]);
    [..|by apply elem_of_nil in Hd];
    vm_compute; intros Hin;
    repeat (apply elem_of_cons in Hin as [Hin|Hin]; [discriminate Hin|]);
    by apply elem_of_nil in Hin.
Defined.

Lemma closure_fragments_are_spread_witness :
  exampleO ∈ scannedOperations exampleCycleSnapshot
  ∧ ExecutableFragment exampleF2
    ∈ getOperationWithFragments exampleCycleSnapshot exampleO
  ∧ fragmentSpreadsForFragment exampleCycleSnapshot "F2" ≠ [].
Proof.
  assert (Hoperation : exampleO ∈ scannedOperations exampleCycleSnapshot)
    by (vm_compute; left).
  assert (Hclosure : ExecutableFragment exampleF2
                     ∈ getOperationWithFragments exampleCycleSnapshot exampleO)
    by (vm_compute; right; right; left).
  split; [exact Hoperation|]. split; [exact Hclosure|].
  exact (closure_fragments_are_spread exampleCycleSnapshot exampleO exampleF2
           Hoperation Hclosure).
Defined.

(** ** The merged document and its projection, on the snapshot *)

Lemma mergedOperationsAndFragments_document_witness :
  operations (documents exampleUnfilteredProject)
  = Normal [("Local", exampleLocal); ("Leaf", exampleLeaf)]
  ∧ exampleMerged exampleUnfilteredProject
    = Normal
        (exampleSeparateOperations
           {| definitions :=
                [OperationDefinition exampleLocal;
                 OperationDefinition exampleLeaf] |}).
Proof.
  assert (Hoperations :
    operations (documents exampleUnfilteredProject)
    = Normal [("Local", exampleLocal); ("Leaf", exampleLeaf)]) by reflexivity.
  split; [exact Hoperations|].
  destruct (mergedOperationsAndFragments_document exampleSeparateOperations
              exampleUnfilteredProject _ Hoperations) as (Hmerged & _).
  exact Hmerged.
Defined.

Definition exampleAnonymousProject :=
  exampleProject (exampleConfig None (Some ["client"]))
    [("file:///a.graphql", exampleAnonymousSnapshot)] [].

Lemma merged_documents_anonymous_fails_witness :
  exampleAnonymous ∈ scannedOperations (documents exampleAnonymousProject)
  ∧ operation_name exampleAnonymous = None
  ∧ exampleMergedForService exampleAnonymousProject
    = Throw (anonymousOperationError exampleAnonymous).
Proof.
  assert (Hscanned : exampleAnonymous
                     ∈ scannedOperations (documents exampleAnonymousProject))
    by (vm_compute; right; left).
  assert (Hname : operation_name exampleAnonymous = None) by reflexivity.
  split; [exact Hscanned|]. split; [exact Hname|].
  destruct (merged_documents_anonymous_fails exampleSeparateOperations
              exampleRemoveDirectives exampleRemoveDirectiveAnnotatedFields
              exampleWithTypename exampleAnonymousProject exampleAnonymous
              Hscanned Hname) as (first & Hfirst & _ & Hservice).
  injection Hfirst as <-. exact Hservice.
Defined.

Lemma projection_lookup_witness :
  (∃ current, exampleMerged exampleFilteredProject = Normal current)
  ∧ clientSchemaDirectives (config exampleFilteredProject) = Some ["client"]
  ∧ (∃ filtered,
       exampleMergedForService exampleFilteredProject = Normal filtered
       ∧ JsObject.get filtered "Local" = None
       ∧ is_Some (JsObject.get filtered "Leaf"))
  ∧ clientOnlyDirectives (config exampleHalfConfiguredProject) = None
  ∧ exampleMergedForService exampleHalfConfiguredProject
    = Throw exampleTypeError.
Proof.
  assert (Hmerged : ∃ current,
            exampleMerged exampleFilteredProject = Normal current)
    by (eexists; reflexivity).
  assert (Hdirectives : clientSchemaDirectives (config exampleFilteredProject)
                        = Some ["client"]) by reflexivity.
  split; [exact Hmerged|]. split; [exact Hdirectives|].
  destruct Hmerged as [current Hcurrent].
  destruct (projection_lookup exampleSeparateOperations
              exampleRemoveDirectives exampleRemoveDirectiveAnnotatedFields
              exampleWithTypename exampleFilteredProject current Hcurrent
              (or_intror (ex_intro _ "client" (ex_intro _ [] Hdirectives))))
    as (Hreturns & _ & _).
  destruct (projection_lookup exampleSeparateOperations
              exampleRemoveDirectives exampleRemoveDirectiveAnnotatedFields
              exampleWithTypename exampleHalfConfiguredProject current
              Hcurrent
              (or_intror (ex_intro _ "client" (ex_intro _ [] Hdirectives))))
    as (_ & Hthrows & _).
  split; [|split; [reflexivity|]].
  - destruct Hreturns as (filtered & Hfiltered & Hget).
    { intros name document _. apply exampleServiceOnlyDocument_returns. }
    exists filtered. split; [exact Hfiltered|].
    injection Hcurrent as <-. rewrite !Hget. split; [reflexivity|].
    vm_compute. eexists. reflexivity.
  - injection Hcurrent as <-.
    apply (Hthrows [] "Local" ["Leaf"]
             {| definitions := [OperationDefinition exampleLocal] |}).
    + reflexivity.
    + intros earlier other Hearlier.
      destruct (proj1 (elem_of_nil earlier) Hearlier).
    + reflexivity.
    + reflexivity.
Defined.

(** ** Run glyphs, on the snapshot *)

Lemma run_glyph_decorations_witness :
  onDecorations exampleDecoratedProject = true
  ∧ schema exampleDecoratedProject = Some exampleService
  ∧ ∃ decorations,
      exampleGenerateDecorations exampleDecoratedProject
      = [DecorationsCallback (Diagnostic:=string) decorations]
      ∧ length (filter (λ d, ¬ isTextDecoration d) decorations) = 1.
Proof.
  assert (Hhandler : onDecorations exampleDecoratedProject = true)
    by reflexivity.
  assert (Hschema : schema exampleDecoratedProject = Some exampleService)
    by reflexivity.
  split; [exact Hhandler|]. split; [exact Hschema|].
  destruct (run_glyph_decorations exampleRootTypeName
              exampleIsCompositeTypeName exampleFieldCompositeTypeName
              examplePrint id id (λ url _, url) String.append id
              exampleFormatMS exampleDecoratedProject exampleService
              Hhandler Hschema) as (decorations & Hrun & Hglyphs & _).
  exists decorations. split; [exact Hrun|]. rewrite Hglyphs. reflexivity.
Defined.

(** The same project before its latency statistics are loaded. *)
Definition exampleUnmeasuredProject :=
  assignFieldLatenciesMS ExampleSchema string unit exampleDecoratedProject None.

Lemma decorations_without_statistics_witness :
  onDecorations exampleUnmeasuredProject = true
  ∧ schema exampleUnmeasuredProject = Some exampleService
  ∧ fieldLatenciesMS exampleUnmeasuredProject = None
  ∧ ∃ decorations,
      exampleGenerateDecorations exampleUnmeasuredProject
      = [DecorationsCallback (Diagnostic:=string) decorations]
      ∧ length decorations = 1.
Proof.
  assert (Hhandler : onDecorations exampleUnmeasuredProject = true)
    by reflexivity.
  assert (Hschema : schema exampleUnmeasuredProject = Some exampleService)
    by reflexivity.
  assert (Hnone : fieldLatenciesMS exampleUnmeasuredProject = None)
    by reflexivity.
  split; [exact Hhandler|]. split; [exact Hschema|]. split; [exact Hnone|].
  eexists. split.
  - exact (decorations_without_statistics exampleRootTypeName
             exampleIsCompositeTypeName exampleFieldCompositeTypeName
             examplePrint id id (λ url _, url) String.append id
             exampleFormatMS exampleUnmeasuredProject exampleService
             Hhandler Hschema Hnone).
  - reflexivity.
Defined.

(** ** Client metadata and the validation pass, on the snapshot *)

(** [extend type User { isLoggedIn: Boolean }]. *)
Definition exampleGoodExtension : DefinitionNode :=
  ObjectTypeExtension
    {| objectTypeExtension_loc := None;
       objectTypeExtension_name := "User";
       objectTypeExtension_fields := Some ["isLoggedIn"] |}.

Definition exampleExtendedProject :=
  exampleProject (exampleConfig None None)
    [("file:///a.graphql", [exampleDocument [OperationDefinition exampleLeaf]])]
    [exampleGoodExtension].

Definition exampleAddClientMetadataToSchemaNodes :=
  addClientMetadataToSchemaNodes ExampleSchema example_directives
    exampleGetTypeClientSchema exampleSetTypeClientSchema exampleApolloAst
    string unit.

Lemma exampleLookup_head {A : Type} (l : list (string * A)) (key : string)
    (value : A) :
  exampleLookup ((key, value) :: l) key = Some value.
Proof.
  unfold exampleLookup. rewrite filter_cons. simpl.
  destruct (decide (key = key)) as [_|Hne]; [reflexivity|].
  destruct (Hne eq_refl).
Defined.

Lemma exampleLookup_tail {A : Type} (l : list (string * A))
    (key key' : string) (value : A) :
  key ≠ key' → exampleLookup ((key, value) :: l) key' = exampleLookup l key'.
Proof.
  intros Hne. unfold exampleLookup. rewrite filter_cons. simpl.
  destruct (decide (key = key')) as [Heq|_]; [destruct (Hne Heq)|reflexivity].
Defined.

Lemma example_get_set_eq (composed : ExampleSchema) (typeName : string)
    (info : ClientSchemaInfo) :
  is_Some (exampleGetTypeClientSchema composed typeName) →
  exampleGetTypeClientSchema
    (exampleSetTypeClientSchema composed typeName info) typeName
  = Some (Some info).
Proof.
  unfold exampleGetTypeClientSchema, exampleSetTypeClientSchema. simpl.
  intros [found Hfound]. rewrite exampleLookup_head.
  destruct (exampleLookup (example_types composed) typeName);
    [reflexivity|discriminate Hfound].
Defined.

Lemma example_get_set_ne (composed : ExampleSchema)
    (typeName typeName' : string) (info : ClientSchemaInfo) :
  typeName ≠ typeName' →
  exampleGetTypeClientSchema
    (exampleSetTypeClientSchema composed typeName info) typeName'
  = exampleGetTypeClientSchema composed typeName'.
Proof.
  intros Hne.
  unfold exampleGetTypeClientSchema, exampleSetTypeClientSchema. simpl.
  rewrite (exampleLookup_tail _ _ _ _ Hne). reflexivity.
Defined.

Lemma addClientMetadataToSchemaNodes_spec_witness :
  ∃ annotated,
    schema (exampleAddClientMetadataToSchemaNodes exampleExtendedProject)
    = Some annotated
    ∧ exampleGetTypeClientSchema annotated "User"
      = Some (Some {| localFields := Some ["isLoggedIn"] |})
    ∧ exampleGetTypeClientSchema annotated "Query" = Some None
    ∧ exampleGetTypeClientSchema annotated "Missing" = None.
Proof.
  pose proof (addClientMetadataToSchemaNodes_spec ExampleSchema
                example_directives exampleGetTypeClientSchema
                exampleSetTypeClientSchema exampleApolloAst string unit
                example_get_set_eq example_get_set_ne
                exampleExtendedProject) as Hspec.
  change (schema exampleExtendedProject) with (Some exampleService) in Hspec.
  change (serviceSchema exampleExtendedProject) with (Some exampleService)
    in Hspec.
  cbv beta iota in Hspec.
  destruct Hspec as (annotated & Hrun & Hget).
  exists annotated. unfold exampleAddClientMetadataToSchemaNodes.
  rewrite Hrun, !Hget. split; [reflexivity|].
  split; [reflexivity|]. split; reflexivity.
Defined.

Lemma addClientMetadataToSchemaNodes_accumulates_witness :
  schema exampleExtendedProject = Some exampleService
  ∧ serviceSchema exampleExtendedProject = Some exampleService
  ∧ exampleGetTypeClientSchema exampleService "User" = Some None
  ∧ extensionFields "User"
      (definitions (exampleClientSchema exampleExtendedProject))
    = [["isLoggedIn"]]
  ∧ ∃ twice,
      schema (exampleAddClientMetadataToSchemaNodes
                (exampleAddClientMetadataToSchemaNodes exampleExtendedProject))
      = Some twice
      ∧ exampleGetTypeClientSchema twice "User"
        = Some (Some {| localFields := Some ["isLoggedIn"; "isLoggedIn"] |}).
Proof.
  assert (Hschema : schema exampleExtendedProject = Some exampleService)
    by reflexivity.
  assert (Hservice : serviceSchema exampleExtendedProject = Some exampleService)
    by reflexivity.
  assert (Hget : exampleGetTypeClientSchema exampleService "User" = Some None)
    by reflexivity.
  assert (Hfields : extensionFields "User"
                      (definitions (exampleClientSchema exampleExtendedProject))
                    = [["isLoggedIn"]]) by reflexivity.
  split; [exact Hschema|]. split; [exact Hservice|]. split; [exact Hget|].
  split; [exact Hfields|].
  assert (Hsome : extensionFields "User"
                    (definitions (exampleClientSchema exampleExtendedProject))
                  ≠ []).
  { rewrite Hfields. discriminate. }
  destruct (addClientMetadataToSchemaNodes_accumulates ExampleSchema
              example_directives exampleGetTypeClientSchema
              exampleSetTypeClientSchema exampleApolloAst string unit
              example_get_set_eq example_get_set_ne exampleExtendedProject
              exampleService exampleService "User" None
              Hschema Hservice Hget Hsome) as (twice & Htwice & Htwo).
  exists twice. split; [exact Htwice|]. rewrite Htwo. reflexivity.
Defined.

(** A composer that runs out of memory. *)
Definition exampleFailingExtendSchema (s : ExampleSchema)
  (document : DocumentNode) : Completion ExampleSchema :=
  Throw (ThrownOther "out of memory").

Definition exampleFailingValidate :=
  validate ExampleSchema example_directives exampleFailingExtendSchema
    exampleGetTypeClientSchema exampleSetTypeClientSchema exampleRootTypeName
    exampleIsCompositeTypeName exampleFieldCompositeTypeName examplePrint
    id id (λ url _, url) String.append exampleApolloAst string
    (option Location) unit (λ error, [error_message error]) exampleCollect id
    exampleFormatMS.

Lemma validate_logs_unexpected_error_witness :
  onDiagnostics exampleBrokenProject = true
  ∧ serviceSchema exampleBrokenProject = Some exampleService
  ∧ exampleFailingExtendSchema exampleService
      (exampleClientSchema exampleBrokenProject)
    = Throw (ThrownOther "out of memory")
  ∧ schema (exampleFailingValidate exampleBrokenProject).1
    = Some exampleService
  ∧ head (exampleFailingValidate exampleBrokenProject).2
    = Some (ConsoleError (ThrownOther "out of memory")).
Proof.
  assert (Hhandler : onDiagnostics exampleBrokenProject = true) by reflexivity.
  assert (Hservice : serviceSchema exampleBrokenProject = Some exampleService)
    by reflexivity.
  assert (Hthrow :
    exampleFailingExtendSchema exampleService
      (exampleClientSchema exampleBrokenProject)
    = Throw (ThrownOther "out of memory")) by reflexivity.
  destruct (validate_logs_unexpected_error ExampleSchema example_directives
              exampleFailingExtendSchema exampleGetTypeClientSchema
              exampleSetTypeClientSchema exampleRootTypeName
              exampleIsCompositeTypeName exampleFieldCompositeTypeName
              examplePrint id id (λ url _, url) String.append
              exampleApolloAst string (option Location) unit
              (λ error, [error_message error]) exampleCollect id
              exampleFormatMS exampleBrokenProject exampleService
              "out of memory" Hhandler Hservice Hthrow)
    as (diagnostics & Hschema & _ & Heffects & _).
  split; [exact Hhandler|]. split; [exact Hservice|]. split; [exact Hthrow|].
  split; [exact Hschema|].
  unfold exampleFailingValidate. rewrite Heffects. reflexivity.
Defined.

Lemma validate_composes_witness :
  onDiagnostics exampleExtendedProject = true
  ∧ serviceSchema exampleExtendedProject = Some exampleService
  ∧ (∃ composed,
       exampleExtendSchema exampleService
         (exampleClientSchema exampleExtendedProject)
       = Normal composed)
  ∧ ∃ annotated,
      schema (exampleValidate exampleExtendedProject).1 = Some annotated
      ∧ example_directives annotated = ["skip"; "client"]
      ∧ exampleGetTypeClientSchema annotated "User"
        = Some (Some {| localFields := Some ["isLoggedIn"] |}).
Proof.
  assert (Hhandler : onDiagnostics exampleExtendedProject = true)
    by reflexivity.
  assert (Hservice : serviceSchema exampleExtendedProject = Some exampleService)
    by reflexivity.
  assert (Hextend : ∃ composed,
            exampleExtendSchema exampleService
              (exampleClientSchema exampleExtendedProject)
            = Normal composed) by (eexists; reflexivity).
  split; [exact Hhandler|]. split; [exact Hservice|]. split; [exact Hextend|].
  destruct Hextend as [composed Hextend].
  destruct (validate_composes ExampleSchema example_directives
              exampleExtendSchema exampleGetTypeClientSchema
              exampleSetTypeClientSchema exampleRootTypeName
              exampleIsCompositeTypeName exampleFieldCompositeTypeName
              examplePrint id id (λ url _, url) String.append
              exampleApolloAst string (option Location) unit
              (λ error, [error_message error]) exampleCollect id
              exampleFormatMS exampleExtendedProject exampleService composed
              Hhandler Hservice Hextend)
    as (diagnostics & Hschema & _).
  eexists. split; [exact Hschema|].
  injection Hextend as <-. split; reflexivity.
Defined.

Lemma validate_callbacks_witness :
  NoDup (omap callbackUri (exampleValidate exampleBrokenProject).2)
  ∧ "file:///a.graphql"
    ∈ omap callbackUri (exampleValidate exampleBrokenProject).2.
Proof.
  destruct (validate_callbacks ExampleSchema example_directives
              exampleExtendSchema exampleGetTypeClientSchema
              exampleSetTypeClientSchema exampleRootTypeName
              exampleIsCompositeTypeName exampleFieldCompositeTypeName
              examplePrint id id (λ url _, url) String.append
              exampleApolloAst string (option Location) unit
              (λ error, [error_message error]) exampleCollect id
              exampleFormatMS exampleBrokenProject)
    as (Hnodup & _ & _ & Hfiles).
  split; [exact Hnodup|].
  apply (Hfiles eq_refl (ex_intro _ exampleService eq_refl)
           ("file:///a.graphql",
            [exampleDocument [OperationDefinition exampleO]])).
  - left.
  - discriminate.
Defined.

Lemma validate_publishes_decorations_witness :
  ∃ decorations,
    DecorationsCallback (Diagnostic:=string) decorations
    ∈ (exampleValidate exampleDecoratedProject).2.
Proof.
  apply (validate_publishes_decorations ExampleSchema example_directives
           exampleExtendSchema exampleGetTypeClientSchema
           exampleSetTypeClientSchema exampleRootTypeName
           exampleIsCompositeTypeName exampleFieldCompositeTypeName
           examplePrint id id (λ url _, url) String.append
           exampleApolloAst string (option Location) unit
           (λ error, [error_message error]) exampleCollect id
           exampleFormatMS exampleDecoratedProject).
  split; [reflexivity|]. split; [|reflexivity].
  exists exampleService. reflexivity.
Defined.

(** ** Statistics, files and loading, on the snapshot *)

Lemma filterTypes_spec_witness :
  filterTypes "PaidInterval" = false
  ∧ filterTypes "__Schema" = false
  ∧ filterTypes "User" = true.
Proof.
  split; [|split; [|reflexivity]].
  - apply (filterTypes_spec "PaidInterval"). right.
    exists "Int", "Paid", "erval". split; [|reflexivity].
    right. right. left.
  - apply (filterTypes_spec "__Schema"). left. exists "Schema". reflexivity.
Defined.

Lemma warnsOfNoFiles_spec_witness :
  warnsOfNoFiles (Some "/project/settings.js")
    ["/project/apollo.config.js"; "/project/.env.local";
     "/project/settings.js"]
  = true.
Proof.
  apply (warnsOfNoFiles_spec (Some "/project/settings.js")
           ["/project/apollo.config.js"; "/project/.env.local";
            "/project/settings.js"]).
  intros path Hin.
  apply elem_of_cons in Hin as [->|Hin].
  { left. exists "/project/", ".js". reflexivity. }
  apply elem_of_cons in Hin as [->|Hin].
  { right. left. exists "/project/", ".local". reflexivity. }
  apply elem_of_cons in Hin as [->|Hin].
  { right. right. reflexivity. }
  destruct (proj1 (elem_of_nil path) Hin).
Defined.

Definition exampleGetOperationFieldsFromFieldDefinition :=
  getOperationFieldsFromFieldDefinition ExampleSchema exampleRootTypeName
    exampleIsCompositeTypeName exampleFieldCompositeTypeName string unit.

Lemma getOperationFieldsFromFieldDefinition_spec_witness :
  exampleGetOperationFieldsFromFieldDefinition exampleDecoratedProject
    "id" (Some {| objectTypeDefinition_name := "User" |})
  = [exampleIdField]
  ∧ exampleGetOperationFieldsFromFieldDefinition exampleDecoratedProject
      "user" (Some {| objectTypeDefinition_name := "Query" |})
    = [exampleUserField]
  ∧ exampleGetOperationFieldsFromFieldDefinition exampleDecoratedProject
      "id" (Some {| objectTypeDefinition_name := "Query" |})
    = [].
Proof.
  pose proof (getOperationFieldsFromFieldDefinition_spec ExampleSchema
                exampleRootTypeName exampleIsCompositeTypeName
                exampleFieldCompositeTypeName string unit
                exampleDecoratedProject "id"
                (Some {| objectTypeDefinition_name := "User" |})) as Hid.
  pose proof (getOperationFieldsFromFieldDefinition_spec ExampleSchema
                exampleRootTypeName exampleIsCompositeTypeName
                exampleFieldCompositeTypeName string unit
                exampleDecoratedProject "user"
                (Some {| objectTypeDefinition_name := "Query" |})) as Huser.
  pose proof (getOperationFieldsFromFieldDefinition_spec ExampleSchema
                exampleRootTypeName exampleIsCompositeTypeName
                exampleFieldCompositeTypeName string unit
                exampleDecoratedProject "id"
                (Some {| objectTypeDefinition_name := "Query" |})) as Hquery.
  change (schema exampleDecoratedProject) with (Some exampleService)
    in Hid, Huser, Hquery.
  cbv beta iota in Hid, Huser, Hquery.
  destruct Hid as (Hid & _). destruct Huser as (Huser & _).
  destruct Hquery as (Hquery & _).
  unfold exampleGetOperationFieldsFromFieldDefinition.
  rewrite Hid, Huser, Hquery. split; [reflexivity|]. split; reflexivity.
Defined.

(** The type names of a schema, the built-in ones included. *)
Definition exampleGetTypeMapKeys (s : ExampleSchema) : list string :=
  (example_types s).*1 ++ ["ID"; "String"; "Boolean"; "__Schema"; "__Type"].

Definition exampleGetProjectStats :=
  getProjectStats ExampleSchema string unit exampleGetTypeMapKeys.

Lemma getProjectStats_spec_witness :
  types_total (stats_types (exampleGetProjectStats exampleDecoratedProject None))
  = 2%Z
  ∧ types_client
      (stats_types (exampleGetProjectStats exampleDecoratedProject None))
    = 0%Z.
Proof.
  destruct (getProjectStats_spec ExampleSchema string unit
              exampleGetTypeMapKeys exampleDecoratedProject None)
    as (Hsum & _).
  assert (Htotal :
    types_total
      (stats_types (exampleGetProjectStats exampleDecoratedProject None))
    = 2%Z) by reflexivity.
  split; [exact Htotal|].
  unfold exampleGetProjectStats in *. rewrite Htotal in Hsum.
  change (types_service
            (stats_types
               (getProjectStats ExampleSchema string unit
                  exampleGetTypeMapKeys exampleDecoratedProject None)))
    with 2%Z in Hsum.
  lia.
Defined.

(** A schema provider that knows one tag, a printer and a builder. *)
Definition exampleResolveSchema (tag : string) (force : bool)
  : Completion ExampleSchema :=
  if decide (tag = "current") then Normal exampleService
  else Throw (ThrownOther "unknown tag").

Definition exampleGetQueryType (s : ExampleSchema)
  : option (list (string * string)) :=
  exampleLookup (example_types s) "Query".

Definition exampleLoadServiceSchema :=
  loadServiceSchema ExampleSchema example_directives exampleExtendSchema
    exampleApolloAst string unit (list (string * string))
    exampleGetQueryType (λ _, true) (λ _, "schema { query: Query }")
    (λ _ _, Normal exampleService) id exampleResolveSchema.

Definition exampleAugment :=
  augmentSchemaWithGeneratedSDLIfNeeded ExampleSchema
    (list (string * string)) exampleGetQueryType (λ _, true)
    (λ _, "schema { query: Query }") (λ _ _, Normal exampleService) id.

(** The project with the deprecated field before any schema is loaded. *)
Definition exampleFreshProject :=
  assignSchema ExampleSchema string unit
    (assignServiceSchema ExampleSchema string unit exampleDeprecatedProject
       None)
    None.

Lemma loadServiceSchema_spec_witness :
  (exampleLoadServiceSchema exampleFreshProject (Some "next")).1
  = exampleFreshProject
  ∧ ∃ composed,
      schema (exampleLoadServiceSchema exampleExtendedProject None).1
      = Some composed
      ∧ exampleExtendSchema exampleService
          (exampleClientSchema
             (exampleLoadServiceSchema exampleExtendedProject None).1)
        = Normal composed.
Proof.
  split; [reflexivity|].
  destruct (loadServiceSchema_spec ExampleSchema example_directives
              exampleExtendSchema exampleApolloAst string unit
              (list (string * string)) exampleGetQueryType (λ _, true)
              (λ _, "schema { query: Query }") (λ _ _, Normal exampleService)
              id exampleResolveSchema exampleExtendedProject None)
    as (_ & Hloaded & _).
  destruct (Hloaded eq_refl) as (service & composed & Hservice & Hschema & Hextend).
  exists composed. split; [exact Hschema|].
  injection Hservice as <-. exact Hextend.
Defined.

Lemma loadServiceSchema_failed_composition_witness :
  onDiagnostics exampleFreshProject = true
  ∧ exampleResolveSchema
      (tagOrVariant ExampleSchema string unit exampleFreshProject None) true
    = Normal exampleService
  ∧ exampleAugment exampleService = Normal exampleService
  ∧ exampleExtendSchema exampleService
      (exampleClientSchema
         (assignServiceSchema ExampleSchema string unit exampleFreshProject
            (Some exampleService)))
    = Throw (ThrownGraphQLError exampleCompositionError)
  ∧ schema (exampleLoadServiceSchema exampleFreshProject None).1 = None
  ∧ schema
      (exampleValidate (exampleLoadServiceSchema exampleFreshProject None).1).1
    = Some exampleService.
Proof.
  assert (Hhandler : onDiagnostics exampleFreshProject = true) by reflexivity.
  assert (Hresolve :
    exampleResolveSchema
      (tagOrVariant ExampleSchema string unit exampleFreshProject None) true
    = Normal exampleService) by reflexivity.
  assert (Haugment : exampleAugment exampleService = Normal exampleService)
    by reflexivity.
  assert (Hthrow :
    exampleExtendSchema exampleService
      (exampleClientSchema
         (assignServiceSchema ExampleSchema string unit exampleFreshProject
            (Some exampleService)))
    = Throw (ThrownGraphQLError exampleCompositionError)) by reflexivity.
  destruct (loadServiceSchema_failed_composition ExampleSchema
              example_directives exampleExtendSchema
              exampleGetTypeClientSchema exampleSetTypeClientSchema
              exampleRootTypeName exampleIsCompositeTypeName
              exampleFieldCompositeTypeName examplePrint id id (λ url _, url)
              String.append exampleApolloAst string (option Location) unit
              (λ error, [error_message error]) exampleCollect id
              exampleFormatMS (list (string * string)) exampleGetQueryType
              (λ _, true) (λ _, "schema { query: Query }")
              (λ _ _, Normal exampleService) id exampleResolveSchema
              exampleFreshProject None exampleService exampleService
              (ThrownGraphQLError exampleCompositionError)
              Hhandler Hresolve Haugment Hthrow)
    as (_ & _ & Hstale & _ & Hschema & _).
  split; [exact Hhandler|]. split; [exact Hresolve|].
  split; [exact Haugment|]. split; [exact Hthrow|].
  split; [exact Hstale|exact Hschema].
Defined.

Lemma getProjectStats_after_failed_composition_witness :
  schema exampleFreshProject = None
  ∧ exampleResolveSchema
      (tagOrVariant ExampleSchema string unit exampleFreshProject None) true
    = Normal exampleService
  ∧ exampleAugment exampleService = Normal exampleService
  ∧ exampleExtendSchema exampleService
      (exampleClientSchema
         (assignServiceSchema ExampleSchema string unit exampleFreshProject
            (Some exampleService)))
    = Throw (ThrownGraphQLError exampleCompositionError)
  ∧ types_client
      (stats_types
         (exampleGetProjectStats
            (exampleLoadServiceSchema exampleFreshProject None).1 None))
    = (-2)%Z.
Proof.
  assert (Hschema : schema exampleFreshProject = None) by reflexivity.
  assert (Hresolve :
    exampleResolveSchema
      (tagOrVariant ExampleSchema string unit exampleFreshProject None) true
    = Normal exampleService) by reflexivity.
  assert (Haugment : exampleAugment exampleService = Normal exampleService)
    by reflexivity.
  assert (Hthrow :
    exampleExtendSchema exampleService
      (exampleClientSchema
         (assignServiceSchema ExampleSchema string unit exampleFreshProject
            (Some exampleService)))
    = Throw (ThrownGraphQLError exampleCompositionError)) by reflexivity.
  destruct (getProjectStats_after_failed_composition ExampleSchema
              example_directives exampleExtendSchema exampleApolloAst string
              unit (list (string * string)) exampleGetQueryType (λ _, true)
              (λ _, "schema { query: Query }") (λ _ _, Normal exampleService)
              id exampleResolveSchema exampleGetTypeMapKeys
              exampleFreshProject None exampleService exampleService
              (ThrownGraphQLError exampleCompositionError) None
              Hschema Hresolve Haugment Hthrow)
    as (_ & _ & Hcount & Hclient).
  split; [exact Hschema|]. split; [exact Hresolve|].
  split; [exact Haugment|]. split; [exact Hthrow|].
  unfold exampleGetProjectStats, exampleLoadServiceSchema.
  rewrite Hclient, Hcount. reflexivity.
Defined.

(** An engine that answers the first request and is cut off at the second. *)
Definition exampleEngineClient : EngineClient :=
  {| loadSchemaTagsAndFieldLatencies :=
       λ serviceID,
         Normal (["current"; "staging"],
                 {[ "Query" := {[ "user" := Some (Qc_of_Z 900) ]} ]});
     loadFrontendUrlRoot := Throw (ThrownOther "offline") |}.

Definition exampleLoadEngineData :=
  loadEngineData ExampleSchema exampleRootTypeName exampleIsCompositeTypeName
    exampleFieldCompositeTypeName examplePrint id id (λ url _, url)
    String.append string (option Location) unit id exampleFormatMS.

